(** * The generative-content service layer of the textbook factory

    A shallow embedding of the service module (credential slot, retry
    executor, remote-call stages, video job poller, speech stages) and of
    the parts of the JavaScript runtime it relies on (UTF-16 strings,
    [String.prototype.includes], [trim], [JSON.parse]), followed by the
    properties of the orchestration layer.

    Conventions.
    - A JavaScript string is the list of its UTF-16 code units.
    - A JavaScript number that the module only uses as a count or as a
      number of milliseconds is an integer ([nat] for the retry budget,
      [Z] elsewhere).
    - An [async] function is a function from the world to the outcome of
      its promise and the world it leaves behind. *)

From Stdlib Require Import List ZArith NArith Bool String Ascii Lia QArith.
Import ListNotations.
Close Scope Q_scope.

Set Implicit Arguments.
Set Warnings "-register-all".

(** ** JavaScript strings *)

Module JsString.

(** A string is its sequence of UTF-16 code units. *)
Definition jsstring : Type := list N.

#[local] Open Scope N_scope.

(** Decoding of a UTF-8 byte sequence into UTF-16 code units; it is only
    used to write string literals of the source in this file. *)
Definition cont (b : N) : N := N.land b 63.

Definition utf16_of_code_point (cp : N) : jsstring :=
  if cp <? 65536 then [cp]
  else
    let v := cp - 65536 in
    [55296 + N.shiftr v 10; 56320 + N.land v 1023].

Fixpoint utf16_of_utf8 (bs : list N) : jsstring :=
  match bs with
  | [] => []
  | b0 :: r0 =>
    if b0 <? 128 then b0 :: utf16_of_utf8 r0
    else
      match r0 with
      | [] => [65533]
      | b1 :: r1 =>
        if b0 <? 224 then
          (N.shiftl (N.land b0 31) 6 + cont b1) :: utf16_of_utf8 r1
        else
          match r1 with
          | [] => [65533]
          | b2 :: r2 =>
            if b0 <? 240 then
              (N.shiftl (N.land b0 15) 12 + N.shiftl (cont b1) 6 + cont b2)
                :: utf16_of_utf8 r2
            else
              match r2 with
              | [] => [65533]
              | b3 :: r3 =>
                utf16_of_code_point
                  (N.shiftl (N.land b0 7) 18 + N.shiftl (cont b1) 12
                   + N.shiftl (cont b2) 6 + cont b3)
                  ++ utf16_of_utf8 r3
              end
          end
      end
  end.

(** [lit "..."] is the JavaScript string written between the quotes. *)
Definition lit (s : string) : jsstring :=
  utf16_of_utf8 (List.map N_of_ascii (list_ascii_of_string s)).

(** The double quote character, which the literals of this file never
    contain. *)
Definition dquote : jsstring := [34].

(** [!s] for a string: only the empty string is falsy. *)
Definition isEmpty (s : jsstring) : bool :=
  match s with [] => true | _ :: _ => false end.

(** [a || b] on strings. *)
Definition orElse (a b : jsstring) : jsstring :=
  if isEmpty a then b else a.

(** [a || b] where [a] may be [undefined]. *)
Definition orElseOpt (a : option jsstring) (b : jsstring) : jsstring :=
  match a with
  | Some s => orElse s b
  | None => b
  end.

Fixpoint eqb (a b : jsstring) : bool :=
  match a, b with
  | [], [] => true
  | x :: a', y :: b' => (x =? y) && eqb a' b'
  | _, _ => false
  end.

Fixpoint startsWith (s search : jsstring) : bool :=
  match search, s with
  | [], _ => true
  | _ :: _, [] => false
  | c :: search', d :: s' => (c =? d) && startsWith s' search'
  end.

(** [s.includes(search)]. *)
Fixpoint includes (s search : jsstring) : bool :=
  startsWith s search
  || match s with
     | [] => false
     | _ :: s' => includes s' search
     end.

(** The characters [trim] strips: WhiteSpace and LineTerminator. *)
Definition isWhiteSpace (c : N) : bool :=
  (c =? 9) || (c =? 10) || (c =? 11) || (c =? 12) || (c =? 13)
  || (c =? 32) || (c =? 160) || (c =? 5760)
  || ((8192 <=? c) && (c <=? 8202))
  || (c =? 8232) || (c =? 8233) || (c =? 8239) || (c =? 8287)
  || (c =? 12288) || (c =? 65279).

Fixpoint trimStart (s : jsstring) : jsstring :=
  match s with
  | [] => []
  | c :: s' => if isWhiteSpace c then trimStart s' else s
  end.

Definition trimEnd (s : jsstring) : jsstring :=
  rev (trimStart (rev s)).

(** [s.trim()]. *)
Definition trim (s : jsstring) : jsstring := trimEnd (trimStart s).

(** The character class [[\x20-\x7E]]. *)
Definition isPrintableAscii (c : N) : bool := (32 <=? c) && (c <=? 126).

(** [s.replace(/[^\x20-\x7E]/g, '')]: every code unit outside the class
    is replaced by nothing. *)
Definition removeNonPrintable (s : jsstring) : jsstring :=
  filter isPrintableAscii s.

(** Decimal digits of a positive integer, most significant first. *)
Fixpoint digits (fuel : nat) (n : N) (acc : jsstring) : jsstring :=
  match fuel with
  | O => acc
  | S fuel' =>
    let acc' := (48 + n mod 10) :: acc in
    if n <? 10 then acc' else digits fuel' (n / 10) acc'
  end.

(** [String(n)] for an integer [n], as a template literal prints it. *)
Definition ofZ (n : Z) : jsstring :=
  let m := Z.to_N (Z.abs n) in
  let ds := digits (S (N.to_nat (N.log2 m))) m [] in
  if (n <? 0)%Z then 45 :: ds else ds.

(** [`${x}`] where [x] may be [undefined]. *)
Definition ofOpt (x : option jsstring) : jsstring :=
  match x with
  | Some s => s
  | None => lit "undefined"
  end.

End JsString.
Import JsString.

(** ** JSON values and [JSON.parse] *)

Module Json.

#[local] Open Scope N_scope.

(** The values [JSON.parse] can produce, and [undefined], which a
    property access on them can produce.  A number keeps the exact
    decimal it was written as: [mantissa * 10 ^ exponent], negated when
    [negative]. *)
Inductive JsValue : Type :=
| JUndefined
| JNull
| JBool (b : bool)
| JNumber (negative : bool) (mantissa : N) (exponent : Z)
| JString (s : jsstring)
| JArray (elements : list JsValue)
| JObject (members : list (jsstring * JsValue)).

Definition isJsonWhiteSpace (c : N) : bool :=
  (c =? 9) || (c =? 10) || (c =? 13) || (c =? 32).

Fixpoint skipWs (s : jsstring) : jsstring :=
  match s with
  | [] => []
  | c :: s' => if isJsonWhiteSpace c then skipWs s' else s
  end.

Definition isDigit (c : N) : bool := (48 <=? c) && (c <=? 57).

Definition hexValue (c : N) : option N :=
  if isDigit c then Some (c - 48)
  else if (65 <=? c) && (c <=? 70) then Some (c - 55)
  else if (97 <=? c) && (c <=? 102) then Some (c - 87)
  else None.

Definition hex4 (a b c d : N) : option N :=
  match hexValue a, hexValue b, hexValue c, hexValue d with
  | Some x, Some y, Some z, Some t => Some (((x * 16 + y) * 16 + z) * 16 + t)
  | _, _, _, _ => None
  end.

(** The character a single-character escape stands for. *)
Definition unescape (e : N) : option N :=
  if (e =? 34) || (e =? 92) || (e =? 47) then Some e
  else if e =? 98 then Some 8
  else if e =? 102 then Some 12
  else if e =? 110 then Some 10
  else if e =? 114 then Some 13
  else if e =? 116 then Some 9
  else None.

(** The rest of a string literal after its opening quote: the string it
    denotes and the input after the closing quote. *)
Fixpoint parseStringBody (s acc : jsstring) : option (jsstring * jsstring) :=
  match s with
  | [] => None
  | c :: r =>
    if c =? 34 then Some (rev acc, r)
    else if c =? 92 then
      match r with
      | [] => None
      | e :: r1 =>
        if e =? 117 then
          match r1 with
          | h1 :: h2 :: h3 :: h4 :: r2 =>
            match hex4 h1 h2 h3 h4 with
            | Some u => parseStringBody r2 (u :: acc)
            | None => None
            end
          | _ => None
          end
        else
          match unescape e with
          | Some ch => parseStringBody r1 (ch :: acc)
          | None => None
          end
      end
    else if c <? 32 then None
    else parseStringBody r (c :: acc)
  end.

(** A maximal run of digits: the number read so far, how many digits
    were read, and the rest of the input. *)
Fixpoint takeDigits (s : jsstring) (acc : N) (count : Z) : N * Z * jsstring :=
  match s with
  | c :: r =>
    if isDigit c then takeDigits r (acc * 10 + (c - 48)) (count + 1)
    else (acc, count, s)
  | [] => (acc, count, s)
  end.

Definition startsWithDigit (s : jsstring) : bool :=
  match s with
  | c :: _ => isDigit c
  | [] => false
  end.

(** The exponent part, if there is one. *)
Definition parseExponent (s : jsstring) : option (Z * jsstring) :=
  match s with
  | c :: r =>
    if (c =? 101) || (c =? 69) then
      let '(negExp, r1) :=
        match r with
        | 45 :: r' => (true, r')
        | 43 :: r' => (false, r')
        | _ => (false, r)
        end in
      if startsWithDigit r1 then
        let '(e, _, r2) := takeDigits r1 0 0 in
        Some (if negExp then (- Z.of_N e)%Z else Z.of_N e, r2)
      else None
    else Some (0%Z, s)
  | [] => Some (0%Z, s)
  end.

Definition parseNumber (s : jsstring) : option (JsValue * jsstring) :=
  let '(neg, s1) :=
    match s with
    | 45 :: r => (true, r)
    | _ => (false, s)
    end in
  match s1 with
  | d :: r =>
    if isDigit d then
      let '(int, _, s2) := if d =? 48 then (0, 1%Z, r) else takeDigits s1 0 0 in
      let fraction :=
        match s2 with
        | 46 :: r2 =>
          if startsWithDigit r2 then Some (takeDigits r2 int 0) else None
        | _ => Some (int, 0%Z, s2)
        end in
      match fraction with
      | Some (m, k, s3) =>
        match parseExponent s3 with
        | Some (e, s4) => Some (JNumber neg m (e - k), s4)
        | None => None
        end
      | None => None
      end
    else None
  | [] => None
  end.

Definition parseKeyword (word : jsstring) (v : JsValue) (s : jsstring)
  : option (JsValue * jsstring) :=
  if startsWith s word then Some (v, skipn (List.length word) s) else None.

Fixpoint parseValue (fuel : nat) (s : jsstring) : option (JsValue * jsstring) :=
  match fuel with
  | O => None
  | S fuel' =>
    match skipWs s with
    | [] => None
    | c :: r =>
      if c =? 123 then
        match skipWs r with
        | 125 :: r' => Some (JObject [], r')
        | _ => parseMembers fuel' [] r
        end
      else if c =? 91 then
        match skipWs r with
        | 93 :: r' => Some (JArray [], r')
        | _ => parseElements fuel' [] r
        end
      else if c =? 34 then
        match parseStringBody r [] with
        | Some (str, r') => Some (JString str, r')
        | None => None
        end
      else if c =? 116 then parseKeyword (lit "true") (JBool true) (c :: r)
      else if c =? 102 then parseKeyword (lit "false") (JBool false) (c :: r)
      else if c =? 110 then parseKeyword (lit "null") JNull (c :: r)
      else parseNumber (c :: r)
    end
  end

with parseMembers (fuel : nat) (acc : list (jsstring * JsValue)) (s : jsstring)
  : option (JsValue * jsstring) :=
  match fuel with
  | O => None
  | S fuel' =>
    match skipWs s with
    | 34 :: r =>
      match parseStringBody r [] with
      | Some (key, r1) =>
        match skipWs r1 with
        | 58 :: r2 =>
          match parseValue fuel' r2 with
          | Some (v, r3) =>
            match skipWs r3 with
            | 44 :: r4 => parseMembers fuel' ((key, v) :: acc) r4
            | 125 :: r4 => Some (JObject (rev ((key, v) :: acc)), r4)
            | _ => None
            end
          | None => None
          end
        | _ => None
        end
      | None => None
      end
    | _ => None
    end
  end

with parseElements (fuel : nat) (acc : list JsValue) (s : jsstring)
  : option (JsValue * jsstring) :=
  match fuel with
  | O => None
  | S fuel' =>
    match parseValue fuel' s with
    | Some (v, r) =>
      match skipWs r with
      | 44 :: r' => parseElements fuel' (v :: acc) r'
      | 93 :: r' => Some (JArray (rev (v :: acc)), r')
      | _ => None
      end
    | None => None
    end
  end.

(** [JSON.parse(text)]: [None] when it throws a [SyntaxError].  Every
    nested call happens after at least one more character was consumed
    or on behalf of a value that consumes one, so twice the length of
    the text bounds the depth of the calls. *)
Definition JSON_parse (text : jsstring) : option JsValue :=
  match parseValue (2 * List.length text + 2) text with
  | Some (v, rest) =>
    match skipWs rest with
    | [] => Some v
    | _ :: _ => None
    end
  | None => None
  end.

(** Whether the decimal [mantissa * 10 ^ exponent] is converted to the
    number zero: it is zero, or it is at most half of the smallest
    positive double, [2 ^ -1075]. *)
Definition roundsToZero (mantissa : N) (exponent : Z) : bool :=
  (mantissa =? 0)
  || ((exponent <? 0)%Z
      && (Z.of_N mantissa * 2 ^ 1075 <=? 10 ^ (- exponent))%Z).

(** [ToBoolean]. *)
Definition toBoolean (v : JsValue) : bool :=
  match v with
  | JUndefined | JNull => false
  | JBool b => b
  | JNumber _ m e => negb (roundsToZero m e)
  | JString s => negb (isEmpty s)
  | JArray _ | JObject _ => true
  end.

(** [a || b]. *)
Definition jsOr (a b : JsValue) : JsValue :=
  if toBoolean a then a else b.

(** The own property [name] of an object built by [JSON.parse]: a later
    member with the same key replaces an earlier one. *)
Fixpoint lookupMember (members : list (jsstring * JsValue)) (name : jsstring)
  : JsValue :=
  match members with
  | [] => JUndefined
  | (key, v) :: rest =>
    match lookupMember rest name with
    | JUndefined => if JsString.eqb key name then v else JUndefined
    | later => later
    end
  end.

(** [v.name] for a property name that no standard prototype defines and
    that is neither an index nor ["length"] (such as [analysis], [text]
    and [description]): [None] when the access throws a [TypeError]. *)
Definition getProperty (v : JsValue) (name : jsstring) : option JsValue :=
  match v with
  | JUndefined | JNull => None
  | JObject members => Some (lookupMember members name)
  | JBool _ | JNumber _ _ _ | JString _ | JArray _ => Some JUndefined
  end.

End Json.
Import Json.

(** ** Data exchanged with the remote service *)

(** An inline binary payload: base64 text and its declared MIME type. *)
Record InlineData : Type := mkInlineData {
  mimeType : option jsstring;
  data : option jsstring
}.

(** A content part: inline text or inline binary media. *)
Record Part : Type := mkPart {
  part_text : option jsstring;
  inlineData : option InlineData
}.

(** [{ text: s }] *)
Definition textPart (s : jsstring) : Part :=
  {| part_text := Some s; inlineData := None |}.

(** [{ inlineData: { mimeType: m, data: d } }] *)
Definition inlinePart (m d : jsstring) : Part :=
  {| part_text := None;
     inlineData := Some {| mimeType := Some m; data := Some d |} |}.

Record Content : Type := mkContent {
  parts : option (list Part)
}.

(** [contents] is written either as one content object or as an array. *)
Inductive Contents : Type :=
| ContentObject (c : Content)
| ContentArray (cs : list Content).

Inductive Schema : Type :=
| SchemaString
| SchemaObject (properties : list (jsstring * Schema)).

Record VoiceConfig : Type := mkVoiceConfig {
  prebuiltVoiceName : jsstring
}.

Record SpeakerVoiceConfig : Type := mkSpeakerVoiceConfig {
  speaker : jsstring;
  voiceConfig : VoiceConfig
}.

Inductive SpeechConfig : Type :=
| SingleVoice (v : VoiceConfig)
| MultiSpeakerVoice (speakerVoiceConfigs : list SpeakerVoiceConfig).

Record GenerationConfig : Type := mkGenerationConfig {
  temperature : option Q;
  responseMimeType : option jsstring;
  responseSchema : option Schema;
  responseModalities : option (list jsstring);
  speechConfig : option SpeechConfig;
  imageAspectRatio : option jsstring
}.

Definition emptyConfig : GenerationConfig :=
  {| temperature := None; responseMimeType := None; responseSchema := None;
     responseModalities := None; speechConfig := None;
     imageAspectRatio := None |}.

Record GenerateContentParameters : Type := mkGenerateContentParameters {
  model : jsstring;
  contents : Contents;
  config : option GenerationConfig
}.

Record Candidate : Type := mkCandidate {
  content : option Content
}.

(** A response: a flat text field, and candidate results. *)
Record GenerateContentResponse : Type := mkGenerateContentResponse {
  response_text : option jsstring;
  candidates : option (list Candidate)
}.

Inductive Resolution : Type := Res720p | Res1080p.

Record GenerateVideosParameters : Type := mkGenerateVideosParameters {
  video_model : jsstring;
  video_prompt : jsstring;
  imageBytes : jsstring;
  image_mimeType : jsstring;
  numberOfVideos : Z;
  resolution : Resolution;
  aspectRatio : jsstring
}.

Record Video : Type := mkVideo {
  uri : option jsstring
}.

Record GeneratedVideo : Type := mkGeneratedVideo {
  video : option Video
}.

Record GenerateVideosResponse : Type := mkGenerateVideosResponse {
  generatedVideos : option (list GeneratedVideo)
}.

(** The handle of a long-running job. *)
Record Operation : Type := mkOperation {
  operation_name : option jsstring;
  done : option bool;
  response : option GenerateVideosResponse
}.

(** A thrown value: an error object with a message and, when the remote
    call reports one, a numeric status. *)
Record JsError : Type := mkJsError {
  message : jsstring;
  status : option Z
}.

(** [new Error(msg)] *)
Definition newError (msg : jsstring) : JsError :=
  {| message := msg; status := None |}.

(** An uncompressed audio container, as far as its header is concerned. *)
Record WavContainer : Type := mkWavContainer {
  sampleRate : Z;
  numChannels : Z;
  pcm : list N
}.

Inductive Blob : Type :=
| RawBlob (bytes : list N) (type : jsstring)
| WavBlob (wav : WavContainer).

(** The client object: it only carries the credential. *)
Record GoogleGenAI : Type := mkGoogleGenAI {
  apiKey : jsstring
}.

(** ** Promises, the world and its log *)

(** How the promise of an [async] function ends: resolved with a value,
    rejected with an error, or still pending when the model's step budget
    for the polling loop runs out. *)
Inductive Outcome (A : Type) : Type :=
| Resolved (a : A)
| Rejected (e : JsError)
| Pending.

Arguments Resolved {A} a.
Arguments Rejected {A} e.
Arguments Pending {A}.

(** The body of the response of [fetch]: reading it as a blob can fail. *)
Record FetchResponse : Type := mkFetchResponse {
  body : Outcome Blob
}.

(** Everything the module does that can be observed from outside. *)
Inductive Event : Type :=
| EvGenerateContent (ai : GoogleGenAI) (params : GenerateContentParameters)
| EvGenerateVideos (ai : GoogleGenAI) (params : GenerateVideosParameters)
| EvGetVideosOperation (ai : GoogleGenAI) (operation : Operation)
| EvFetch (url : jsstring)
| EvTimeout (ms : Z)
| EvConsoleWarn (msg : jsstring).

(** The collaborators: what each call answers, given everything that
    happened before it. *)
Record Remote : Type := mkRemote {
  onGenerateContent :
    list Event -> GoogleGenAI -> GenerateContentParameters ->
    Outcome GenerateContentResponse;
  onGenerateVideos :
    list Event -> GoogleGenAI -> GenerateVideosParameters -> Outcome Operation;
  onGetVideosOperation :
    list Event -> GoogleGenAI -> Operation -> Outcome Operation;
  onFetch : list Event -> jsstring -> Outcome FetchResponse
}.

Record World : Type := mkWorld {
  runtimeApiKey : jsstring;   (* the module-level credential slot *)
  remote : Remote;
  log : list Event            (* the events so far, oldest first *)
}.

(** An asynchronous computation. *)
Definition Async (A : Type) : Type := World -> Outcome A * World.

Definition ret {A} (a : A) : Async A := fun w => (Resolved a, w).

Definition throw {A} (e : JsError) : Async A := fun w => (Rejected e, w).

Definition bind {A B} (m : Async A) (k : A -> Async B) : Async B :=
  fun w =>
    match m w with
    | (Resolved a, w') => k a w'
    | (Rejected e, w') => (Rejected e, w')
    | (Pending, w') => (Pending, w')
    end.

(** [try { return await m } catch (error) { handler }] *)
Definition tryCatch {A} (m : Async A) (handler : JsError -> Async A) : Async A :=
  fun w =>
    match m w with
    | (Rejected e, w') => handler e w'
    | settled => settled
    end.

Declare Scope async_scope.
Delimit Scope async_scope with async.
Notation "x <- m ;; k" := (bind m (fun x => k))
  (at level 61, m at next level, right associativity) : async_scope.
Notation "m ;; k" := (bind m (fun _ => k))
  (at level 61, right associativity) : async_scope.
#[local] Open Scope async_scope.

Definition record (ev : Event) (w : World) : World :=
  {| runtimeApiKey := runtimeApiKey w; remote := remote w;
     log := log w ++ [ev] |}.

(** [ai.models.generateContent(params)] *)
Definition ai_generateContent (ai : GoogleGenAI) (params : GenerateContentParameters)
  : Async GenerateContentResponse :=
  fun w => (onGenerateContent (remote w) (log w) ai params,
            record (EvGenerateContent ai params) w).

(** [ai.models.generateVideos(params)] *)
Definition ai_generateVideos (ai : GoogleGenAI) (params : GenerateVideosParameters)
  : Async Operation :=
  fun w => (onGenerateVideos (remote w) (log w) ai params,
            record (EvGenerateVideos ai params) w).

(** [ai.operations.getVideosOperation({operation})] *)
Definition ai_getVideosOperation (ai : GoogleGenAI) (operation : Operation)
  : Async Operation :=
  fun w => (onGetVideosOperation (remote w) (log w) ai operation,
            record (EvGetVideosOperation ai operation) w).

(** [fetch(url)] *)
Definition fetch (url : jsstring) : Async FetchResponse :=
  fun w => (onFetch (remote w) (log w) url, record (EvFetch url) w).

(** [response.blob()] *)
Definition blob (r : FetchResponse) : Async Blob :=
  fun w => (body r, w).

(** [new Promise(resolve => setTimeout(resolve, ms))] *)
Definition timeout (ms : Z) : Async unit :=
  fun w => (Resolved tt, record (EvTimeout ms) w).

(** [console.warn(msg)] *)
Definition console_warn (msg : jsstring) : Async unit :=
  fun w => (Resolved tt, record (EvConsoleWarn msg) w).

(** Reading the module-level variable [runtimeApiKey]. *)
Definition readRuntimeApiKey : Async jsstring :=
  fun w => (Resolved (runtimeApiKey w), w).

(** ** The service module: credential slot and retry executor *)

(** [setApiKey(key)]: the key is stored without its non-printable
    characters and without surrounding whitespace. *)
Definition setApiKey (key : jsstring) (w : World) : World :=
  {| runtimeApiKey := trim (removeNonPrintable key);
     remote := remote w;
     log := log w |}.

(** [getAiClient()] *)
Definition getAiClient : Async GoogleGenAI :=
  key <- readRuntimeApiKey ;;
  if isEmpty key then
    throw (newError (lit "API Key وارد نشده است. لطفا وارد شوید."))
  else
    let cleanKey := trim (removeNonPrintable key) in
    ret {| apiKey := cleanKey |}.

(** The classification [isQuotaError] computed in the [catch] block of
    [executeWithRetry]. *)
Definition isQuotaError (error : JsError) : bool :=
  let msg := orElse (message error) [] in
  includes msg (lit "429")
  || includes msg (lit "RESOURCE_EXHAUSTED")
  || includes msg (lit "Quota exceeded")
  || match status error with
     | Some s => (s =? 429)%Z
     | None => false
     end.

Definition defaultRetries : nat := 3.
Definition defaultBaseDelay : Z := 2000.

(** [executeWithRetry(fn, retries, baseDelay)] *)
Fixpoint executeWithRetry {T} (fn : Async T) (retries : nat) (baseDelay : Z)
  : Async T :=
  tryCatch fn (fun error =>
    match retries with
    | S retries' =>
      if isQuotaError error then
        console_warn (lit "Quota limit hit. Retrying in "
          ++ ofZ baseDelay
          ++ lit "ms... ("
          ++ ofZ (Z.of_nat retries)
          ++ lit " attempts left)") ;;
        timeout baseDelay ;;
        executeWithRetry fn retries' (baseDelay * 2)
      else throw error
    | O => throw error
    end).

(** ** The service module: text stages *)

(** [translateToEnglish(text)] *)
Definition translateToEnglish (text : jsstring) : Async jsstring :=
  ai <- getAiClient ;;
  executeWithRetry
    (response <- ai_generateContent ai
       {| model := lit "gemini-2.5-flash";
          contents := ContentObject {| parts := Some [textPart
            (lit "Translate the following text to English for a video generation prompt. Keep it concise and visual.

Text: "
            ++ text)] |};
          config := None |} ;;
     ret (orElseOpt (response_text response) text))
    defaultRetries defaultBaseDelay.

(** The result of the page analysis.  Its fields are declared as strings;
    at run time they hold whatever the parsed response holds. *)
Record PageAnalysis : Type := mkPageAnalysis {
  analysis : JsValue;
  text : JsValue;
  description : JsValue
}.

(** The object returned by the [catch] block of [analyzeSinglePage]. *)
Definition analysisFallback : PageAnalysis :=
  {| analysis := JString (lit "خطا در پردازش");
     text := JString [];
     description := JString [] |}.

(** The [try]/[catch] block of [analyzeSinglePage]: [JSON.parse] or a
    property access on its result may throw, and then the block returns
    the fallback object. *)
Definition parseAnalysis (response : GenerateContentResponse) : PageAnalysis :=
  match JSON_parse (orElseOpt (response_text response) (lit "{}")) with
  | Some json =>
    match getProperty json (lit "analysis"),
          getProperty json (lit "text"),
          getProperty json (lit "description") with
    | Some a, Some t, Some d =>
      {| analysis := jsOr a (JString []);
         text := jsOr t (JString []);
         description := jsOr d (JString []) |}
    | _, _, _ => analysisFallback
    end
  | None => analysisFallback
  end.

Definition analysisSchema : Schema :=
  SchemaObject [(lit "analysis", SchemaString);
                (lit "text", SchemaString);
                (lit "description", SchemaString)].

Definition analyzeSinglePage_prompt : jsstring :=
  lit "
    تصویر این صفحه کتاب درسی را با دقت بسیار بالا تحلیل کن.
    
    خروجی‌ها باید دقیقاً به زبان فارسی باشند:
    1. **تحلیل آموزشی:** هدف آموزشی این صفحه چیست؟ نکات کلیدی را لیست کن.
    2. **متن:** تمام متن‌های موجود در تصویر را کلمه به کلمه استخراج کن. دقت در اعداد و تیترها حیاتی است.
    3. **شرح تصویر:** با جزئیات کامل بصری تصویر را توصیف کن (رنگ‌ها، اشیاء، شخصیت‌ها، محیط). فرض کن مخاطب تصویر را نمی‌بیند.
    
    فرمت خروجی JSON:
    {
      "
  ++ dquote
  ++ lit "analysis"
  ++ dquote
  ++ lit ": "
  ++ dquote
  ++ lit "..."
  ++ dquote
  ++ lit ",
      "
  ++ dquote
  ++ lit "text"
  ++ dquote
  ++ lit ": "
  ++ dquote
  ++ lit "..."
  ++ dquote
  ++ lit ",
      "
  ++ dquote
  ++ lit "description"
  ++ dquote
  ++ lit ": "
  ++ dquote
  ++ lit "..."
  ++ dquote
  ++ lit "
    }
  ".

Definition analyzeSinglePage_request (imageBase64 : jsstring)
  : GenerateContentParameters :=
  {| model := lit "gemini-2.5-flash";
     contents := ContentObject {| parts := Some
       [inlinePart (lit "image/jpeg") imageBase64;
        textPart analyzeSinglePage_prompt] |};
     config := Some
       {| temperature := None;
          responseMimeType := Some (lit "application/json");
          responseSchema := Some analysisSchema;
          responseModalities := None;
          speechConfig := None;
          imageAspectRatio := None |} |}.

(** [analyzeSinglePage(imageBase64)] *)
Definition analyzeSinglePage (imageBase64 : jsstring) : Async PageAnalysis :=
  ai <- getAiClient ;;
  executeWithRetry
    (response <- ai_generateContent ai (analyzeSinglePage_request imageBase64) ;;
     ret (parseAnalysis response))
    defaultRetries defaultBaseDelay.

Record CoursePage : Type := mkCoursePage {
  pageNumber : Z;
  imageBase64 : jsstring
}.

Definition analyzeCourseMap_parts (context : jsstring) (pages : list CoursePage)
  : list Part :=
  textPart
    (lit "
    نقش: شما یک برنامه‌ریز آموزشی ارشد هستید.
    وظیفه: تحلیل تصاویر یک فصل از کتاب درسی و ارائه "
    ++ dquote
    ++ lit "نقشه راه تدریس"
    ++ dquote
    ++ lit ".
    
    زمینه معلم: "
    ++ dquote
    ++ context
    ++ dquote
    ++ lit "
    تعداد صفحات: "
    ++ ofZ (Z.of_nat (List.length pages))
    ++ lit "
    
    دستورالعمل:
    1. تمام تصاویر زیر را به ترتیب بررسی کنید.
    2. ارتباط معنایی بین صفحات را پیدا کنید.
    3. برای **هر صفحه** یک استراتژی مشخص کنید.
    
    خروجی باید دقیقاً به زبان **فارسی** و با فرمت زیر باشد:
    
    --- استراتژی فصل ---
    (یک پاراگراف توضیح کلی)
    
    --- تحلیل صفحه به صفحه ---
    صفحه 1: [عنوان] - [نقش صفحه] - [پیشنهاد رسانه‌ای]
    ...
    ")
  :: flat_map (fun page =>
       [textPart (lit "
--- تصویر صفحه "
                 ++ ofZ (pageNumber page)
                 ++ lit " ---");
        inlinePart (lit "image/jpeg") (imageBase64 page)]) pages.

Definition withTemperature (t : Q) : GenerationConfig :=
  {| temperature := Some t; responseMimeType := None; responseSchema := None;
     responseModalities := None; speechConfig := None;
     imageAspectRatio := None |}.

(** [analyzeCourseMap(context, pages)] *)
Definition analyzeCourseMap (context : jsstring) (pages : list CoursePage)
  : Async jsstring :=
  ai <- getAiClient ;;
  let contentParts := analyzeCourseMap_parts context pages in
  executeWithRetry
    (response <- ai_generateContent ai
       {| model := lit "gemini-2.5-flash";
          contents := ContentObject {| parts := Some contentParts |};
          config := Some (withTemperature (2 # 10)%Q) |} ;;
     ret (orElseOpt (response_text response) (lit "تحلیل انجام نشد.")))
    defaultRetries defaultBaseDelay.

(** ** The service module: stages downstream of the page analysis *)

Definition generateTeacherScript_prompt
  (globalContext pageAnalysis verifiedText verifiedDescription : jsstring)
  : jsstring :=
  lit "
    زمینه کلی درس: "
  ++ globalContext
  ++ lit "
    تحلیل این صفحه: "
  ++ pageAnalysis
  ++ lit "
    
    *** اطلاعات حیاتی و تایید شده توسط اپراتور (منبع حقیقت): ***
    - متن دقیق صفحه: "
  ++ dquote
  ++ verifiedText
  ++ dquote
  ++ lit "
    - توصیف دقیق تصویر: "
  ++ dquote
  ++ verifiedDescription
  ++ dquote
  ++ lit "
    
    هشدار: فقط و فقط بر اساس "
  ++ dquote
  ++ lit "اطلاعات حیاتی"
  ++ dquote
  ++ lit " بالا تدریس کن. اگر چیزی در متن تایید شده نیست، آن را از خودت نساز.
    اگر شماره صفحه یا تیتری در متن تایید شده آمده، همان درست است.
    
    وظیفه: شما یک معلم دبستان هستید. یک متن تدریس جذاب بنویسید.
    
    قوانین:
    1. لحن: پرانرژی و صمیمی.
    2. اعراب‌گذاری: کلمات را برای تبدیل متن به صدا کاملاً اعراب‌گذاری کن.
    3. بر اساس متن و تصویر تایید شده درس بده.
    
    خروجی: فقط متن فارسی تدریس.
  ".

(** An image part followed by a text part, the shape of most requests. *)
Definition imageAndPrompt (imageBase64 prompt : jsstring) : Contents :=
  ContentObject {| parts := Some
    [inlinePart (lit "image/jpeg") imageBase64; textPart prompt] |}.

Definition generateTeacherScript_request
  (imageBase64 globalContext pageAnalysis verifiedText verifiedDescription : jsstring)
  : GenerateContentParameters :=
  {| model := lit "gemini-2.5-flash";
     contents := imageAndPrompt imageBase64
       (generateTeacherScript_prompt globalContext pageAnalysis
          verifiedText verifiedDescription);
     config := None |}.

(** [generateTeacherScript(imageBase64, globalContext, pageAnalysis,
    verifiedText, verifiedDescription)] *)
Definition generateTeacherScript
  (imageBase64 globalContext pageAnalysis verifiedText verifiedDescription : jsstring)
  : Async jsstring :=
  ai <- getAiClient ;;
  executeWithRetry
    (response <- ai_generateContent ai
       (generateTeacherScript_request imageBase64 globalContext pageAnalysis
          verifiedText verifiedDescription) ;;
     ret (orElseOpt (response_text response) (lit "خطا در تولید متن معلم.")))
    defaultRetries defaultBaseDelay.

Definition generateStoryboardPrompt_prompt (verifiedDescription : jsstring)
  : jsstring :=
  lit "
    منبع حقیقت (توصیف تصویر تایید شده): "
  ++ dquote
  ++ verifiedDescription
  ++ dquote
  ++ lit "
    
    نقش: کارگردان هنری.
    وظیفه: نوشتن پرامپت استوری‌بورد برای یک تصویرسازی آموزشی بر اساس توصیف بالا.
    
    قوانین:
    1. از توصیف تایید شده استفاده کن تا مطمئن شوی موضوع درست است.
    2. برای جذابیت بصری، استعاره یا سبک وکتور آرت پیشنهاد بده.
    3. خروجی فارسی باشد.
    4. تاکید کن که تصویر بدون متن (Text-Free) باشد.
  ".

Definition generateStoryboardPrompt_request
  (imageBase64 verifiedDescription : jsstring) : GenerateContentParameters :=
  {| model := lit "gemini-2.5-flash";
     contents := imageAndPrompt imageBase64
       (generateStoryboardPrompt_prompt verifiedDescription);
     config := Some (withTemperature (7 # 10)%Q) |}.

(** [generateStoryboardPrompt(imageBase64, verifiedDescription)] *)
Definition generateStoryboardPrompt (imageBase64 verifiedDescription : jsstring)
  : Async jsstring :=
  ai <- getAiClient ;;
  executeWithRetry
    (response <- ai_generateContent ai
       (generateStoryboardPrompt_request imageBase64 verifiedDescription) ;;
     ret (orElseOpt (response_text response) (lit "خطا در تولید پرامپت.")))
    defaultRetries defaultBaseDelay.

Definition generateVideoPrompt_prompt (verifiedDescription : jsstring)
  : jsstring :=
  lit "
    منبع حقیقت (توصیف تایید شده): "
  ++ dquote
  ++ verifiedDescription
  ++ dquote
  ++ lit "
    
    نقش: کارگردان انیمیشن.
    وظیفه: نوشتن پرامپت ویدیو بر اساس توصیف بالا.
    
    مفهوم اصلی را از توصیف بالا بگیر و آن را متحرک کن.
    خروجی: متن توصیف صحنه به فارسی.
  ".

Definition generateVideoPrompt_request
  (imageBase64 verifiedDescription : jsstring) : GenerateContentParameters :=
  {| model := lit "gemini-2.5-flash";
     contents := imageAndPrompt imageBase64
       (generateVideoPrompt_prompt verifiedDescription);
     config := None |}.

(** [generateVideoPrompt(imageBase64, verifiedDescription)] *)
Definition generateVideoPrompt (imageBase64 verifiedDescription : jsstring)
  : Async jsstring :=
  ai <- getAiClient ;;
  executeWithRetry
    (response <- ai_generateContent ai
       (generateVideoPrompt_request imageBase64 verifiedDescription) ;;
     ret (orElseOpt (response_text response) ([])))
    defaultRetries defaultBaseDelay.

Definition generateDialogue_prompt (teacherScript verifiedText : jsstring)
  : jsstring :=
  lit "
    اطلاعات تایید شده صفحه: "
  ++ dquote
  ++ verifiedText
  ++ dquote
  ++ lit "
    متن تدریس معلم: "
  ++ dquote
  ++ teacherScript
  ++ dquote
  ++ lit "
    
    وظیفه: نوشتن گفتگوی دو دانش‌آموز (علی و رضا) درباره موضوع درس.
    از اطلاعات تایید شده استفاده کن تا بحث آن‌ها دقیق باشد.
    
    فرمت:
    علی: ...
    رضا: ...
  ".

Definition generateDialogue_request
  (imageBase64 teacherScript verifiedText : jsstring)
  : GenerateContentParameters :=
  {| model := lit "gemini-2.5-flash";
     contents := imageAndPrompt imageBase64
       (generateDialogue_prompt teacherScript verifiedText);
     config := Some (withTemperature (7 # 10)%Q) |}.

(** [generateDialogue(imageBase64, teacherScript, verifiedText)] *)
Definition generateDialogue (imageBase64 teacherScript verifiedText : jsstring)
  : Async jsstring :=
  ai <- getAiClient ;;
  executeWithRetry
    (response <- ai_generateContent ai
       (generateDialogue_request imageBase64 teacherScript verifiedText) ;;
     ret (orElseOpt (response_text response) ([])))
    defaultRetries defaultBaseDelay.

(** ** The service module: storyboard image *)

(** [a?.b]: the access yields [undefined] when [a] is. *)
Definition chain {A B} (a : option A) (f : A -> option B) : option B :=
  match a with
  | Some x => f x
  | None => None
  end.

(** [response.candidates?.[0]?.content?.parts] *)
Definition firstCandidateParts (response : GenerateContentResponse)
  : option (list Part) :=
  chain (chain (chain (candidates response) (@hd_error Candidate)) content) parts.

(** The loop of [generateStoryboardImage] over the parts: the first part
    that has inline data sets [imageUrl] and ends the loop. *)
Fixpoint scanForImage (ps : list Part) (imageUrl : jsstring) : jsstring :=
  match ps with
  | [] => imageUrl
  | part :: rest =>
    match inlineData part with
    | Some d => lit "data:image/png;base64,"
           ++ ofOpt (data d)
    | None => scanForImage rest imageUrl
    end
  end.

Definition generateStoryboardImage_request (finalPrompt : jsstring)
  : GenerateContentParameters :=
  {| model := lit "gemini-2.5-flash-image";
     contents := ContentObject {| parts := Some [textPart finalPrompt] |};
     config := Some
       {| temperature := None; responseMimeType := None;
          responseSchema := None; responseModalities := None;
          speechConfig := None;
          imageAspectRatio := Some (lit "1:1") |} |}.

(** [finalPrompt] of [generateStoryboardImage]. *)
Definition generateStoryboardImage_finalPrompt (promptText : jsstring) : jsstring :=
  promptText ++ lit " . (Create a clean educational vector illustration. Important: NO TEXT, NO LETTERS, NO NUMBERS inside the image. Visuals only.)".

(** The error that the inner [catch] block of [generateStoryboardImage]
    throws in place of the one it caught. *)
Definition generateStoryboardImage_rethrown (error : JsError) : JsError :=
  newError (orElse (message error) (lit "خطا در سرویس تصویر")).

(** [generateStoryboardImage(promptText)] *)
Definition generateStoryboardImage (promptText : jsstring) : Async jsstring :=
  ai <- getAiClient ;;
  let finalPrompt := generateStoryboardImage_finalPrompt promptText in
  executeWithRetry
    (tryCatch
       (response <- ai_generateContent ai
          (generateStoryboardImage_request finalPrompt) ;;
        let imageUrl :=
          scanForImage
            (match firstCandidateParts response with
             | Some ps => ps
             | None => []
             end) [] in
        if isEmpty imageUrl then throw (newError (lit "تصویر تولید نشد."))
        else ret imageUrl)
       (fun error => throw (generateStoryboardImage_rethrown error)))
    defaultRetries defaultBaseDelay.

(** ** The service module: video job *)

Definition isDone (operation : Operation) : bool :=
  match done operation with
  | Some true => true
  | _ => false
  end.

(** The loop [while (!operation.done) { wait; operation = refetch }].  The
    source puts no bound on it; [fuel] bounds the iterations the model
    follows, and the promise is [Pending] when they do not suffice. *)
Fixpoint pollUntilDone (fuel : nat) (ai : GoogleGenAI) (operation : Operation)
  : Async Operation :=
  if isDone operation then ret operation
  else
    match fuel with
    | O => fun w => (Pending, w)
    | S fuel' =>
      timeout 5000 ;;
      operation' <- ai_getVideosOperation ai operation ;;
      pollUntilDone fuel' ai operation'
    end.

(** [operation.response?.generatedVideos?.[0]?.video?.uri] *)
Definition videoUriOf (operation : Operation) : option jsstring :=
  chain (chain (chain (chain (response operation) generatedVideos)
                  (@hd_error GeneratedVideo)) video) uri.

Definition generateVideo_request (englishPrompt imageBase64 : jsstring)
  (resolution : Resolution) : GenerateVideosParameters :=
  {| video_model := lit "veo-3.1-fast-generate-preview";
     video_prompt := englishPrompt;
     imageBytes := imageBase64;
     image_mimeType := lit "image/jpeg";
     numberOfVideos := 1;
     resolution := resolution;
     aspectRatio := lit "16:9" |}.

(** The function that [generateVideo] hands to the retry executor. *)
Definition generateVideo_job (fuel : nat) (ai : GoogleGenAI)
  (englishPrompt imageBase64 : jsstring) (resolution : Resolution)
  : Async Blob :=
  operation <- ai_generateVideos ai
    (generateVideo_request englishPrompt imageBase64 resolution) ;;
  operation <- pollUntilDone fuel ai operation ;;
  match videoUriOf operation with
  | Some ((_ :: _) as videoUri) =>
    key <- readRuntimeApiKey ;;
    response <- fetch (videoUri
               ++ lit "&key="
               ++ key) ;;
    blob response
  | _ => throw (newError (lit "تولید ویدیو ناموفق بود."))
  end.

(** [generateVideo(userPrompt, imageBase64, resolution)] *)
Definition generateVideo (fuel : nat) (userPrompt imageBase64 : jsstring)
  (resolution : Resolution) : Async Blob :=
  ai <- getAiClient ;;
  englishPrompt <- translateToEnglish userPrompt ;;
  executeWithRetry
    (generateVideo_job fuel ai englishPrompt imageBase64 resolution)
    1 defaultBaseDelay.

(** ** The service module: speech *)

(** Modelled from the spec: [pcmToWav] belongs to utils/audioUtils, which
    is not among the sources at hand.  It wraps raw PCM samples in a
    standard uncompressed audio container with the given sample rate and
    number of channels. *)
Definition pcmToWav (pcmData : list N) (rate channels : Z) : Blob :=
  WavBlob {| sampleRate := rate; numChannels := channels; pcm := pcmData |}.

(** [response.candidates?.[0]?.content?.parts?.[0]?.inlineData?.data] *)
Definition firstInlineData (response : GenerateContentResponse)
  : option jsstring :=
  chain (chain (chain (firstCandidateParts response) (@hd_error Part))
           inlineData) data.

Definition audioModality : jsstring := lit "AUDIO".

Definition twoSpeakers : list SpeakerVoiceConfig :=
  [ {| speaker := lit "علی";
       voiceConfig := {| prebuiltVoiceName := lit "Puck" |} |};
    {| speaker := lit "رضا";
       voiceConfig := {| prebuiltVoiceName := lit "Kore" |} |} ].

Definition speechRequest (prompt : jsstring) (voices : SpeechConfig)
  : GenerateContentParameters :=
  {| model := lit "gemini-2.5-flash-preview-tts";
     contents := ContentArray [ {| parts := Some [textPart prompt] |} ];
     config := Some
       {| temperature := None; responseMimeType := None;
          responseSchema := None;
          responseModalities := Some [audioModality];
          speechConfig := Some voices;
          imageAspectRatio := None |} |}.

(** The request of [generateSpeech]. *)
Definition generateSpeech_request (text voiceName : jsstring)
  : GenerateContentParameters :=
  speechRequest text (SingleVoice {| prebuiltVoiceName := voiceName |}).

(** The request of [generateMultiSpeakerAudio]; [prompt] is its text. *)
Definition generateMultiSpeakerAudio_request (script : jsstring)
  : GenerateContentParameters :=
  let prompt := lit "TTS the following conversation:
"
    ++ script in
  speechRequest prompt (MultiSpeakerVoice twoSpeakers).

Section Speech.

(** [decodeBase64] belongs to utils/audioUtils, which is not among the
    sources at hand: the bytes that a base64 text stands for, or the
    error thrown for it. *)
Variable decodeBase64 : jsstring -> JsError + list N.

Definition decoded (base64 : jsstring) : Async (list N) :=
  match decodeBase64 base64 with
  | inr pcmData => ret pcmData
  | inl e => throw e
  end.

(** [generateSpeech(text, voiceName, speed)]; [speed] is not used. *)
Definition generateSpeech (text voiceName : jsstring) (speed : Q)
  : Async Blob :=
  ai <- getAiClient ;;
  executeWithRetry
    (response <- ai_generateContent ai
       (generateSpeech_request text voiceName) ;;
     match firstInlineData response with
     | Some ((_ :: _) as base64Audio) =>
       pcmData <- decoded base64Audio ;;
       ret (pcmToWav pcmData 24000 1)
     | _ => throw (newError (lit "داده صوتی دریافت نشد"))
     end)
    defaultRetries defaultBaseDelay.

(** [generateMultiSpeakerAudio(script)] *)
Definition generateMultiSpeakerAudio (script : jsstring) : Async Blob :=
  ai <- getAiClient ;;
  executeWithRetry
    (response <- ai_generateContent ai
       (generateMultiSpeakerAudio_request script) ;;
     match firstInlineData response with
     | Some ((_ :: _) as base64Audio) =>
       pcmData <- decoded base64Audio ;;
       ret (pcmToWav pcmData 24000 1)
     | _ => throw (newError (lit "صدا تولید نشد"))
     end)
    defaultRetries defaultBaseDelay.

End Speech.

(** ** Vocabulary of the properties *)

(** [t] occurs in [s] as a contiguous run of characters. *)
Definition substringOf (t s : jsstring) : Prop :=
  exists before after, s = before ++ t ++ after.

Definition contentParts (c : Content) : list Part :=
  match parts c with
  | Some ps => ps
  | None => []
  end.

Definition requestParts (params : GenerateContentParameters) : list Part :=
  match contents params with
  | ContentObject c => contentParts c
  | ContentArray cs => flat_map contentParts cs
  end.

(** The texts a request carries in its text parts. *)
Definition requestTexts (params : GenerateContentParameters) : list jsstring :=
  flat_map (fun p => match part_text p with Some t => [t] | None => [] end)
    (requestParts params).

Definition optionToList {A} (o : option A) : list A :=
  match o with
  | Some x => [x]
  | None => []
  end.

(** Every string a request carries in its parts: texts, inline payloads
    and their MIME types. *)
Definition requestStrings (params : GenerateContentParameters) : list jsstring :=
  flat_map (fun p =>
    optionToList (part_text p)
    ++ match inlineData p with
       | Some d => optionToList (mimeType d) ++ optionToList (data d)
       | None => []
       end) (requestParts params).

(** The request quotes [s] in one of its text parts. *)
Definition quotes (params : GenerateContentParameters) (s : jsstring) : Prop :=
  Exists (substringOf s) (requestTexts params).

(** [s] occurs in some string of the request. *)
Definition mentions (params : GenerateContentParameters) (s : jsstring) : bool :=
  existsb (fun t => includes t s) (requestStrings params).

(** The error kinds of the module, as the error values that stand for
    them. *)
Definition MissingCredential : JsError :=
  newError (lit "API Key وارد نشده است. لطفا وارد شوید.").

Definition MissingImagePayload : JsError :=
  newError (lit "تصویر تولید نشد.").

Definition MissingAudioPayload : JsError :=
  newError (lit "صدا تولید نشد").

Definition VideoFailed : JsError :=
  newError (lit "تولید ویدیو ناموفق بود.").

(** The world that a computation leaves behind. *)
Definition worldAfter {A} (m : Async A) (w : World) : World := snd (m w).

(** [w'] comes after [w]: same credential, same collaborators, and a log
    that grew by events that all satisfy [Q]. *)
Definition grows (Q : Event -> Prop) (w w' : World) : Prop :=
  runtimeApiKey w' = runtimeApiKey w
  /\ remote w' = remote w
  /\ exists evs, log w' = log w ++ evs /\ Forall Q evs.

(** A computation that only ever adds events satisfying [Q]. *)
Definition confined {A} (Q : Event -> Prop) (m : Async A) : Prop :=
  forall w, grows Q w (worldAfter m w).

Definition isRemoteCall (ev : Event) : bool :=
  match ev with
  | EvGenerateContent _ _ | EvGenerateVideos _ _
  | EvGetVideosOperation _ _ | EvFetch _ => true
  | EvTimeout _ | EvConsoleWarn _ => false
  end.

Definition isFetch (ev : Event) : bool :=
  match ev with
  | EvFetch _ => true
  | _ => false
  end.

Definition isStatusFetch (ev : Event) : bool :=
  match ev with
  | EvGetVideosOperation _ _ => true
  | _ => false
  end.

(** The job handle [op] in world [w] is found done, as [op'] in world
    [w'], after [n] rounds of waiting 5000 and fetching the status again. *)
Inductive polls (ai : GoogleGenAI)
  : nat -> Operation -> World -> Operation -> World -> Prop :=
| polls_done : forall op w,
    isDone op = true ->
    polls ai 0 op w op w
| polls_pending : forall n op w op1 w1 op' w',
    isDone op = false ->
    ai_getVideosOperation ai op (record (EvTimeout 5000) w) = (Resolved op1, w1) ->
    polls ai n op1 w1 op' w' ->
    polls ai (S n) op w op' w'.

(** The stages of the module and their arguments. *)
Inductive StageCall : Type :=
| CallTranslateToEnglish (text : jsstring)
| CallAnalyzeSinglePage (imageBase64 : jsstring)
| CallAnalyzeCourseMap (context : jsstring) (pages : list CoursePage)
| CallGenerateTeacherScript
    (imageBase64 globalContext pageAnalysis verifiedText verifiedDescription : jsstring)
| CallGenerateSpeech (text voiceName : jsstring) (speed : Q)
| CallGenerateStoryboardPrompt (imageBase64 verifiedDescription : jsstring)
| CallGenerateStoryboardImage (promptText : jsstring)
| CallGenerateVideoPrompt (imageBase64 verifiedDescription : jsstring)
| CallGenerateVideo (fuel : nat) (userPrompt imageBase64 : jsstring)
    (resolution : Resolution)
| CallGenerateDialogue (imageBase64 teacherScript verifiedText : jsstring)
| CallGenerateMultiSpeakerAudio (script : jsstring).

Inductive StageResult : Type :=
| TextResult (s : jsstring)
| AnalysisResult (a : PageAnalysis)
| BlobResult (b : Blob).

Definition mapAsync {A B} (f : A -> B) (m : Async A) : Async B :=
  x <- m ;; ret (f x).

(** Invoking a stage. *)
Definition invoke (decodeBase64 : jsstring -> JsError + list N) (c : StageCall)
  : Async StageResult :=
  match c with
  | CallTranslateToEnglish t => mapAsync TextResult (translateToEnglish t)
  | CallAnalyzeSinglePage i => mapAsync AnalysisResult (analyzeSinglePage i)
  | CallAnalyzeCourseMap c ps => mapAsync TextResult (analyzeCourseMap c ps)
  | CallGenerateTeacherScript i g a t d =>
    mapAsync TextResult (generateTeacherScript i g a t d)
  | CallGenerateSpeech t v s =>
    mapAsync BlobResult (generateSpeech decodeBase64 t v s)
  | CallGenerateStoryboardPrompt i d =>
    mapAsync TextResult (generateStoryboardPrompt i d)
  | CallGenerateStoryboardImage p => mapAsync TextResult (generateStoryboardImage p)
  | CallGenerateVideoPrompt i d => mapAsync TextResult (generateVideoPrompt i d)
  | CallGenerateVideo fuel p i r => mapAsync BlobResult (generateVideo fuel p i r)
  | CallGenerateDialogue i s t => mapAsync TextResult (generateDialogue i s t)
  | CallGenerateMultiSpeakerAudio s =>
    mapAsync BlobResult (generateMultiSpeakerAudio decodeBase64 s)
  end.

(** [r] is [s] without its leading and trailing whitespace. *)
Definition trimmedOf (s r : jsstring) : Prop :=
  exists leading trailing,
    s = leading ++ r ++ trailing
    /\ Forall (fun c => isWhiteSpace c = true) leading
    /\ Forall (fun c => isWhiteSpace c = true) trailing
    /\ (forall c rest, r = c :: rest -> isWhiteSpace c = false)
    /\ (forall c front, r = front ++ [c] -> isWhiteSpace c = false).

(** A parsed response conforms to the schema of the page analysis: an
    object whose three fields are strings. *)
Definition isJString (v : JsValue) : bool :=
  match v with
  | JString _ => true
  | _ => false
  end.

Definition conformsToSchema (v : JsValue) : bool :=
  match v with
  | JObject members =>
    isJString (lookupMember members (lit "analysis"))
    && isJString (lookupMember members (lit "text"))
    && isJString (lookupMember members (lit "description"))
  | _ => false
  end.

(** The warning printed before a retry, and the world after the warning
    and the wait that follows it. *)
Definition quotaWarning (baseDelay : Z) (retries : nat) : jsstring :=
  lit "Quota limit hit. Retrying in "
  ++ ofZ baseDelay
  ++ lit "ms... ("
  ++ ofZ (Z.of_nat retries)
  ++ lit " attempts left)".

Definition pause (baseDelay : Z) (retries : nat) (w : World) : World :=
  record (EvTimeout baseDelay)
    (record (EvConsoleWarn (quotaWarning baseDelay retries)) w).

Definition timeoutsOf (evs : list Event) : list Z :=
  flat_map (fun ev => match ev with EvTimeout ms => [ms] | _ => [] end) evs.

(** [w] has the credential and the collaborators of [w0]; only its log
    may differ. *)
Definition sameSetup (w0 w : World) : Prop :=
  runtimeApiKey w = runtimeApiKey w0 /\ remote w = remote w0.

(** ** Sample collaborators and worlds *)

(** A remote service that rejects every call with [e]. *)
Definition rejecting (e : JsError) : Remote :=
  {| onGenerateContent := fun _ _ _ => Rejected e;
     onGenerateVideos := fun _ _ _ => Rejected e;
     onGetVideosOperation := fun _ _ _ => Rejected e;
     onFetch := fun _ _ => Rejected e |}.

(** A remote service that answers every content request with [r] and
    rejects the other calls with [e]. *)
Definition answering (r : GenerateContentResponse) (e : JsError) : Remote :=
  {| onGenerateContent := fun _ _ _ => Resolved r;
     onGenerateVideos := fun _ _ _ => Rejected e;
     onGetVideosOperation := fun _ _ _ => Rejected e;
     onFetch := fun _ _ => Rejected e |}.

Definition freshWorld (key : jsstring) (r : Remote) : World :=
  {| runtimeApiKey := key; remote := r; log := [] |}.

Definition tooManyRequests : JsError :=
  {| message := lit "Too Many Requests"; status := Some 429%Z |}.

Definition serverError : JsError :=
  {| message := lit "Internal error"; status := Some 500%Z |}.

Definition sampleKey : jsstring := lit "AIza-sample".

Definition sampleClient : GoogleGenAI := {| apiKey := sampleKey |}.

Definition textResponse (s : jsstring) : GenerateContentResponse :=
  {| response_text := Some s; candidates := None |}.

Definition partsResponse (ps : list Part) : GenerateContentResponse :=
  {| response_text := None;
     candidates := Some [ {| content := Some {| parts := Some ps |} |} ] |}.

(** An event is acceptable when, if it is a content request, the request
    satisfies [P]. *)
Definition requestsSatisfy (P : GenerateContentParameters -> Prop) (ev : Event)
  : Prop :=
  match ev with
  | EvGenerateContent _ params => P params
  | _ => True
  end.

(** The shape that the free-text stages share: the credential check, then
    the executor around one content request whose response is
    interpreted by [f]. *)
Definition textStage {A} (request : GenerateContentParameters)
  (f : GenerateContentResponse -> A) : Async A :=
  ai <- getAiClient ;;
  executeWithRetry
    (response <- ai_generateContent ai request ;; ret (f response))
    defaultRetries defaultBaseDelay.

(** With the credential of [w], the first thing [stage] does is to send
    [request]. *)
Definition sendsFirst {A} (stage : Async A) (w : World)
  (request : GenerateContentParameters) : Prop :=
  exists rest,
    log (worldAfter stage w)
    = log w
      ++ EvGenerateContent
           {| apiKey := trim (removeNonPrintable (runtimeApiKey w)) |} request
      :: rest.

(** The analysis whose three fields are empty strings. *)
Definition emptyAnalysis : PageAnalysis :=
  {| analysis := JString []; text := JString []; description := JString [] |}.

(** [response.candidates?.[0]?.content?.parts || []] *)
Definition partsOrNone (response : GenerateContentResponse) : list Part :=
  match firstCandidateParts response with
  | Some ps => ps
  | None => []
  end.

Definition hasNoInlineData (p : Part) : Prop := inlineData p = None.

(** [params.config?.speechConfig] *)
Definition speechConfigOf (params : GenerateContentParameters)
  : option SpeechConfig :=
  chain (config params) speechConfig.

(** The container that [pcmToWav(pcmData, 24000, 1)] stands for. *)
Definition monoContainer (pcmData : list N) : Blob :=
  WavBlob {| sampleRate := 24000; numChannels := 1; pcm := pcmData |}.

(** An event that is neither a fetch of the result nor a fetch of the job
    status. *)
Definition isNoVideoTraffic (ev : Event) : Prop :=
  isFetch ev = false /\ isStatusFetch ev = false.

(** A job that is not done, a job that is done with a result at [u], and a
    job that is done without a result. *)
Definition pendingJob : Operation :=
  {| operation_name := Some (lit "operations/video-1");
     done := Some false;
     response := None |}.

Definition finishedJob (u : jsstring) : Operation :=
  {| operation_name := Some (lit "operations/video-1");
     done := Some true;
     response :=
       Some {| generatedVideos := Some [ {| video := Some {| uri := Some u |} |} ] |} |}.

Definition emptyJob : Operation :=
  {| operation_name := Some (lit "operations/video-1");
     done := Some true;
     response := Some {| generatedVideos := Some [] |} |}.

Definition statusFetches (h : list Event) : nat :=
  List.length (filter isStatusFetch h).

(** A remote service whose job is pending when submitted, still pending at
    the status fetches before the [rounds]-th, and [final] from then on;
    it translates every prompt to the same text and serves [b] at every
    address. *)
Definition videoRemote (rounds : nat) (final : Operation) (b : Blob) : Remote :=
  {| onGenerateContent := fun _ _ _ => Resolved (textResponse (lit "a cat runs"));
     onGenerateVideos := fun _ _ _ => Resolved pendingJob;
     onGetVideosOperation := fun h _ _ =>
       if (S (statusFetches h) <? rounds)%nat then Resolved pendingJob
       else Resolved final;
     onFetch := fun _ _ => Resolved {| body := Resolved b |} |}.

Definition sampleVideo : Blob := RawBlob [0; 0; 0; 24]%N (lit "video/mp4").

Definition sampleLocator : jsstring := lit "https://video.example/v.mp4?alt=media".

(** A world whose job is done, with a result, at the second status fetch,
    and a world whose job is done, without a result, at the first. *)
Definition twoRoundsWorld : World :=
  freshWorld sampleKey (videoRemote 2 (finishedJob sampleLocator) sampleVideo).

Definition noResultWorld : World :=
  freshWorld sampleKey (videoRemote 1 emptyJob sampleVideo).

Definition submitted (w : World) : World :=
  record (EvGenerateVideos sampleClient
            (generateVideo_request (lit "a cat runs") [] Res720p))
    (worldAfter (translateToEnglish (lit "گربه می‌دود")) w).

Definition polled (op : Operation) (w : World) : World :=
  record (EvGetVideosOperation sampleClient op) (record (EvTimeout 5000) w).

(** ** Vocabulary of the further properties *)

(** [k] attempts in a row are rejected with a rate-limit error, the first
    one in world [w] with the budget [retries] and the delay [baseDelay];
    after each of them the executor warns and waits.  [w'] is the world in
    which the attempt after these [k] starts. *)
Inductive rateLimitedAttempts {T} (fn : Async T)
  : nat -> nat -> Z -> World -> World -> Prop :=
| rateLimited_none : forall retries baseDelay w,
    rateLimitedAttempts fn 0 retries baseDelay w w
| rateLimited_more : forall k retries baseDelay w e w1 w',
    fn w = (Rejected e, w1) ->
    isQuotaError e = true ->
    rateLimitedAttempts fn k retries (baseDelay * 2)
      (pause baseDelay (S retries) w1) w' ->
    rateLimitedAttempts fn (S k) (S retries) baseDelay w w'.

(** The attempt of [fn] in [w] is not rejected with a rate-limit error. *)
Definition notRateLimited {T} (fn : Async T) (w : World) : Prop :=
  forall e, fst (fn w) = Rejected e -> isQuotaError e = false.

(** The delays of [k] successive waits that start at [baseDelay]. *)
Fixpoint backoffDelays (baseDelay : Z) (k : nat) : list Z :=
  match k with
  | O => []
  | S k' => baseDelay :: backoffDelays (baseDelay * 2) k'
  end.

Definition totalDelay (delays : list Z) : Z := fold_right Z.add 0%Z delays.

Definition isTimeout (ev : Event) : bool :=
  match ev with
  | EvTimeout _ => true
  | _ => false
  end.

Definition isConsoleWarn (ev : Event) : bool :=
  match ev with
  | EvConsoleWarn _ => true
  | _ => false
  end.

Definition isContentRequest (ev : Event) : bool :=
  match ev with
  | EvGenerateContent _ _ => true
  | _ => false
  end.

Definition isVideoSubmission (ev : Event) : bool :=
  match ev with
  | EvGenerateVideos _ _ => true
  | _ => false
  end.

Definition countEvents (p : Event -> bool) (evs : list Event) : nat :=
  List.length (filter p evs).

(** Whatever the world, the computation adds events to the log, of which
    at most [c] satisfy [p]. *)
Definition addsAtMost {A} (p : Event -> bool) (c : nat) (m : Async A) : Prop :=
  forall w, exists evs,
    log (worldAfter m w) = log w ++ evs /\ (countEvents p evs <= c)%nat.

(** A remote service that rejects the first [failures] content requests
    with [e] and answers the later ones with [r]. *)
Definition flakyRemote (failures : nat) (e : JsError) (r : GenerateContentResponse)
  : Remote :=
  {| onGenerateContent := fun h _ _ =>
       if (countEvents isContentRequest h <? failures)%nat then Rejected e
       else Resolved r;
     onGenerateVideos := fun _ _ _ => Rejected e;
     onGetVideosOperation := fun _ _ _ => Rejected e;
     onFetch := fun _ _ => Rejected e |}.

Definition sampleRequest : GenerateContentParameters :=
  generateVideoPrompt_request [] [].

Definition sampleCall : Async GenerateContentResponse :=
  ai_generateContent sampleClient sampleRequest.

Definition called (w : World) : World :=
  record (EvGenerateContent sampleClient sampleRequest) w.

Definition isVideoCall (call : StageCall) : bool :=
  match call with
  | CallGenerateVideo _ _ _ _ => true
  | _ => false
  end.

(** A printable ASCII character other than the space: [0x21] to [0x7E]. *)
Definition isVisibleAscii (c : N) : bool := ((33 <=? c) && (c <=? 126))%N.

(** An event of the video job: a submission, a status fetch or the fetch
    of a result. *)
Definition isVideoTraffic (ev : Event) : bool :=
  isVideoSubmission ev || isStatusFetch ev || isFetch ev.

(** What a stage may add to the log: anything for the video stage, no
    video traffic for the others. *)
Definition allowedFor (call : StageCall) (ev : Event) : Prop :=
  isVideoCall call = false -> isVideoTraffic ev = false.

(** The error of [generateSpeech] for a response without audio. *)
Definition MissingSpeechPayload : JsError :=
  newError (lit "داده صوتی دریافت نشد").

(** One of the three texts that mark a rate limit occurs in the message. *)
Definition hasQuotaMarker (msg : jsstring) : bool :=
  includes msg (lit "429")
  || includes msg (lit "RESOURCE_EXHAUSTED")
  || includes msg (lit "Quota exceeded").

(** [n] rounds of waiting 5000 and fetching the status, each for a job
    handle that is not done; [op'] is the handle that the last fetch
    returned, in world [w'], or [op] itself in [w] when [n] is 0.  [ops]
    lists the handles whose status was fetched, in order. *)
Inductive pendingRounds (ai : GoogleGenAI)
  : list Operation -> Operation -> World -> Operation -> World -> Prop :=
| pendingRounds_none : forall op w,
    pendingRounds ai [] op w op w
| pendingRounds_more : forall ops op w op1 w1 op' w',
    isDone op = false ->
    ai_getVideosOperation ai op (record (EvTimeout 5000) w) = (Resolved op1, w1) ->
    pendingRounds ai ops op1 w1 op' w' ->
    pendingRounds ai (op :: ops) op w op' w'.

(** The events of the polling rounds for the handles [ops]. *)
Definition pollingEvents (ai : GoogleGenAI) (ops : list Operation) : list Event :=
  flat_map (fun op => [EvTimeout 5000; EvGetVideosOperation ai op]) ops.

(** A remote service for the video job whose first status fetch is
    rejected with [e] and whose later ones answer [final]. *)
Definition hiccupRemote (e : JsError) (final : Operation) (b : Blob) : Remote :=
  {| onGenerateContent := fun _ _ _ => Resolved (textResponse (lit "a cat runs"));
     onGenerateVideos := fun _ _ _ => Resolved pendingJob;
     onGetVideosOperation := fun h _ _ =>
       if (statusFetches h =? 0)%nat then Rejected e else Resolved final;
     onFetch := fun _ _ => Resolved {| body := Resolved b |} |}.

Definition hiccupWorld : World :=
  freshWorld sampleKey (hiccupRemote tooManyRequests (finishedJob sampleLocator)
                          sampleVideo).


(** A field of the page analysis as the stage returns it: a truthy value
    or the empty string. *)
Definition truthyOrEmpty (v : JsValue) : Prop :=
  toBoolean v = true \/ v = JString [].

(** ** The file system helpers (utils/fileSystem) and the directory they
    work on *)

(** A handle on a directory, a handle on a file of a directory, and a
    writable stream. *)
Record FileSystemDirectoryHandle : Type := mkDirectoryHandle {
  directory_name : jsstring
}.

Record FileSystemFileHandle : Type := mkFileHandle {
  handle_directory : jsstring;
  handle_name : jsstring
}.

Record FileSystemWritableFileStream : Type := mkWritableFileStream {
  stream_id : nat
}.

(** A file as [getFile()] returns it: its name and the blobs written to
    it, in order. *)
Record FileObject : Type := mkFileObject {
  file_name : jsstring;
  file_parts : list Blob
}.

Inductive FsEvent : Type :=
| FsGetFileHandle (dirHandle : FileSystemDirectoryHandle) (name : jsstring)
    (create : bool)
| FsCreateWritable (fileHandle : FileSystemFileHandle)
| FsWrite (writable : FileSystemWritableFileStream) (data : Blob)
| FsClose (writable : FileSystemWritableFileStream)
| FsGetFile (fileHandle : FileSystemFileHandle)
| FsCreateObjectURL (file : FileObject).

(** The storage behind the handles.  [entries] are the files, by
    directory and name; [streams] are the writable streams created so
    far, each with its target and what was written to it, [None] once it
    is closed; [objectUrls] are the object URLs created so far.  A call
    fails with the error that [faults] gives for it, if any (a permission
    that is denied, a quota that is exceeded); otherwise it does what the
    File System API says. *)
Record Disk : Type := mkDisk {
  entries : list (jsstring * jsstring * list Blob);
  streams : list (option (FileSystemFileHandle * list Blob));
  objectUrls : list (jsstring * FileObject);
  faults : list FsEvent -> FsEvent -> option JsError;
  fsLog : list FsEvent
}.

Definition FsAsync (A : Type) : Type := Disk -> Outcome A * Disk.

Definition fsRet {A} (a : A) : FsAsync A := fun d => (Resolved a, d).

Definition fsBind {A B} (m : FsAsync A) (k : A -> FsAsync B) : FsAsync B :=
  fun d =>
    match m d with
    | (Resolved a, d') => k a d'
    | (Rejected e, d') => (Rejected e, d')
    | (Pending, d') => (Pending, d')
    end.

Declare Scope fs_scope.
Delimit Scope fs_scope with fs.
Notation "x <- m ;; k" := (fsBind m (fun x => k))
  (at level 61, m at next level, right associativity) : fs_scope.
Notation "m ;; k" := (fsBind m (fun _ => k))
  (at level 61, right associativity) : fs_scope.

Fixpoint lookupEntry (es : list (jsstring * jsstring * list Blob))
  (dir name : jsstring) : option (list Blob) :=
  match es with
  | [] => None
  | (d, n, content) :: rest =>
    if JsString.eqb d dir && JsString.eqb n name then Some content
    else lookupEntry rest dir name
  end.

(** The entry of [name] in [dir] becomes [content]; it is added when
    there is none. *)
Fixpoint putEntry (es : list (jsstring * jsstring * list Blob))
  (dir name : jsstring) (content : list Blob)
  : list (jsstring * jsstring * list Blob) :=
  match es with
  | [] => [(dir, name, content)]
  | (d, n, c) :: rest =>
    if JsString.eqb d dir && JsString.eqb n name then (d, n, content) :: rest
    else (d, n, c) :: putEntry rest dir name content
  end.

Fixpoint setStream (ss : list (option (FileSystemFileHandle * list Blob)))
  (id : nat) (s : option (FileSystemFileHandle * list Blob))
  : list (option (FileSystemFileHandle * list Blob)) :=
  match ss, id with
  | [], _ => []
  | _ :: rest, O => s :: rest
  | x :: rest, S id' => x :: setStream rest id' s
  end.

Definition streamAt (ss : list (option (FileSystemFileHandle * list Blob)))
  (id : nat) : option (FileSystemFileHandle * list Blob) :=
  match nth_error ss id with
  | Some s => s
  | None => None
  end.

(** The error for a file that is not there, and the error for a stream
    that is closed. *)
Definition NotFoundError : JsError :=
  newError (lit "A requested file or directory could not be found at the time an operation was processed.").

Definition ClosedStreamError : JsError :=
  newError (lit "Cannot write to a closed writable stream").

(** A call of the File System API: it is logged, and it fails when a
    fault is set for it. *)
Definition fsCall {A} (ev : FsEvent) (run : FsAsync A) : FsAsync A :=
  fun d =>
    let d' := {| entries := entries d; streams := streams d;
                 objectUrls := objectUrls d; faults := faults d;
                 fsLog := fsLog d ++ [ev] |} in
    match faults d (fsLog d) ev with
    | Some e => (Rejected e, d')
    | None => run d'
    end.

Definition withEntries (es : list (jsstring * jsstring * list Blob)) (d : Disk)
  : Disk :=
  {| entries := es; streams := streams d; objectUrls := objectUrls d;
     faults := faults d; fsLog := fsLog d |}.

Definition withStreams (ss : list (option (FileSystemFileHandle * list Blob)))
  (d : Disk) : Disk :=
  {| entries := entries d; streams := ss; objectUrls := objectUrls d;
     faults := faults d; fsLog := fsLog d |}.

(** [dirHandle.getFileHandle(name, { create })]: the handle of the file;
    a missing file is created empty when [create] is set and is an error
    otherwise. *)
Definition getFileHandle (dirHandle : FileSystemDirectoryHandle)
  (name : jsstring) (create : bool) : FsAsync FileSystemFileHandle :=
  fsCall (FsGetFileHandle dirHandle name create) (fun d =>
    let fileHandle :=
      {| handle_directory := directory_name dirHandle; handle_name := name |} in
    match lookupEntry (entries d) (directory_name dirHandle) name with
    | Some _ => (Resolved fileHandle, d)
    | None =>
      if create then
        (Resolved fileHandle,
         withEntries (putEntry (entries d) (directory_name dirHandle) name []) d)
      else (Rejected NotFoundError, d)
    end).

(** [fileHandle.createWritable()]: a new stream that starts empty. *)
Definition createWritable (fileHandle : FileSystemFileHandle)
  : FsAsync FileSystemWritableFileStream :=
  fsCall (FsCreateWritable fileHandle) (fun d =>
    match lookupEntry (entries d) (handle_directory fileHandle)
            (handle_name fileHandle) with
    | Some _ =>
      (Resolved {| stream_id := List.length (streams d) |},
       withStreams (streams d ++ [Some (fileHandle, [])]) d)
    | None => (Rejected NotFoundError, d)
    end).

(** [writable.write(data)]: the data is added to what the stream holds. *)
Definition write (writable : FileSystemWritableFileStream) (data : Blob)
  : FsAsync unit :=
  fsCall (FsWrite writable data) (fun d =>
    match streamAt (streams d) (stream_id writable) with
    | Some (fileHandle, written) =>
      (Resolved tt,
       withStreams (setStream (streams d) (stream_id writable)
                      (Some (fileHandle, written ++ [data]))) d)
    | None => (Rejected ClosedStreamError, d)
    end).

(** [writable.close()]: what the stream holds becomes the content of its
    file, and the stream is closed. *)
Definition close (writable : FileSystemWritableFileStream) : FsAsync unit :=
  fsCall (FsClose writable) (fun d =>
    match streamAt (streams d) (stream_id writable) with
    | Some (fileHandle, written) =>
      (Resolved tt,
       withEntries
         (putEntry (entries d) (handle_directory fileHandle)
            (handle_name fileHandle) written)
         (withStreams (setStream (streams d) (stream_id writable) None) d))
    | None => (Rejected ClosedStreamError, d)
    end).

(** [fileHandle.getFile()] *)
Definition getFile (fileHandle : FileSystemFileHandle) : FsAsync FileObject :=
  fsCall (FsGetFile fileHandle) (fun d =>
    match lookupEntry (entries d) (handle_directory fileHandle)
            (handle_name fileHandle) with
    | Some content =>
      (Resolved {| file_name := handle_name fileHandle; file_parts := content |},
       d)
    | None => (Rejected NotFoundError, d)
    end).

(** [URL.createObjectURL(file)]: a new URL that stands for the file. *)
Definition createObjectURL (file : FileObject) : FsAsync jsstring :=
  fun d =>
    let url := lit "blob:" ++ ofZ (Z.of_nat (List.length (objectUrls d))) in
    (Resolved url,
     {| entries := entries d; streams := streams d;
        objectUrls := objectUrls d ++ [(url, file)]; faults := faults d;
        fsLog := fsLog d ++ [FsCreateObjectURL file] |}).

#[local] Open Scope fs_scope.

(** [saveFileToFolder(dirHandle, filename, blob)] *)
Definition saveFileToFolder (dirHandle : FileSystemDirectoryHandle)
  (filename : jsstring) (blob : Blob) : FsAsync unit :=
  fileHandle <- getFileHandle dirHandle filename true ;;
  writable <- createWritable fileHandle ;;
  write writable blob ;;
  close writable.

(** [getFileUrl(dirHandle, filename)] *)
Definition getFileUrl (dirHandle : FileSystemDirectoryHandle)
  (filename : jsstring) : FsAsync jsstring :=
  fileHandle <- getFileHandle dirHandle filename false ;;
  file <- getFile fileHandle ;;
  createObjectURL file.

(** [getFileFromHandle(dirHandle, filename)] *)
Definition getFileFromHandle (dirHandle : FileSystemDirectoryHandle)
  (filename : jsstring) : FsAsync FileObject :=
  fileHandle <- getFileHandle dirHandle filename false ;;
  getFile fileHandle.

(** [readFileFromFolder], another name of [getFileFromHandle]. *)
Definition readFileFromFolder := getFileFromHandle.

#[local] Close Scope fs_scope.

(** A directory without faults, and one whose writes fail. *)
Definition plainDisk (es : list (jsstring * jsstring * list Blob)) : Disk :=
  {| entries := es; streams := []; objectUrls := [];
     faults := fun _ _ => None; fsLog := [] |}.

Definition fullDisk (es : list (jsstring * jsstring * list Blob)) (e : JsError)
  : Disk :=
  {| entries := es; streams := []; objectUrls := [];
     faults := fun _ ev => match ev with FsWrite _ _ => Some e | _ => None end;
     fsLog := [] |}.

Definition courseFolder : FileSystemDirectoryHandle :=
  {| directory_name := lit "course-1" |}.

Definition quotaExceeded : JsError :=
  newError (lit "The quota has been exceeded.").

Definition samplePage : Blob := RawBlob [137; 80; 78; 71]%N (lit "image/png").

Definition earlierPage : Blob := RawBlob [66; 77]%N (lit "image/bmp").

(** A save into an empty directory whose writes fail. *)
Definition interruptedSave : Outcome unit * Disk :=
  saveFileToFolder courseFolder (lit "page-1.png") samplePage
    (fullDisk [] quotaExceeded).

(** * Properties *)

(** ** Strings *)

Lemma startsWith_iff (search s : jsstring) :
  startsWith s search = true <-> exists rest, s = search ++ rest.
Proof.
  revert s; induction search as [|c search IH]; intros [|d s]; simpl.
  - split; [intros _; now exists [] | reflexivity].
  - split; [intros _; now exists (d :: s) | reflexivity].
  - split; [discriminate | intros [rest H]; discriminate].
  - rewrite andb_true_iff, N.eqb_eq, IH. split.
    + intros [-> [rest ->]]. now exists rest.
    + intros [rest H]. injection H as -> ->. split; [reflexivity | now exists rest].
Qed.

Lemma includes_iff (s search : jsstring) :
  includes s search = true <-> substringOf search s.
Proof.
  unfold substringOf. induction s as [|d s IH].
  - cbn [includes]. rewrite orb_false_r, startsWith_iff. split.
    + intros [rest H]. now exists [], rest.
    + intros [[|b before] [after H]]; [now exists after | discriminate].
  - cbn [includes]. rewrite orb_true_iff, startsWith_iff, IH. split.
    + intros [[rest H] | [before [after H]]].
      * now exists [], rest.
      * exists (d :: before), after. now rewrite H.
    + intros [[|b before] [after H]].
      * left. now exists after.
      * right. injection H as _ H. now exists before, after.
Qed.

Lemma substringOf_middle (before t after : jsstring) :
  substringOf t (before ++ t ++ after).
Proof. now exists before, after. Qed.

Lemma substringOf_app_r (t a b : jsstring) :
  substringOf t b -> substringOf t (a ++ b).
Proof.
  intros [before [after ->]]. exists (a ++ before), after.
  now rewrite <- app_assoc.
Qed.

Lemma trimStart_split (s : jsstring) :
  exists leading,
    s = leading ++ trimStart s
    /\ Forall (fun c => isWhiteSpace c = true) leading.
Proof.
  induction s as [|c s [leading [Hs Hl]]]; simpl.
  - now exists [].
  - destruct (isWhiteSpace c) eqn:Hc.
    + exists (c :: leading). split; [now rewrite Hs at 1 | now constructor].
    + now exists [].
Qed.

Lemma trimStart_head (s : jsstring) (c : N) (rest : jsstring) :
  trimStart s = c :: rest -> isWhiteSpace c = false.
Proof.
  induction s as [|d s IH]; simpl; [discriminate|].
  destruct (isWhiteSpace d) eqn:Hd; [exact IH|].
  intros H. now injection H as <- _.
Qed.

(** [trim] removes exactly the leading and the trailing whitespace. *)
Lemma trim_trimmedOf (s : jsstring) : trimmedOf s (trim s).
Proof.
  unfold trim, trimEnd.
  destruct (trimStart_split s) as [leading [Hs Hl]].
  destruct (trimStart_split (rev (trimStart s))) as [gnilairt [Hr Ht]].
  exists leading, (rev gnilairt). repeat split.
  - rewrite Hs at 1. f_equal.
    rewrite <- rev_app_distr, <- Hr. now rewrite rev_involutive.
  - exact Hl.
  - apply Forall_rev. exact Ht.
  - intros c rest Hc.
    assert (Hin : exists front, trimStart s = c :: front).
    { apply (f_equal (@rev N)) in Hr. rewrite rev_involutive in Hr.
      rewrite rev_app_distr, Hc in Hr. simpl in Hr. eauto. }
    destruct Hin as [front Hfront]. eapply trimStart_head; eauto.
  - intros c front Hc.
    apply (f_equal (@rev N)) in Hc.
    rewrite rev_involutive, rev_app_distr in Hc. simpl in Hc.
    eapply trimStart_head; eauto.
Qed.

Lemma removeNonPrintable_nil (key : jsstring) :
  (forall c, In c key -> isPrintableAscii c = false) ->
  removeNonPrintable key = [].
Proof.
  unfold removeNonPrintable. induction key as [|c key IH]; intros H; simpl.
  - reflexivity.
  - rewrite (H c (or_introl eq_refl)). apply IH.
    intros d Hd. apply H. now right.
Qed.

(** ** How computations change the world *)

Lemma grows_refl (Q : Event -> Prop) (w : World) : grows Q w w.
Proof.
  repeat split. exists []. split; [now rewrite app_nil_r | constructor].
Qed.

Lemma grows_trans (Q : Event -> Prop) (w1 w2 w3 : World) :
  grows Q w1 w2 -> grows Q w2 w3 -> grows Q w1 w3.
Proof.
  intros (Hk1 & Hr1 & evs1 & Hl1 & HQ1) (Hk2 & Hr2 & evs2 & Hl2 & HQ2).
  repeat split; try congruence.
  exists (evs1 ++ evs2). split.
  - now rewrite Hl2, Hl1, app_assoc.
  - apply Forall_app. now split.
Qed.

Lemma grows_record (Q : Event -> Prop) (ev : Event) (w : World) :
  Q ev -> grows Q w (record ev w).
Proof.
  intros HQ. repeat split. exists [ev]. split; [reflexivity | now constructor].
Qed.

Lemma confined_ret {A} (Q : Event -> Prop) (a : A) : confined Q (ret a).
Proof. intros w. apply grows_refl. Qed.

Lemma confined_throw {A} (Q : Event -> Prop) (e : JsError) :
  confined Q (@throw A e).
Proof. intros w. apply grows_refl. Qed.

Lemma confined_bind {A B} (Q : Event -> Prop) (m : Async A) (k : A -> Async B) :
  confined Q m -> (forall a, confined Q (k a)) -> confined Q (bind m k).
Proof.
  intros Hm Hk w. specialize (Hm w). unfold worldAfter, bind in *.
  destruct (m w) as [[a | e |] w']; simpl in *; try exact Hm.
  eapply grows_trans; [exact Hm | apply Hk].
Qed.

Lemma confined_tryCatch {A} (Q : Event -> Prop) (m : Async A)
      (handler : JsError -> Async A) :
  confined Q m -> (forall e, confined Q (handler e)) ->
  confined Q (tryCatch m handler).
Proof.
  intros Hm Hh w. specialize (Hm w). unfold worldAfter, tryCatch in *.
  destruct (m w) as [[a | e |] w']; simpl in *; try exact Hm.
  eapply grows_trans; [exact Hm | apply Hh].
Qed.

Lemma confined_generateContent (Q : Event -> Prop) ai params :
  Q (EvGenerateContent ai params) -> confined Q (ai_generateContent ai params).
Proof. intros HQ w. now apply grows_record. Qed.

Lemma confined_generateVideos (Q : Event -> Prop) ai params :
  Q (EvGenerateVideos ai params) -> confined Q (ai_generateVideos ai params).
Proof. intros HQ w. now apply grows_record. Qed.

Lemma confined_getVideosOperation (Q : Event -> Prop) ai operation :
  Q (EvGetVideosOperation ai operation) ->
  confined Q (ai_getVideosOperation ai operation).
Proof. intros HQ w. now apply grows_record. Qed.

Lemma confined_fetch (Q : Event -> Prop) url :
  Q (EvFetch url) -> confined Q (fetch url).
Proof. intros HQ w. now apply grows_record. Qed.

Lemma confined_timeout (Q : Event -> Prop) ms :
  Q (EvTimeout ms) -> confined Q (timeout ms).
Proof. intros HQ w. now apply grows_record. Qed.

Lemma confined_console_warn (Q : Event -> Prop) msg :
  Q (EvConsoleWarn msg) -> confined Q (console_warn msg).
Proof. intros HQ w. now apply grows_record. Qed.

Lemma confined_readRuntimeApiKey (Q : Event -> Prop) :
  confined Q readRuntimeApiKey.
Proof. intros w. apply grows_refl. Qed.

Lemma confined_getAiClient (Q : Event -> Prop) : confined Q getAiClient.
Proof.
  apply confined_bind; [apply confined_readRuntimeApiKey|].
  intros key. destruct (isEmpty key); [apply confined_throw | apply confined_ret].
Qed.

Lemma confined_executeWithRetry {T} (Q : Event -> Prop) (fn : Async T)
      (retries : nat) (baseDelay : Z) :
  (forall ms, Q (EvTimeout ms)) ->
  (forall msg, Q (EvConsoleWarn msg)) ->
  confined Q fn ->
  confined Q (executeWithRetry fn retries baseDelay).
Proof.
  intros Ht Hw Hfn. revert baseDelay.
  induction retries as [|retries IH]; intros baseDelay; simpl;
    apply confined_tryCatch; try exact Hfn; intros error.
  - apply confined_throw.
  - destruct (isQuotaError error); [|apply confined_throw].
    apply confined_bind; [apply confined_console_warn, Hw|]. intros _.
    apply confined_bind; [apply confined_timeout, Ht|]. intros _.
    apply IH.
Qed.

Create HintDb confined.

#[local] Hint Resolve confined_ret confined_throw confined_generateContent
  confined_generateVideos confined_getVideosOperation confined_fetch
  confined_timeout confined_console_warn confined_readRuntimeApiKey
  confined_getAiClient : confined.

(** ** The retry executor, case by case *)

Lemma executeWithRetry_resolved {T} (fn : Async T) retries baseDelay w a w' :
  fn w = (Resolved a, w') ->
  executeWithRetry fn retries baseDelay w = (Resolved a, w').
Proof. intros H. destruct retries; simpl; unfold tryCatch; now rewrite H. Qed.

Lemma executeWithRetry_pending {T} (fn : Async T) retries baseDelay w w' :
  fn w = (Pending, w') ->
  executeWithRetry fn retries baseDelay w = (Pending, w').
Proof. intros H. destruct retries; simpl; unfold tryCatch; now rewrite H. Qed.

Lemma executeWithRetry_other_error {T} (fn : Async T) retries baseDelay w e w' :
  fn w = (Rejected e, w') ->
  isQuotaError e = false ->
  executeWithRetry fn retries baseDelay w = (Rejected e, w').
Proof.
  intros H Hq. destruct retries; simpl; unfold tryCatch; rewrite H;
    [|rewrite Hq]; reflexivity.
Qed.

Lemma executeWithRetry_exhausted {T} (fn : Async T) baseDelay w e w' :
  fn w = (Rejected e, w') ->
  executeWithRetry fn 0 baseDelay w = (Rejected e, w').
Proof. intros H. simpl; unfold tryCatch; now rewrite H. Qed.

Lemma executeWithRetry_retry {T} (fn : Async T) retries baseDelay w e w' :
  fn w = (Rejected e, w') ->
  isQuotaError e = true ->
  executeWithRetry fn (S retries) baseDelay w
  = executeWithRetry fn retries (baseDelay * 2) (pause baseDelay (S retries) w').
Proof.
  intros H Hq. cbn [executeWithRetry]. unfold tryCatch at 1. rewrite H, Hq.
  cbv beta iota delta [bind console_warn timeout pause quotaWarning].
  reflexivity.
Qed.

Lemma log_pause (baseDelay : Z) (retries : nat) (w : World) :
  log (pause baseDelay retries w)
  = log w ++ [EvConsoleWarn (quotaWarning baseDelay retries); EvTimeout baseDelay].
Proof. unfold pause, record; simpl. now rewrite <- app_assoc. Qed.

Lemma sameSetup_refl (w : World) : sameSetup w w.
Proof. now split. Qed.

Lemma sameSetup_pause (w0 w : World) baseDelay retries :
  sameSetup w0 w -> sameSetup w0 (pause baseDelay retries w).
Proof. intros [Hk Hr]. now split. Qed.

Lemma sameSetup_after {T} (Q : Event -> Prop) (fn : Async T) (w0 w : World) :
  confined Q fn -> sameSetup w0 w -> sameSetup w0 (worldAfter fn w).
Proof.
  intros Hconf [Hk Hr]. destruct (Hconf w) as (Hk' & Hr' & _).
  split; congruence.
Qed.

Lemma attempt_rejected {T} (fn : Async T) (w : World) :
  (exists e, fst (fn w) = Rejected e /\ isQuotaError e = true) ->
  exists e, fn w = (Rejected e, worldAfter fn w) /\ isQuotaError e = true.
Proof.
  intros [e [He Hq]]. exists e. split; [|exact Hq].
  unfold worldAfter. destruct (fn w) as [o w']; simpl in *. now subst.
Qed.

(** C2.  An operation that is rejected with a rate-limit error at every
    attempt, run by the executor with a budget of 3 retries and a base
    delay of 2000: the executor attempts it, waits 2000, attempts it,
    waits 4000, attempts it, waits 8000 and attempts it a fourth time; the
    outcome of that fourth attempt, a rejection, is the outcome of the
    executor, and nothing happens after it.  The log grows by the events of
    the four attempts, separated by the three waits.  The operation is
    any computation that, like all those built from the calls of this
    module, leaves the credential and the collaborators alone and only
    adds events to the log; it is rejected whatever the log holds. *)
Theorem executeWithRetry_rate_limited_at_every_attempt :
  forall (T : Type) (Q : Event -> Prop) (fn : Async T) (w0 : World),
    (forall w, sameSetup w0 w ->
               exists e, fst (fn w) = Rejected e /\ isQuotaError e = true) ->
    confined Q fn ->
    let w1 := worldAfter fn w0 in
    let w2 := worldAfter fn (pause 2000 3 w1) in
    let w3 := worldAfter fn (pause 4000 2 w2) in
    executeWithRetry fn 3 2000 w0 = fn (pause 8000 1 w3)
    /\ (exists e, fst (executeWithRetry fn 3 2000 w0) = Rejected e
                  /\ isQuotaError e = true)
    /\ exists d1 d2 d3 d4,
         Forall Q d1 /\ Forall Q d2 /\ Forall Q d3 /\ Forall Q d4
         /\ log (worldAfter (executeWithRetry fn 3 2000) w0)
            = log w0
              ++ d1 ++ [EvConsoleWarn (quotaWarning 2000 3); EvTimeout 2000]
              ++ d2 ++ [EvConsoleWarn (quotaWarning 4000 2); EvTimeout 4000]
              ++ d3 ++ [EvConsoleWarn (quotaWarning 8000 1); EvTimeout 8000]
              ++ d4.
Proof.
  intros T Q fn w0 Hall Hconf w1 w2 w3.
  assert (S0 : sameSetup w0 w0) by apply sameSetup_refl.
  assert (S1 : sameSetup w0 (pause 2000 3 w1))
    by (apply sameSetup_pause, (sameSetup_after Hconf S0)).
  assert (S2 : sameSetup w0 (pause 4000 2 w2))
    by (apply sameSetup_pause, (sameSetup_after Hconf S1)).
  assert (S3 : sameSetup w0 (pause 8000 1 w3))
    by (apply sameSetup_pause, (sameSetup_after Hconf S2)).
  destruct (attempt_rejected fn _ (Hall _ S0)) as [e1 [H1 Hq1]].
  destruct (attempt_rejected fn _ (Hall _ S1)) as [e2 [H2 Hq2]].
  destruct (attempt_rejected fn _ (Hall _ S2)) as [e3 [H3 Hq3]].
  destruct (attempt_rejected fn _ (Hall _ S3)) as [e4 [H4 Hq4]].
  assert (Hrun : executeWithRetry fn 3 2000 w0 = fn (pause 8000 1 w3)).
  { rewrite (executeWithRetry_retry fn 2 2000 w0 H1 Hq1).
    change (2000 * 2)%Z with 4000%Z. fold w1.
    rewrite (executeWithRetry_retry fn 1 4000 _ H2 Hq2).
    change (4000 * 2)%Z with 8000%Z. fold w2.
    rewrite (executeWithRetry_retry fn 0 8000 _ H3 Hq3). fold w3.
    rewrite (executeWithRetry_exhausted fn _ _ H4). now rewrite H4. }
  split; [exact Hrun|]. split.
  - exists e4. rewrite Hrun, H4. now split.
  - destruct (Hconf w0) as (_ & _ & d1 & Hl1 & HQ1).
    destruct (Hconf (pause 2000 3 w1)) as (_ & _ & d2 & Hl2 & HQ2).
    destruct (Hconf (pause 4000 2 w2)) as (_ & _ & d3 & Hl3 & HQ3).
    destruct (Hconf (pause 8000 1 w3)) as (_ & _ & d4 & Hl4 & HQ4).
    exists d1, d2, d3, d4. repeat (split; [assumption|]).
    unfold worldAfter at 1. rewrite Hrun.
    fold (worldAfter fn (pause 8000 1 w3)).
    rewrite Hl4, log_pause. fold w3 in Hl3. rewrite Hl3, log_pause.
    fold w2 in Hl2. rewrite Hl2, log_pause. fold w1 in Hl1. rewrite Hl1.
    now rewrite <- !app_assoc.
Qed.

Lemma executeWithRetry_rate_limited_witness :
  exists e,
    fst (executeWithRetry (ai_generateContent sampleClient
                             (generateVideoPrompt_request [] []))
           3 2000 (freshWorld sampleKey (rejecting tooManyRequests)))
    = Rejected e
    /\ isQuotaError e = true.
Proof.
  apply (@executeWithRetry_rate_limited_at_every_attempt
           GenerateContentResponse (fun _ => True)
           (ai_generateContent sampleClient (generateVideoPrompt_request [] []))
           (freshWorld sampleKey (rejecting tooManyRequests))).
  - intros w [_ Hr]. exists tooManyRequests.
    unfold ai_generateContent; simpl. rewrite Hr. split; reflexivity.
  - apply confined_generateContent. exact I.
Defined.

(** ** Errors that are not rate limits *)

Lemma getAiClient_configured (w : World) :
  isEmpty (runtimeApiKey w) = false ->
  getAiClient w
  = (Resolved {| apiKey := trim (removeNonPrintable (runtimeApiKey w)) |}, w).
Proof.
  intros H. unfold getAiClient, bind, readRuntimeApiKey. now rewrite H.
Qed.

(** The operation that the storyboard-image stage hands to the executor
    replaces the error of the remote call by a new error that only keeps
    its message. *)
Lemma generateStoryboardImage_remote_error (promptText : jsstring) (w : World)
      (e : JsError) :
  isEmpty (runtimeApiKey w) = false ->
  let ai := {| apiKey := trim (removeNonPrintable (runtimeApiKey w)) |} in
  let request :=
    generateStoryboardImage_request
      (generateStoryboardImage_finalPrompt promptText) in
  onGenerateContent (remote w) (log w) ai request = Rejected e ->
  isQuotaError (generateStoryboardImage_rethrown e) = false ->
  generateStoryboardImage promptText w
  = (Rejected (generateStoryboardImage_rethrown e),
     record (EvGenerateContent ai request) w).
Proof.
  intros Hkey ai request Hremote Hq.
  unfold generateStoryboardImage, bind at 1. rewrite (getAiClient_configured w Hkey).
  apply executeWithRetry_other_error; [|exact Hq].
  unfold tryCatch, bind, ai_generateContent. fold ai request. now rewrite Hremote.
Qed.

(** A rate limit that the remote call of the storyboard-image stage
    signals by its status alone is not retried: the error that the
    executor receives from the stage's own [catch] block has lost the
    status. *)
Lemma storyboard_image_status_429_is_not_retried :
  isQuotaError tooManyRequests = true
  /\ generateStoryboardImage (lit "a red apple")
       (freshWorld sampleKey (rejecting tooManyRequests))
     = (Rejected (newError (lit "Too Many Requests")),
        record
          (EvGenerateContent sampleClient
             (generateStoryboardImage_request
                (generateStoryboardImage_finalPrompt (lit "a red apple"))))
          (freshWorld sampleKey (rejecting tooManyRequests))).
Proof. split; vm_compute; reflexivity. Qed.

(** C3, as it is stated, fails for the storyboard-image stage: the remote
    call is rejected with an error of status 500, which is not a rate
    limit, and the caller of the stage receives another error value, one
    without a status. *)
Lemma storyboard_image_error_is_rewrapped :
  isQuotaError serverError = false
  /\ onGenerateContent (remote (freshWorld sampleKey (rejecting serverError)))
       [] sampleClient
       (generateStoryboardImage_request
          (generateStoryboardImage_finalPrompt (lit "a red apple")))
     = Rejected serverError
  /\ fst (generateStoryboardImage (lit "a red apple")
            (freshWorld sampleKey (rejecting serverError)))
     = Rejected (newError (lit "Internal error"))
  /\ newError (lit "Internal error") <> serverError.
Proof.
  split; [vm_compute; reflexivity|].
  split; [reflexivity|].
  split; [vm_compute; reflexivity|].
  intros H. discriminate (f_equal status H).
Qed.

(** C3, amended.  Whatever operation the executor is given, when an
    attempt is rejected with an error that is not a rate limit, the
    executor is rejected with that same error value, in the world the
    attempt left: no wait and no further attempt happen, whatever the
    budget.  The storyboard-image stage is rejected, after its single
    remote call, with the error its own [catch] block builds from the
    message of the remote error. *)
Theorem executeWithRetry_propagates_other_errors :
  (forall (T : Type) (fn : Async T) (retries : nat) (baseDelay : Z)
          (w w' : World) (e : JsError),
      fn w = (Rejected e, w') ->
      isQuotaError e = false ->
      executeWithRetry fn retries baseDelay w = (Rejected e, w'))
  /\ (forall (promptText : jsstring) (w : World) (e : JsError),
         isEmpty (runtimeApiKey w) = false ->
         let ai := {| apiKey := trim (removeNonPrintable (runtimeApiKey w)) |} in
         let request :=
           generateStoryboardImage_request
             (generateStoryboardImage_finalPrompt promptText) in
         onGenerateContent (remote w) (log w) ai request = Rejected e ->
         isQuotaError (generateStoryboardImage_rethrown e) = false ->
         generateStoryboardImage promptText w
         = (Rejected (newError (orElse (message e) (lit "خطا در سرویس تصویر"))),
            record (EvGenerateContent ai request) w)).
Proof.
  split.
  - intros T fn retries baseDelay w w' e H Hq.
    now apply executeWithRetry_other_error.
  - intros promptText w e Hkey ai request Hremote Hq.
    now apply generateStoryboardImage_remote_error.
Qed.

Lemma executeWithRetry_propagates_other_errors_witness :
  executeWithRetry (ai_generateContent sampleClient
                      (generateVideoPrompt_request [] []))
    3 2000 (freshWorld sampleKey (rejecting serverError))
  = (Rejected serverError,
     record (EvGenerateContent sampleClient (generateVideoPrompt_request [] []))
       (freshWorld sampleKey (rejecting serverError)))
  /\ generateStoryboardImage (lit "a red apple")
       (freshWorld sampleKey (rejecting serverError))
     = (Rejected (newError (lit "Internal error")),
        record (EvGenerateContent sampleClient
                  (generateStoryboardImage_request
                     (generateStoryboardImage_finalPrompt (lit "a red apple"))))
          (freshWorld sampleKey (rejecting serverError))).
Proof.
  destruct executeWithRetry_propagates_other_errors as [Hexec Himage]. split.
  - apply Hexec; [reflexivity | vm_compute; reflexivity].
  - apply (Himage (lit "a red apple")
             (freshWorld sampleKey (rejecting serverError)) serverError);
      [reflexivity | reflexivity | vm_compute; reflexivity].
Defined.

(** ** Verified fields in the requests *)

Lemma executeWithRetry_after_first_attempt {T} (Q : Event -> Prop) (fn : Async T)
      (retries : nat) (baseDelay : Z) (w : World) :
  (forall ms, Q (EvTimeout ms)) ->
  (forall msg, Q (EvConsoleWarn msg)) ->
  confined Q fn ->
  grows Q (worldAfter fn w) (worldAfter (executeWithRetry fn retries baseDelay) w).
Proof.
  intros Ht Hw Hfn. unfold worldAfter at 1 2.
  destruct (fn w) as [[a | e |] w'] eqn:E.
  - rewrite (executeWithRetry_resolved fn retries baseDelay w E). apply grows_refl.
  - destruct retries as [|retries].
    + rewrite (executeWithRetry_exhausted fn baseDelay w E). apply grows_refl.
    + destruct (isQuotaError e) eqn:Hq.
      * rewrite (executeWithRetry_retry fn retries baseDelay w E Hq).
        eapply grows_trans; [|apply (confined_executeWithRetry retries (baseDelay * 2) Ht Hw Hfn)].
        eapply grows_trans; apply grows_record; [apply Hw | apply Ht].
      * rewrite (executeWithRetry_other_error fn (S retries) baseDelay w E Hq).
        apply grows_refl.
  - rewrite (executeWithRetry_pending fn retries baseDelay w E). apply grows_refl.
Qed.

Lemma confined_textStage {A} (Q : Event -> Prop) request
      (f : GenerateContentResponse -> A) :
  (forall ai, Q (EvGenerateContent ai request)) ->
  (forall ms, Q (EvTimeout ms)) ->
  (forall msg, Q (EvConsoleWarn msg)) ->
  confined Q (textStage request f).
Proof.
  intros Hreq Ht Hw. apply confined_bind; [auto with confined|].
  intros ai. apply confined_executeWithRetry; try assumption.
  apply confined_bind; auto with confined.
Qed.

(** With a credential, a text stage first sends its request. *)
Lemma textStage_sends {A} request (f : GenerateContentResponse -> A) (w : World) :
  isEmpty (runtimeApiKey w) = false ->
  exists rest,
    log (worldAfter (textStage request f) w)
    = log w
      ++ EvGenerateContent
           {| apiKey := trim (removeNonPrintable (runtimeApiKey w)) |} request
      :: rest.
Proof.
  intros Hkey. unfold textStage, worldAfter, bind at 1.
  rewrite (getAiClient_configured w Hkey).
  set (ai := {| apiKey := trim (removeNonPrintable (runtimeApiKey w)) |}).
  set (fn := bind (ai_generateContent ai request) (fun response => ret (f response))).
  assert (Hfn : confined (fun _ => True) fn).
  { apply confined_bind; [now apply confined_generateContent|].
    intros response. apply confined_ret. }
  destruct (@executeWithRetry_after_first_attempt _ (fun _ => True) fn
              defaultRetries defaultBaseDelay w (fun _ => I) (fun _ => I) Hfn)
    as (_ & _ & rest & Hlog & _).
  exists rest. unfold worldAfter in Hlog. rewrite Hlog.
  assert (Hfirst : log (snd (fn w)) = log w ++ [EvGenerateContent ai request]).
  { unfold fn, bind, ai_generateContent.
    destruct (onGenerateContent (remote w) (log w) ai request); reflexivity. }
  rewrite Hfirst. now rewrite <- app_assoc.
Qed.

Lemma requestTexts_imageAndPrompt m imageBase64 prompt c :
  requestTexts {| model := m; contents := imageAndPrompt imageBase64 prompt;
                  config := c |}
  = [prompt].
Proof. reflexivity. Qed.

Ltac find_quoted :=
  first [ apply substringOf_middle
        | apply substringOf_app_r; find_quoted ].

Lemma generateTeacherScript_quotes imageBase64 globalContext pageAnalysis T D :
  let request :=
    generateTeacherScript_request imageBase64 globalContext pageAnalysis T D in
  quotes request T /\ quotes request D.
Proof.
  unfold quotes, generateTeacherScript_request.
  rewrite requestTexts_imageAndPrompt. unfold generateTeacherScript_prompt.
  split; apply Exists_cons_hd; find_quoted.
Qed.

Lemma generateStoryboardPrompt_quotes imageBase64 D :
  quotes (generateStoryboardPrompt_request imageBase64 D) D.
Proof.
  unfold quotes, generateStoryboardPrompt_request.
  rewrite requestTexts_imageAndPrompt. unfold generateStoryboardPrompt_prompt.
  apply Exists_cons_hd; find_quoted.
Qed.

Lemma generateVideoPrompt_quotes imageBase64 D :
  quotes (generateVideoPrompt_request imageBase64 D) D.
Proof.
  unfold quotes, generateVideoPrompt_request.
  rewrite requestTexts_imageAndPrompt. unfold generateVideoPrompt_prompt.
  apply Exists_cons_hd; find_quoted.
Qed.

Lemma generateDialogue_quotes imageBase64 teacherScript T :
  quotes (generateDialogue_request imageBase64 teacherScript T) T.
Proof.
  unfold quotes, generateDialogue_request.
  rewrite requestTexts_imageAndPrompt. unfold generateDialogue_prompt.
  apply Exists_cons_hd; find_quoted.
Qed.

Lemma quotes_mentions (params : GenerateContentParameters) (s : jsstring) :
  quotes params s -> mentions params s = true.
Proof.
  unfold quotes, mentions, requestTexts, requestStrings.
  rewrite Exists_exists, existsb_exists. intros [t [Hin Hsub]].
  exists t. split; [|now apply includes_iff].
  apply in_flat_map in Hin. destruct Hin as [p [Hp Ht]].
  apply in_flat_map. exists p. split; [exact Hp|].
  apply in_or_app. left. destruct (part_text p); exact Ht.
Qed.

(** C1, as it is stated, fails: the requests of the storyboard-prompt and
    video-prompt stages carry the description but not the extracted text,
    and the request of the dialogue stage carries the extracted text but
    not the description. *)
Lemma some_requests_omit_a_verified_field :
  ~ quotes (generateStoryboardPrompt_request [] (lit "a red apple"))
      (lit "2 + 2 = 4")
  /\ ~ quotes (generateVideoPrompt_request [] (lit "a red apple"))
         (lit "2 + 2 = 4")
  /\ ~ quotes (generateDialogue_request [] [] (lit "2 + 2 = 4"))
         (lit "a red apple").
Proof.
  repeat split; intros H; apply quotes_mentions in H;
    vm_compute in H; discriminate H.
Qed.

(** C1, amended.  With a credential configured, each stage downstream of
    the page analysis first sends the request built from its arguments,
    and every request it sends quotes, unmodified, the verified fields
    that the stage receives: the teacher script stage quotes both the
    verified text [T] and the verified description [D], the storyboard
    prompt and video prompt stages quote [D], and the dialogue stage
    quotes [T].  [T] and [D] are arbitrary, the empty string included. *)
Theorem verified_fields_are_quoted :
  forall (imageBase64 globalContext pageAnalysis teacherScript T D : jsstring)
         (w : World),
    isEmpty (runtimeApiKey w) = false ->
    (sendsFirst
       (generateTeacherScript imageBase64 globalContext pageAnalysis T D) w
       (generateTeacherScript_request imageBase64 globalContext pageAnalysis T D)
     /\ confined (requestsSatisfy (fun p => quotes p T /\ quotes p D))
          (generateTeacherScript imageBase64 globalContext pageAnalysis T D))
    /\ (sendsFirst (generateStoryboardPrompt imageBase64 D) w
          (generateStoryboardPrompt_request imageBase64 D)
        /\ confined (requestsSatisfy (fun p => quotes p D))
             (generateStoryboardPrompt imageBase64 D))
    /\ (sendsFirst (generateVideoPrompt imageBase64 D) w
          (generateVideoPrompt_request imageBase64 D)
        /\ confined (requestsSatisfy (fun p => quotes p D))
             (generateVideoPrompt imageBase64 D))
    /\ (sendsFirst (generateDialogue imageBase64 teacherScript T) w
          (generateDialogue_request imageBase64 teacherScript T)
        /\ confined (requestsSatisfy (fun p => quotes p T))
             (generateDialogue imageBase64 teacherScript T)).
Proof.
  intros imageBase64 globalContext pageAnalysis teacherScript T D w Hkey.
  split; [split | split; [split | split; [split | split]]].
  - apply (textStage_sends _ _ w Hkey).
  - apply confined_textStage; try (intros; exact I).
    intros ai. apply generateTeacherScript_quotes.
  - apply (textStage_sends _ _ w Hkey).
  - apply confined_textStage; try (intros; exact I).
    intros ai. apply generateStoryboardPrompt_quotes.
  - apply (textStage_sends _ _ w Hkey).
  - apply confined_textStage; try (intros; exact I).
    intros ai. apply generateVideoPrompt_quotes.
  - apply (textStage_sends _ _ w Hkey).
  - apply confined_textStage; try (intros; exact I).
    intros ai. apply generateDialogue_quotes.
Qed.

Lemma verified_fields_are_quoted_witness :
  sendsFirst (generateDialogue [] [] [])
    (freshWorld sampleKey (rejecting serverError))
    (generateDialogue_request [] [] [])
  /\ confined (requestsSatisfy (fun p => quotes p []))
       (generateDialogue [] [] []).
Proof.
  apply (@verified_fields_are_quoted [] [] [] [] [] []
           (freshWorld sampleKey (rejecting serverError))).
  reflexivity.
Defined.

(** ** The credential slot *)

Lemma getAiClient_missing (w : World) :
  runtimeApiKey w = [] ->
  getAiClient w = (Rejected MissingCredential, w).
Proof.
  intros H. unfold getAiClient, bind, readRuntimeApiKey. now rewrite H.
Qed.

Lemma bind_getAiClient_missing {A} (k : GoogleGenAI -> Async A) (w : World) :
  runtimeApiKey w = [] ->
  bind getAiClient k w = (Rejected MissingCredential, w).
Proof.
  intros H. unfold bind at 1. now rewrite (getAiClient_missing w H).
Qed.

Lemma mapAsync_rejected {A B} (f : A -> B) (m : Async A) (w w' : World) e :
  m w = (Rejected e, w') -> mapAsync f m w = (Rejected e, w').
Proof. intros H. unfold mapAsync, bind. now rewrite H. Qed.

Lemma invoke_without_credential decodeBase64 (call : StageCall) (w : World) :
  runtimeApiKey w = [] ->
  invoke decodeBase64 call w = (Rejected MissingCredential, w).
Proof.
  intros H. destruct call; cbn [invoke]; apply mapAsync_rejected;
    now apply bind_getAiClient_missing.
Qed.

(** C4. When the credential slot is empty, every stage, whatever its
    arguments, is rejected with the missing-credential error and leaves
    the world as it found it: its log has no new event, so no remote call
    was issued. *)
Theorem every_stage_requires_a_credential :
  forall (decodeBase64 : jsstring -> JsError + list N) (call : StageCall)
         (w : World),
    runtimeApiKey w = [] ->
    invoke decodeBase64 call w = (Rejected MissingCredential, w)
    /\ log (worldAfter (invoke decodeBase64 call) w) = log w
    /\ filter isRemoteCall (log (worldAfter (invoke decodeBase64 call) w))
       = filter isRemoteCall (log w).
Proof.
  intros decodeBase64 call w H.
  pose proof (invoke_without_credential decodeBase64 call w H) as Hrun.
  unfold worldAfter. rewrite Hrun. now repeat split.
Qed.

Lemma every_stage_requires_a_credential_witness :
  invoke (fun _ => inr []) (CallGenerateVideo 5 (lit "a cat") [] Res720p)
    (freshWorld [] (rejecting serverError))
  = (Rejected MissingCredential, freshWorld [] (rejecting serverError)).
Proof.
  apply (@every_stage_requires_a_credential (fun _ => inr [])
           (CallGenerateVideo 5 (lit "a cat") [] Res720p)
           (freshWorld [] (rejecting serverError))).
  reflexivity.
Defined.

(** C10. After [setApiKey key] the slot holds [key] without its characters
    outside the printable ASCII range and, of what is left, without the
    leading and trailing whitespace.  When [key] has no printable ASCII
    character at all, the slot is empty and every stage invoked afterwards
    is rejected with the missing-credential error, without any event. *)
Theorem setApiKey_sanitizes :
  forall (key : jsstring) (w : World),
    runtimeApiKey (setApiKey key w) = trim (filter isPrintableAscii key)
    /\ trimmedOf (filter isPrintableAscii key) (runtimeApiKey (setApiKey key w))
    /\ remote (setApiKey key w) = remote w
    /\ log (setApiKey key w) = log w
    /\ (Forall (fun c => isPrintableAscii c = false) key ->
        runtimeApiKey (setApiKey key w) = []
        /\ forall decodeBase64 call,
             invoke decodeBase64 call (setApiKey key w)
             = (Rejected MissingCredential, setApiKey key w)).
Proof.
  intros key w. split; [reflexivity|]. split; [apply trim_trimmedOf|].
  split; [reflexivity|]. split; [reflexivity|].
  intros Hall.
  assert (Hempty : runtimeApiKey (setApiKey key w) = []).
  { simpl. rewrite removeNonPrintable_nil; [reflexivity|].
    now apply Forall_forall. }
  split; [exact Hempty|].
  intros decodeBase64 call. now apply invoke_without_credential.
Qed.

Lemma setApiKey_sanitizes_witness :
  runtimeApiKey (setApiKey (lit "کلید") (freshWorld sampleKey (rejecting serverError)))
  = []
  /\ invoke (fun _ => inr []) (CallAnalyzeSinglePage [])
       (setApiKey (lit "کلید") (freshWorld sampleKey (rejecting serverError)))
     = (Rejected MissingCredential,
        setApiKey (lit "کلید") (freshWorld sampleKey (rejecting serverError))).
Proof.
  destruct (@setApiKey_sanitizes (lit "کلید")
              (freshWorld sampleKey (rejecting serverError)))
    as (_ & _ & _ & _ & Hempty).
  destruct Hempty as [Hslot Hstages]; [repeat constructor|].
  split; [exact Hslot | apply Hstages].
Defined.

(** ** Parsing the page analysis *)

Example JSON_parse_well_formed :
  JSON_parse
    (lit "{ " ++ dquote ++ lit "analysis" ++ dquote ++ lit ": "
     ++ dquote ++ lit "goal\u0021" ++ dquote ++ lit ", "
     ++ dquote ++ lit "text" ++ dquote ++ lit ": [1, -2.5e3, true, null], "
     ++ dquote ++ lit "text" ++ dquote ++ lit ": " ++ dquote ++ dquote ++ lit " }")
  = Some (JObject [(lit "analysis", JString (lit "goal!"));
                   (lit "text",
                    JArray [JNumber false 1 0; JNumber true 25 2;
                            JBool true; JNull]);
                   (lit "text", JString [])]).
Proof. vm_compute. reflexivity. Qed.

Example JSON_parse_rejects :
  map JSON_parse
    [lit "{'a': 1}"; lit "[1, 2,]"; lit "01"; lit "1."; lit "nul";
     lit "{} x"; lit "undefined"; lit "[[1]"]
  = [None; None; None; None; None; None; None; None].
Proof. vm_compute. reflexivity. Qed.

Example parseAnalysis_well_formed :
  parseAnalysis
    (textResponse
       (lit "{" ++ dquote ++ lit "analysis" ++ dquote ++ lit ":"
        ++ dquote ++ lit "a" ++ dquote ++ lit ","
        ++ dquote ++ lit "text" ++ dquote ++ lit ":"
        ++ dquote ++ lit "t" ++ dquote ++ lit ","
        ++ dquote ++ lit "description" ++ dquote ++ lit ":"
        ++ dquote ++ lit "d" ++ dquote ++ lit "}"))
  = {| analysis := JString (lit "a");
       text := JString (lit "t");
       description := JString (lit "d") |}.
Proof. vm_compute. reflexivity. Qed.

Lemma JSON_parse_empty_object : JSON_parse (lit "{}") = Some (JObject []).
Proof. vm_compute. reflexivity. Qed.

Lemma parseAnalysis_of_payload (response : GenerateContentResponse) c payload :
  response_text response = Some (c :: payload) ->
  parseAnalysis response
  = match JSON_parse (c :: payload) with
    | Some json =>
      match getProperty json (lit "analysis"),
            getProperty json (lit "text"),
            getProperty json (lit "description") with
      | Some a, Some t, Some d =>
        {| analysis := jsOr a (JString []);
           text := jsOr t (JString []);
           description := jsOr d (JString []) |}
      | _, _, _ => analysisFallback
      end
    | None => analysisFallback
    end.
Proof. intros H. unfold parseAnalysis. now rewrite H. Qed.

Lemma parseAnalysis_no_payload (response : GenerateContentResponse) :
  response_text response = None \/ response_text response = Some [] ->
  parseAnalysis response = emptyAnalysis.
Proof.
  intros [H | H]; unfold parseAnalysis; rewrite H; cbn [orElseOpt orElse isEmpty];
    now rewrite JSON_parse_empty_object.
Qed.

Lemma analyzeSinglePage_resolved (imageBase64 : jsstring) (w : World) response :
  isEmpty (runtimeApiKey w) = false ->
  let ai := {| apiKey := trim (removeNonPrintable (runtimeApiKey w)) |} in
  onGenerateContent (remote w) (log w) ai (analyzeSinglePage_request imageBase64)
  = Resolved response ->
  analyzeSinglePage imageBase64 w
  = (Resolved (parseAnalysis response),
     record (EvGenerateContent ai (analyzeSinglePage_request imageBase64)) w).
Proof.
  intros Hkey ai Hremote. unfold analyzeSinglePage, bind at 1.
  rewrite (getAiClient_configured w Hkey). apply executeWithRetry_resolved.
  unfold bind, ai_generateContent. fold ai. now rewrite Hremote.
Qed.

(** C5, as it is stated, fails: the payload [[]] is valid JSON that is
    not an object, and the empty payload is not JSON; for both the stage
    returns three empty strings, without the error marker of the
    fallback. *)
Lemma schema_violation_is_not_marked :
  JSON_parse (lit "[]") = Some (JArray [])
  /\ conformsToSchema (JArray []) = false
  /\ fst (analyzeSinglePage []
            (freshWorld sampleKey
               (answering (textResponse (lit "[]")) serverError)))
     = Resolved emptyAnalysis
  /\ JSON_parse [] = None
  /\ fst (analyzeSinglePage []
            (freshWorld sampleKey (answering (textResponse []) serverError)))
     = Resolved emptyAnalysis
  /\ emptyAnalysis <> analysisFallback.
Proof.
  repeat split; try (vm_compute; reflexivity).
  intros H. discriminate (f_equal analysis H).
Qed.

(** C5, amended.  Whatever payload the remote call resolves with, the
    page-analysis stage resolves: parsing never makes it fail.  For a
    payload that is not empty and is not JSON, and for the JSON literal
    [null], the result is the fallback, with the error marker in the
    analysis field and empty strings in the two others.  A payload that is
    JSON but violates the schema is not marked: an object yields, field by
    field, the value it holds when that value is truthy and the empty
    string otherwise; a boolean, a number, a string or an array yields
    three empty strings; and so does a missing or empty payload, which is
    parsed as [{}]. *)
Theorem analyzeSinglePage_never_fails_on_parsing :
  (forall (imageBase64 : jsstring) (w : World) response,
      isEmpty (runtimeApiKey w) = false ->
      let ai := {| apiKey := trim (removeNonPrintable (runtimeApiKey w)) |} in
      onGenerateContent (remote w) (log w) ai
        (analyzeSinglePage_request imageBase64) = Resolved response ->
      analyzeSinglePage imageBase64 w
      = (Resolved (parseAnalysis response),
         record (EvGenerateContent ai (analyzeSinglePage_request imageBase64)) w))
  /\ (forall response c payload,
         response_text response = Some (c :: payload) ->
         JSON_parse (c :: payload) = None \/ JSON_parse (c :: payload) = Some JNull ->
         parseAnalysis response = analysisFallback)
  /\ (forall response c payload members,
         response_text response = Some (c :: payload) ->
         JSON_parse (c :: payload) = Some (JObject members) ->
         parseAnalysis response
         = {| analysis := jsOr (lookupMember members (lit "analysis")) (JString []);
              text := jsOr (lookupMember members (lit "text")) (JString []);
              description :=
                jsOr (lookupMember members (lit "description")) (JString []) |})
  /\ (forall response c payload json,
         response_text response = Some (c :: payload) ->
         JSON_parse (c :: payload) = Some json ->
         match json with
         | JBool _ | JNumber _ _ _ | JString _ | JArray _ => True
         | _ => False
         end ->
         parseAnalysis response = emptyAnalysis)
  /\ (forall response,
         response_text response = None \/ response_text response = Some [] ->
         parseAnalysis response = emptyAnalysis).
Proof.
  split; [exact analyzeSinglePage_resolved|].
  split; [|split; [|split]].
  - intros response c payload Htext [H | H];
      rewrite (parseAnalysis_of_payload response Htext), H; reflexivity.
  - intros response c payload members Htext H.
    rewrite (parseAnalysis_of_payload response Htext), H. reflexivity.
  - intros response c payload json Htext H Hkind.
    rewrite (parseAnalysis_of_payload response Htext), H.
    destruct json; try contradiction; reflexivity.
  - exact parseAnalysis_no_payload.
Qed.

Lemma analyzeSinglePage_never_fails_on_parsing_witness :
  analyzeSinglePage []
    (freshWorld sampleKey (answering (textResponse (lit "not json")) serverError))
  = (Resolved analysisFallback,
     record (EvGenerateContent sampleClient (analyzeSinglePage_request []))
       (freshWorld sampleKey (answering (textResponse (lit "not json")) serverError)))
  /\ parseAnalysis (textResponse (lit "[1, 2]")) = emptyAnalysis.
Proof.
  destruct analyzeSinglePage_never_fails_on_parsing
    as (Hstage & Hfallback & _ & Hother & _).
  split.
  - rewrite (Hstage [] (freshWorld sampleKey
               (answering (textResponse (lit "not json")) serverError))
               (textResponse (lit "not json")) eq_refl eq_refl).
    rewrite (Hfallback (textResponse (lit "not json")) 110%N (lit "ot json")
               eq_refl (or_introl eq_refl)).
    reflexivity.
  - apply (Hother (textResponse (lit "[1, 2]")) 91%N (lit "1, 2]")
             (JArray [JNumber false 1 0; JNumber false 2 0]) eq_refl);
      [vm_compute; reflexivity | exact I].
Defined.

(** ** The storyboard image *)

Lemma scanForImage_first (before after : list Part) (part : Part) d imageUrl :
  Forall hasNoInlineData before ->
  inlineData part = Some d ->
  scanForImage (before ++ part :: after) imageUrl
  = lit "data:image/png;base64," ++ ofOpt (data d).
Proof.
  intros Hbefore Hpart. induction Hbefore as [|p before Hp _ IH]; simpl.
  - now rewrite Hpart.
  - now rewrite Hp.
Qed.

Lemma scanForImage_none (ps : list Part) imageUrl :
  Forall hasNoInlineData ps -> scanForImage ps imageUrl = imageUrl.
Proof.
  intros Hps. induction Hps as [|p ps Hp _ IH]; simpl; [reflexivity|].
  now rewrite Hp.
Qed.

Lemma dataUrl_not_empty (payload : jsstring) :
  isEmpty (lit "data:image/png;base64," ++ payload) = false.
Proof. reflexivity. Qed.

Lemma missing_image_is_not_quota : isQuotaError MissingImagePayload = false.
Proof. vm_compute. reflexivity. Qed.

Lemma rethrown_missing_image :
  generateStoryboardImage_rethrown MissingImagePayload = MissingImagePayload.
Proof. vm_compute. reflexivity. Qed.

Lemma generateStoryboardImage_answered (promptText : jsstring) (w : World) response :
  isEmpty (runtimeApiKey w) = false ->
  let ai := {| apiKey := trim (removeNonPrintable (runtimeApiKey w)) |} in
  let request :=
    generateStoryboardImage_request
      (generateStoryboardImage_finalPrompt promptText) in
  onGenerateContent (remote w) (log w) ai request = Resolved response ->
  generateStoryboardImage promptText w
  = executeWithRetry
      (tryCatch
         (response <- ai_generateContent ai request ;;
          let imageUrl := scanForImage (partsOrNone response) [] in
          if isEmpty imageUrl then throw MissingImagePayload else ret imageUrl)
         (fun error => throw (generateStoryboardImage_rethrown error)))
      defaultRetries defaultBaseDelay w.
Proof.
  intros Hkey ai request _. unfold generateStoryboardImage, bind at 1.
  now rewrite (getAiClient_configured w Hkey).
Qed.

(** C8, as it is stated, fails: two responses that declare different MIME
    types for the same payload give the same result, which names
    [image/png] and neither of the declared types. *)
Lemma declared_mime_type_is_dropped :
  fst (generateStoryboardImage (lit "a red apple")
         (freshWorld sampleKey
            (answering (partsResponse [inlinePart (lit "image/jpeg") (lit "AAAA")])
               serverError)))
  = Resolved (lit "data:image/png;base64,AAAA")
  /\ fst (generateStoryboardImage (lit "a red apple")
            (freshWorld sampleKey
               (answering (partsResponse [inlinePart (lit "image/webp") (lit "AAAA")])
                  serverError)))
     = Resolved (lit "data:image/png;base64,AAAA")
  /\ includes (lit "data:image/png;base64,AAAA") (lit "image/jpeg") = false
  /\ includes (lit "data:image/png;base64,AAAA") (lit "image/webp") = false.
Proof. repeat split; vm_compute; reflexivity. Qed.

(** C8, amended.  When the remote call of the storyboard-image stage
    resolves, the stage looks at the parts of the first candidate (none
    when there is no candidate, content or part list).  It uses the first
    part that carries inline data and resolves with the string made of
    ["data:image/png;base64,"] followed by the payload of that part; the
    MIME type that the part declares is not used.  When no part carries
    inline data, the stage is rejected with the missing-image error.  In
    both cases the remote service was called once. *)
Theorem generateStoryboardImage_uses_first_inline_part :
  forall (promptText : jsstring) (w : World) response,
    isEmpty (runtimeApiKey w) = false ->
    let ai := {| apiKey := trim (removeNonPrintable (runtimeApiKey w)) |} in
    let request :=
      generateStoryboardImage_request
        (generateStoryboardImage_finalPrompt promptText) in
    onGenerateContent (remote w) (log w) ai request = Resolved response ->
    (forall before part after d,
        partsOrNone response = before ++ part :: after ->
        Forall hasNoInlineData before ->
        inlineData part = Some d ->
        generateStoryboardImage promptText w
        = (Resolved (lit "data:image/png;base64," ++ ofOpt (data d)),
           record (EvGenerateContent ai request) w))
    /\ (Forall hasNoInlineData (partsOrNone response) ->
        generateStoryboardImage promptText w
        = (Rejected MissingImagePayload,
           record (EvGenerateContent ai request) w)).
Proof.
  intros promptText w response Hkey ai request Hremote.
  rewrite (generateStoryboardImage_answered promptText w Hkey Hremote).
  fold ai request. split.
  - intros before part after d Hparts Hbefore Hpart.
    apply executeWithRetry_resolved.
    unfold tryCatch, bind, ai_generateContent. rewrite Hremote.
    cbv beta iota zeta. rewrite Hparts, (scanForImage_first _ _ _ Hbefore Hpart).
    now rewrite dataUrl_not_empty.
  - intros Hnone.
    apply executeWithRetry_other_error; [|exact missing_image_is_not_quota].
    unfold tryCatch, bind, ai_generateContent. rewrite Hremote.
    cbv beta iota zeta. rewrite (scanForImage_none _ Hnone).
    cbv beta iota delta [isEmpty throw]. now rewrite rethrown_missing_image.
Qed.

Lemma generateStoryboardImage_uses_first_inline_part_witness :
  generateStoryboardImage (lit "a red apple")
    (freshWorld sampleKey
       (answering
          (partsResponse [textPart (lit "here it is");
                          inlinePart (lit "image/jpeg") (lit "AAAA");
                          inlinePart (lit "image/png") (lit "BBBB")])
          serverError))
  = (Resolved (lit "data:image/png;base64," ++ lit "AAAA"),
     record
       (EvGenerateContent sampleClient
          (generateStoryboardImage_request
             (generateStoryboardImage_finalPrompt (lit "a red apple"))))
       (freshWorld sampleKey
          (answering
             (partsResponse [textPart (lit "here it is");
                             inlinePart (lit "image/jpeg") (lit "AAAA");
                             inlinePart (lit "image/png") (lit "BBBB")])
             serverError))).
Proof.
  destruct (generateStoryboardImage_uses_first_inline_part
              (lit "a red apple")
              (freshWorld sampleKey
                 (answering
                    (partsResponse [textPart (lit "here it is");
                                    inlinePart (lit "image/jpeg") (lit "AAAA");
                                    inlinePart (lit "image/png") (lit "BBBB")])
                    serverError))
              eq_refl eq_refl) as [Hfirst _].
  apply (Hfirst [textPart (lit "here it is")]
           (inlinePart (lit "image/jpeg") (lit "AAAA"))
           [inlinePart (lit "image/png") (lit "BBBB")]
           {| mimeType := Some (lit "image/jpeg"); data := Some (lit "AAAA") |}).
  - reflexivity.
  - repeat constructor.
  - reflexivity.
Defined.

(** ** Multi-speaker speech *)

Lemma executeWithRetry_resolved_inv {T} (fn : Async T) retries baseDelay w a w' :
  executeWithRetry fn retries baseDelay w = (Resolved a, w') ->
  exists w1, fn w1 = (Resolved a, w').
Proof.
  revert baseDelay w. induction retries as [|retries IH]; intros baseDelay w H.
  - destruct (fn w) as [[a0 | e |] w0] eqn:E.
    + rewrite (executeWithRetry_resolved fn 0 baseDelay w E) in H.
      exists w. congruence.
    + rewrite (executeWithRetry_exhausted fn baseDelay w E) in H. discriminate.
    + rewrite (executeWithRetry_pending fn 0 baseDelay w E) in H. discriminate.
  - destruct (fn w) as [[a0 | e |] w0] eqn:E.
    + rewrite (executeWithRetry_resolved fn (S retries) baseDelay w E) in H.
      exists w. congruence.
    + destruct (isQuotaError e) eqn:Hq.
      * rewrite (executeWithRetry_retry fn retries baseDelay w E Hq) in H.
        exact (IH _ _ H).
      * rewrite (executeWithRetry_other_error fn (S retries) baseDelay w E Hq) in H.
        discriminate.
    + rewrite (executeWithRetry_pending fn (S retries) baseDelay w E) in H.
      discriminate.
Qed.

Lemma confined_decoded (Q : Event -> Prop) decodeBase64 base64 :
  confined Q (decoded decodeBase64 base64).
Proof.
  unfold decoded. destruct (decodeBase64 base64);
    [apply confined_throw | apply confined_ret].
Qed.

Lemma generateMultiSpeakerAudio_confined (Q : Event -> Prop) decodeBase64 script :
  (forall ai, Q (EvGenerateContent ai (generateMultiSpeakerAudio_request script))) ->
  (forall ms, Q (EvTimeout ms)) ->
  (forall msg, Q (EvConsoleWarn msg)) ->
  confined Q (generateMultiSpeakerAudio decodeBase64 script).
Proof.
  intros Hreq Ht Hw. apply confined_bind; [auto with confined|].
  intros ai. apply confined_executeWithRetry; try assumption.
  apply confined_bind; [auto with confined|].
  intros response. destruct (firstInlineData response) as [[|c base64]|];
    auto with confined.
  apply confined_bind; [apply confined_decoded | auto with confined].
Qed.

Lemma generateMultiSpeakerAudio_resolved_inv decodeBase64 script w b w' :
  generateMultiSpeakerAudio decodeBase64 script w = (Resolved b, w') ->
  exists pcmData, b = monoContainer pcmData.
Proof.
  unfold generateMultiSpeakerAudio, bind at 1.
  destruct (getAiClient w) as [[ai | e |] w0]; try discriminate.
  intros H. apply executeWithRetry_resolved_inv in H. destruct H as [w1 H].
  unfold bind at 1 in H.
  destruct (ai_generateContent ai (generateMultiSpeakerAudio_request script) w1)
    as [[response | e |] w2]; try discriminate.
  destruct (firstInlineData response) as [[|c base64]|]; try discriminate.
  unfold bind, decoded in H.
  destruct (decodeBase64 (c :: base64)) as [e | pcmData];
    cbv beta iota delta [throw ret] in H; [discriminate|].
  exists pcmData. injection H as <- _. reflexivity.
Qed.

Lemma generateMultiSpeakerAudio_resolved decodeBase64 script w response c base64
      pcmData :
  isEmpty (runtimeApiKey w) = false ->
  let ai := {| apiKey := trim (removeNonPrintable (runtimeApiKey w)) |} in
  onGenerateContent (remote w) (log w) ai (generateMultiSpeakerAudio_request script)
  = Resolved response ->
  firstInlineData response = Some (c :: base64) ->
  decodeBase64 (c :: base64) = inr pcmData ->
  generateMultiSpeakerAudio decodeBase64 script w
  = (Resolved (monoContainer pcmData),
     record (EvGenerateContent ai (generateMultiSpeakerAudio_request script)) w).
Proof.
  intros Hkey ai Hremote Hdata Hdecode.
  unfold generateMultiSpeakerAudio, bind at 1.
  rewrite (getAiClient_configured w Hkey). apply executeWithRetry_resolved.
  unfold bind at 1. unfold ai_generateContent. fold ai. rewrite Hremote, Hdata.
  unfold bind, decoded. rewrite Hdecode. reflexivity.
Qed.

Lemma twoSpeakers_mapping :
  map (fun c => (speaker c, prebuiltVoiceName (voiceConfig c))) twoSpeakers
  = [(lit "علی", lit "Puck"); (lit "رضا", lit "Kore")]
  /\ lit "علی" <> lit "رضا"
  /\ lit "Puck" <> lit "Kore".
Proof.
  split; [reflexivity|].
  split; intros H; vm_compute in H; discriminate H.
Qed.

(** C9.  Multi-speaker synthesis, for every script (two lines or not):
    whenever the stage resolves, its blob is an audio container with a
    sample rate of 24000 and 1 channel, and it does resolve, after one
    remote call, when the response carries a non-empty inline payload in
    the first part of its first candidate and that payload decodes.  Every
    request the stage sends maps the same two speaker labels to the same
    two voices; the labels differ, the voices differ, and neither depends
    on the script. *)
Theorem generateMultiSpeakerAudio_fixed_format :
  forall (decodeBase64 : jsstring -> JsError + list N) (script : jsstring)
         (w : World),
    (forall b w',
        generateMultiSpeakerAudio decodeBase64 script w = (Resolved b, w') ->
        exists pcmData,
          b = WavBlob {| sampleRate := 24000; numChannels := 1; pcm := pcmData |})
    /\ (forall response c base64 pcmData,
           isEmpty (runtimeApiKey w) = false ->
           let ai := {| apiKey := trim (removeNonPrintable (runtimeApiKey w)) |} in
           onGenerateContent (remote w) (log w) ai
             (generateMultiSpeakerAudio_request script) = Resolved response ->
           firstInlineData response = Some (c :: base64) ->
           decodeBase64 (c :: base64) = inr pcmData ->
           generateMultiSpeakerAudio decodeBase64 script w
           = (Resolved
                (WavBlob {| sampleRate := 24000; numChannels := 1; pcm := pcmData |}),
              record
                (EvGenerateContent ai (generateMultiSpeakerAudio_request script)) w))
    /\ confined
         (requestsSatisfy
            (fun p => speechConfigOf p = Some (MultiSpeakerVoice twoSpeakers)))
         (generateMultiSpeakerAudio decodeBase64 script)
    /\ map (fun c => (speaker c, prebuiltVoiceName (voiceConfig c))) twoSpeakers
       = [(lit "علی", lit "Puck"); (lit "رضا", lit "Kore")]
    /\ lit "علی" <> lit "رضا"
    /\ lit "Puck" <> lit "Kore".
Proof.
  intros decodeBase64 script w.
  split; [intros b w'; apply generateMultiSpeakerAudio_resolved_inv|].
  split; [intros response c base64 pcmData;
          apply generateMultiSpeakerAudio_resolved|].
  split; [|exact twoSpeakers_mapping].
  apply generateMultiSpeakerAudio_confined; try (intros; exact I).
  intros ai. reflexivity.
Qed.

Lemma generateMultiSpeakerAudio_fixed_format_witness :
  generateMultiSpeakerAudio (fun _ => inr [0; 1; 255; 127]%N)
    (lit "علی: سلام")
    (freshWorld sampleKey
       (answering (partsResponse [inlinePart (lit "audio/L16") (lit "AAH/fw==")])
          serverError))
  = (Resolved
       (WavBlob {| sampleRate := 24000; numChannels := 1;
                   pcm := [0; 1; 255; 127]%N |}),
     record
       (EvGenerateContent sampleClient
          (generateMultiSpeakerAudio_request (lit "علی: سلام")))
       (freshWorld sampleKey
          (answering (partsResponse [inlinePart (lit "audio/L16") (lit "AAH/fw==")])
             serverError))).
Proof.
  destruct (generateMultiSpeakerAudio_fixed_format
              (fun _ => inr [0; 1; 255; 127]%N) (lit "علی: سلام")
              (freshWorld sampleKey
                 (answering
                    (partsResponse [inlinePart (lit "audio/L16") (lit "AAH/fw==")])
                    serverError))) as (_ & Hresolves & _).
  apply (Hresolves
           (partsResponse [inlinePart (lit "audio/L16") (lit "AAH/fw==")])
           65%N (lit "AH/fw==") [0; 1; 255; 127]%N);
    reflexivity.
Defined.

(** ** The video job *)

Lemma isQuotaError_VideoFailed : isQuotaError VideoFailed = false.
Proof. vm_compute. reflexivity. Qed.

Lemma ai_generateVideos_world ai params w o w' :
  ai_generateVideos ai params w = (o, w') ->
  w' = record (EvGenerateVideos ai params) w.
Proof. unfold ai_generateVideos. congruence. Qed.

Lemma ai_getVideosOperation_world ai operation w o w' :
  ai_getVideosOperation ai operation w = (o, w') ->
  w' = record (EvGetVideosOperation ai operation) w.
Proof. unfold ai_getVideosOperation. congruence. Qed.

Lemma fetch_world url w o w' :
  fetch url w = (o, w') -> w' = record (EvFetch url) w.
Proof. unfold fetch. congruence. Qed.

(** The loop follows the job to its end when it has enough fuel. *)
Lemma pollUntilDone_polls ai n op w op' w' :
  polls ai n op w op' w' ->
  forall fuel, (n <= fuel)%nat ->
    pollUntilDone fuel ai op w = (Resolved op', w').
Proof.
  induction 1 as [op w Hdone | n op w op1 w1 op' w' Hpending Hfetch _ IH];
    intros fuel Hfuel.
  - destruct fuel; simpl; now rewrite Hdone.
  - destruct fuel as [|fuel]; [lia|]. simpl. rewrite Hpending.
    unfold bind at 1. unfold timeout at 1. cbv beta iota.
    unfold bind at 1. rewrite Hfetch. apply IH. lia.
Qed.

Lemma polls_ends_done ai n op w op' w' :
  polls ai n op w op' w' -> isDone op' = true.
Proof. induction 1; assumption. Qed.

(** What the polling rounds add to the log: [n] waits and [n] status
    fetches, and no fetch of a result. *)
Lemma polls_log ai n op w op' w' :
  polls ai n op w op' w' ->
  runtimeApiKey w' = runtimeApiKey w
  /\ remote w' = remote w
  /\ exists evs,
       log w' = log w ++ evs
       /\ Forall (fun ev => isFetch ev = false) evs
       /\ statusFetches evs = n
       /\ timeoutsOf evs = repeat 5000%Z n.
Proof.
  induction 1 as [op w Hdone | n op w op1 w1 op' w' Hpending Hfetch _ IH].
  - repeat split. exists []. now rewrite app_nil_r.
  - destruct IH as (Hk & Hr & evs & Hlog & Hnf & Hcount & Hwaits).
    apply ai_getVideosOperation_world in Hfetch. subst w1.
    split; [exact Hk|]. split; [exact Hr|].
    exists (EvTimeout 5000 :: EvGetVideosOperation ai op :: evs).
    split; [|split; [|split]].
    + rewrite Hlog. simpl. now rewrite <- !app_assoc.
    + now repeat constructor.
    + unfold statusFetches in *. simpl. now rewrite Hcount.
    + simpl. now rewrite Hwaits.
Qed.

Lemma confined_translateToEnglish (Q : Event -> Prop) text :
  (forall ai params, Q (EvGenerateContent ai params)) ->
  (forall ms, Q (EvTimeout ms)) ->
  (forall msg, Q (EvConsoleWarn msg)) ->
  confined Q (translateToEnglish text).
Proof.
  intros Hreq Ht Hw. apply confined_bind; [auto with confined|].
  intros ai. apply confined_executeWithRetry; try assumption.
  apply confined_bind; auto with confined.
Qed.

Lemma translateToEnglish_no_video_traffic text w :
  grows isNoVideoTraffic w (worldAfter (translateToEnglish text) w).
Proof.
  apply confined_translateToEnglish; intros; split; reflexivity.
Qed.

(** [generateVideo] once the credential is there and the prompt is
    translated: the executor around the job, with a budget of one retry. *)
Lemma generateVideo_translated fuel userPrompt imageBase64 resolution w english w1 :
  isEmpty (runtimeApiKey w) = false ->
  translateToEnglish userPrompt w = (Resolved english, w1) ->
  generateVideo fuel userPrompt imageBase64 resolution w
  = executeWithRetry
      (generateVideo_job fuel
         {| apiKey := trim (removeNonPrintable (runtimeApiKey w)) |}
         english imageBase64 resolution)
      1 defaultBaseDelay w1.
Proof.
  intros Hkey Htranslate. unfold generateVideo, bind at 1.
  rewrite (getAiClient_configured w Hkey). unfold bind at 1.
  now rewrite Htranslate.
Qed.

(** The job, once it is submitted and followed to its end. *)
Lemma generateVideo_job_polled fuel ai english imageBase64 resolution
      w1 op0 w2 n op w3 :
  ai_generateVideos ai (generateVideo_request english imageBase64 resolution) w1
  = (Resolved op0, w2) ->
  polls ai n op0 w2 op w3 ->
  (n <= fuel)%nat ->
  generateVideo_job fuel ai english imageBase64 resolution w1
  = match videoUriOf op with
    | Some ((_ :: _) as videoUri) =>
      (response <- fetch (videoUri ++ lit "&key=" ++ runtimeApiKey w3) ;;
       blob response) w3
    | _ => (Rejected VideoFailed, w3)
    end.
Proof.
  intros Hsubmit Hpolls Hfuel. unfold generateVideo_job, bind at 1.
  rewrite Hsubmit. unfold bind at 1.
  rewrite (pollUntilDone_polls Hpolls Hfuel).
  destruct (videoUriOf op) as [[|c u]|]; reflexivity.
Qed.

Lemma translateToEnglish_world text w english w1 :
  translateToEnglish text w = (Resolved english, w1) ->
  grows isNoVideoTraffic w w1.
Proof.
  intros H. pose proof (translateToEnglish_no_video_traffic text w) as Hg.
  unfold worldAfter in Hg. now rewrite H in Hg.
Qed.

(** C6.  A run of the video stage in which the job is pending when
    submitted, pending at the first status fetch and done with a result
    locator at the second: the stage resolves with the blob of the body
    fetched from the locator followed by ["&key="] and the credential.
    After the translation, its log grows by exactly the submission, two
    rounds of a wait of 5000 and a status fetch, and that one fetch; the
    translation itself adds no fetch and no status fetch. *)
Theorem generateVideo_two_status_fetches :
  forall (fuel : nat) (userPrompt imageBase64 : jsstring) (resolution : Resolution)
         (w w1 w2 w3 w4 w5 : World) (english : jsstring)
         (op0 op1 op2 : Operation) (c : N) (u : jsstring)
         (fetched : FetchResponse) (videoBlob : Blob),
    isEmpty (runtimeApiKey w) = false ->
    let ai := {| apiKey := trim (removeNonPrintable (runtimeApiKey w)) |} in
    let request := generateVideo_request english imageBase64 resolution in
    let url := (c :: u) ++ lit "&key=" ++ runtimeApiKey w in
    translateToEnglish userPrompt w = (Resolved english, w1) ->
    ai_generateVideos ai request w1 = (Resolved op0, w2) ->
    isDone op0 = false ->
    ai_getVideosOperation ai op0 (record (EvTimeout 5000) w2) = (Resolved op1, w3) ->
    isDone op1 = false ->
    ai_getVideosOperation ai op1 (record (EvTimeout 5000) w3) = (Resolved op2, w4) ->
    isDone op2 = true ->
    videoUriOf op2 = Some (c :: u) ->
    fetch url w4 = (Resolved fetched, w5) ->
    body fetched = Resolved videoBlob ->
    (2 <= fuel)%nat ->
    generateVideo fuel userPrompt imageBase64 resolution w
    = (Resolved videoBlob, w5)
    /\ log w5
       = log w1
         ++ [EvGenerateVideos ai request;
             EvTimeout 5000; EvGetVideosOperation ai op0;
             EvTimeout 5000; EvGetVideosOperation ai op1;
             EvFetch url]
    /\ exists translation,
         log w1 = log w ++ translation
         /\ Forall isNoVideoTraffic translation.
Proof.
  intros fuel userPrompt imageBase64 resolution w w1 w2 w3 w4 w5 english
         op0 op1 op2 c u fetched videoBlob Hkey ai request url
         Htranslate Hsubmit Hp0 Hfetch1 Hp1 Hfetch2 Hdone Huri Hfetch Hbody Hfuel.
  assert (Hpolls : polls ai 2 op0 w2 op2 w4).
  { eapply polls_pending; [exact Hp0 | exact Hfetch1|].
    eapply polls_pending; [exact Hp1 | exact Hfetch2|].
    now apply polls_done. }
  destruct (@translateToEnglish_world _ _ _ _ Htranslate) as (Hk1 & _ & tevs & Hl1 & Ht).
  destruct (@polls_log _ _ _ _ _ _ Hpolls) as (Hk4 & _).
  pose proof (@ai_generateVideos_world _ _ _ _ _ Hsubmit) as Hw2.
  assert (Hkey4 : runtimeApiKey w4 = runtimeApiKey w).
  { rewrite Hk4, Hw2. exact Hk1. }
  split; [|split].
  - rewrite (@generateVideo_translated fuel userPrompt imageBase64 resolution
               w english w1 Hkey Htranslate).
    apply executeWithRetry_resolved. fold ai.
    rewrite (@generateVideo_job_polled fuel ai english imageBase64 resolution
               _ _ _ _ _ _ Hsubmit Hpolls Hfuel).
    rewrite Huri, Hkey4. fold url. unfold bind. rewrite Hfetch.
    unfold blob. now rewrite Hbody.
  - apply fetch_world in Hfetch.
    apply ai_getVideosOperation_world in Hfetch2.
    apply ai_getVideosOperation_world in Hfetch1.
    subst w5 w4 w3 w2. simpl. now rewrite <- !app_assoc.
  - exists tevs. now split.
Qed.

(** C7.  A run of the video stage in which the job, after any number of
    pending rounds, is done without a result locator: the stage is
    rejected with the video-failed error in the very world in which the
    job was found done, so nothing happens after that, and the log of the
    whole run holds no fetch of a result. *)
Theorem generateVideo_fails_without_locator :
  forall (fuel n : nat) (userPrompt imageBase64 : jsstring)
         (resolution : Resolution) (w w1 w2 w3 : World) (english : jsstring)
         (op0 op : Operation),
    isEmpty (runtimeApiKey w) = false ->
    let ai := {| apiKey := trim (removeNonPrintable (runtimeApiKey w)) |} in
    translateToEnglish userPrompt w = (Resolved english, w1) ->
    ai_generateVideos ai (generateVideo_request english imageBase64 resolution) w1
    = (Resolved op0, w2) ->
    polls ai n op0 w2 op w3 ->
    videoUriOf op = None \/ videoUriOf op = Some [] ->
    (n <= fuel)%nat ->
    generateVideo fuel userPrompt imageBase64 resolution w
    = (Rejected VideoFailed, w3)
    /\ isDone op = true
    /\ exists evs,
         log w3 = log w ++ evs
         /\ Forall (fun ev => isFetch ev = false) evs.
Proof.
  intros fuel n userPrompt imageBase64 resolution w w1 w2 w3 english op0 op
         Hkey ai Htranslate Hsubmit Hpolls Huri Hfuel.
  split; [|split].
  - rewrite (@generateVideo_translated fuel userPrompt imageBase64 resolution
               w english w1 Hkey Htranslate).
    apply executeWithRetry_other_error; [|exact isQuotaError_VideoFailed].
    fold ai.
    rewrite (@generateVideo_job_polled fuel ai english imageBase64 resolution
               _ _ _ _ _ _ Hsubmit Hpolls Hfuel).
    destruct Huri as [Huri | Huri]; now rewrite Huri.
  - exact (@polls_ends_done _ _ _ _ _ _ Hpolls).
  - destruct (@translateToEnglish_world _ _ _ _ Htranslate) as (_ & _ & tevs & Hl1 & Ht).
    destruct (@polls_log _ _ _ _ _ _ Hpolls) as (_ & _ & pevs & Hl3 & Hp & _).
    apply ai_generateVideos_world in Hsubmit. subst w2.
    exists (tevs ++ EvGenerateVideos ai
                      (generateVideo_request english imageBase64 resolution)
                 :: pevs).
    split.
    + rewrite Hl3. simpl. rewrite Hl1. now rewrite <- !app_assoc.
    + apply Forall_app. split.
      * eapply Forall_impl; [|exact Ht]. now intros ev [Hf _].
      * now constructor.
Qed.

Lemma generateVideo_two_status_fetches_witness :
  generateVideo 2 (lit "گربه می‌دود") [] Res720p twoRoundsWorld
  = (Resolved sampleVideo,
     record (EvFetch (sampleLocator ++ lit "&key=" ++ sampleKey))
       (polled pendingJob (polled pendingJob (submitted twoRoundsWorld)))).
Proof.
  destruct (@generateVideo_two_status_fetches
              2 (lit "گربه می‌دود") [] Res720p
              twoRoundsWorld
              (worldAfter (translateToEnglish (lit "گربه می‌دود")) twoRoundsWorld)
              (submitted twoRoundsWorld)
              (polled pendingJob (submitted twoRoundsWorld))
              (polled pendingJob (polled pendingJob (submitted twoRoundsWorld)))
              (record (EvFetch (sampleLocator ++ lit "&key=" ++ sampleKey))
                 (polled pendingJob (polled pendingJob (submitted twoRoundsWorld))))
              (lit "a cat runs")
              pendingJob pendingJob (finishedJob sampleLocator)
              104%N (lit "ttps://video.example/v.mp4?alt=media")
              {| body := Resolved sampleVideo |} sampleVideo)
    as (Hrun & _).
  - vm_compute. reflexivity.
  - vm_compute. reflexivity.
  - vm_compute. reflexivity.
  - reflexivity.
  - vm_compute. reflexivity.
  - reflexivity.
  - vm_compute. reflexivity.
  - reflexivity.
  - vm_compute. reflexivity.
  - vm_compute. reflexivity.
  - reflexivity.
  - lia.
  - exact Hrun.
Defined.

Lemma generateVideo_fails_without_locator_witness :
  generateVideo 4 (lit "گربه می‌دود") [] Res720p noResultWorld
  = (Rejected VideoFailed, polled pendingJob (submitted noResultWorld)).
Proof.
  apply (@generateVideo_fails_without_locator
           4 1 (lit "گربه می‌دود") [] Res720p
           noResultWorld
           (worldAfter (translateToEnglish (lit "گربه می‌دود")) noResultWorld)
           (submitted noResultWorld)
           (polled pendingJob (submitted noResultWorld))
           (lit "a cat runs") pendingJob emptyJob).
  - vm_compute. reflexivity.
  - vm_compute. reflexivity.
  - vm_compute. reflexivity.
  - apply (@polls_pending sampleClient 0 pendingJob (submitted noResultWorld)
             emptyJob (polled pendingJob (submitted noResultWorld))).
    + reflexivity.
    + vm_compute. reflexivity.
    + apply polls_done. reflexivity.
  - left. reflexivity.
  - lia.
Defined.

(** * Further properties *)

(** ** The retry executor in general *)

Lemma executeWithRetry_settled {T} (fn : Async T) retries baseDelay w :
  retries = 0%nat \/ notRateLimited fn w ->
  executeWithRetry fn retries baseDelay w = fn w.
Proof.
  intros H. destruct (fn w) as [[a | e |] w1] eqn:E.
  - now apply executeWithRetry_resolved.
  - destruct H as [-> | H].
    + now apply executeWithRetry_exhausted.
    + apply executeWithRetry_other_error; [exact E|].
      apply H. unfold notRateLimited in H. now rewrite E.
  - now apply executeWithRetry_pending.
Qed.

Lemma executeWithRetry_skips_rate_limited {T} (fn : Async T) k retries baseDelay
      w w' :
  rateLimitedAttempts fn k retries baseDelay w w' ->
  executeWithRetry fn retries baseDelay w
  = executeWithRetry fn (retries - k) (baseDelay * 2 ^ Z.of_nat k) w'.
Proof.
  induction 1 as [retries baseDelay w
                 | k retries baseDelay w e w1 w' Hfn Hq _ IH].
  - rewrite Nat.sub_0_r. change (2 ^ Z.of_nat 0)%Z with 1%Z.
    now rewrite Z.mul_1_r.
  - rewrite (executeWithRetry_retry fn retries baseDelay w Hfn Hq), IH.
    cbn [Nat.sub]. f_equal.
    rewrite Nat2Z.inj_succ, Z.pow_succ_r by lia. lia.
Qed.

Lemma rateLimitedAttempts_budget {T} (fn : Async T) k retries baseDelay w w' :
  rateLimitedAttempts fn k retries baseDelay w w' -> (k <= retries)%nat.
Proof. induction 1; lia. Qed.

(** Every run of the executor is a number of rate-limited attempts
    followed by one attempt that settles it. *)
Lemma executeWithRetry_decomposes {T} (fn : Async T) retries baseDelay w :
  exists k w',
    rateLimitedAttempts fn k retries baseDelay w w'
    /\ (k = retries \/ notRateLimited fn w').
Proof.
  revert baseDelay w. induction retries as [|retries IH]; intros baseDelay w.
  - exists 0%nat, w. split; [constructor | now left].
  - destruct (fn w) as [[a | e |] w1] eqn:E.
    + exists 0%nat, w. split; [constructor|]. right. intros e He.
      rewrite E in He. discriminate.
    + destruct (isQuotaError e) eqn:Hq.
      * destruct (IH (baseDelay * 2)%Z (pause baseDelay (S retries) w1))
          as (k & w' & Hk & Hend).
        exists (S k), w'. split; [econstructor; eassumption|].
        destruct Hend as [-> | Hend]; [now left | now right].
      * exists 0%nat, w. split; [constructor|]. right. intros e' He.
        rewrite E in He. simpl in He. congruence.
    + exists 0%nat, w. split; [constructor|]. right. intros e He.
      rewrite E in He. discriminate.
Qed.

(** X1.  The outcome of the executor is the outcome of the first attempt
    that is not rejected with a rate-limit error, or of the last attempt
    the budget allows: when [k] attempts in a row are rate limited, and
    either the budget is [k] or the next attempt is not rate limited, the
    executor ends as that next attempt ends, in the world it leaves. *)
Theorem executeWithRetry_ends_with_settling_attempt :
  forall (T : Type) (fn : Async T) (k retries : nat) (baseDelay : Z)
         (w w' : World),
    rateLimitedAttempts fn k retries baseDelay w w' ->
    k = retries \/ notRateLimited fn w' ->
    executeWithRetry fn retries baseDelay w = fn w'.
Proof.
  intros T fn k retries baseDelay w w' Hk Hend.
  rewrite (executeWithRetry_skips_rate_limited Hk).
  apply executeWithRetry_settled.
  destruct Hend as [-> | Hend]; [left; lia | now right].
Qed.

Lemma executeWithRetry_ends_with_settling_attempt_witness :
  executeWithRetry sampleCall 3 2000
    (freshWorld sampleKey (flakyRemote 2 tooManyRequests (textResponse (lit "ok"))))
  = sampleCall
      (pause 4000 2
         (called
            (pause 2000 3
               (called
                  (freshWorld sampleKey
                     (flakyRemote 2 tooManyRequests (textResponse (lit "ok")))))))).
Proof.
  apply (@executeWithRetry_ends_with_settling_attempt _ sampleCall 2 3 2000).
  - eapply rateLimited_more; [reflexivity | vm_compute; reflexivity|].
    eapply rateLimited_more; [reflexivity | vm_compute; reflexivity|].
    apply rateLimited_none.
  - right. intros e He. vm_compute in He. discriminate He.
Defined.

Lemma timeoutsOf_app (a b : list Event) :
  timeoutsOf (a ++ b) = timeoutsOf a ++ timeoutsOf b.
Proof. apply flat_map_app. Qed.

Lemma timeoutsOf_none (evs : list Event) :
  Forall (fun ev => isTimeout ev = false) evs -> timeoutsOf evs = [].
Proof.
  induction 1 as [|ev evs Hev _ IH]; [reflexivity|].
  destruct ev; try discriminate; exact IH.
Qed.

Lemma rateLimitedAttempts_log {T} (fn : Async T) k retries baseDelay w w' :
  confined (fun ev => isTimeout ev = false) fn ->
  rateLimitedAttempts fn k retries baseDelay w w' ->
  exists evs,
    log w' = log w ++ evs
    /\ timeoutsOf evs = backoffDelays baseDelay k.
Proof.
  intros Hfn. induction 1 as [retries baseDelay w
                             | k retries baseDelay w e w1 w' Hrun Hq _ IH].
  - exists []. now rewrite app_nil_r.
  - destruct IH as (evs & Hlog & Hwaits).
    destruct (Hfn w) as (_ & _ & evs1 & Hlog1 & Hnone).
    unfold worldAfter in Hlog1. rewrite Hrun in Hlog1. simpl in Hlog1.
    exists (evs1
            ++ [EvConsoleWarn (quotaWarning baseDelay (S retries));
                EvTimeout baseDelay]
            ++ evs).
    split.
    + rewrite Hlog, log_pause, Hlog1. now rewrite <- !app_assoc.
    + rewrite !timeoutsOf_app, (timeoutsOf_none Hnone), Hwaits. reflexivity.
Qed.

Lemma totalDelay_backoffDelays (baseDelay : Z) (k : nat) :
  totalDelay (backoffDelays baseDelay k) = (baseDelay * (2 ^ Z.of_nat k - 1))%Z.
Proof.
  revert baseDelay. induction k as [|k IH]; intros baseDelay.
  - simpl. lia.
  - cbn [backoffDelays totalDelay fold_right]. fold (totalDelay (backoffDelays (baseDelay * 2) k)).
    rewrite IH, Nat2Z.inj_succ, Z.pow_succ_r by lia. lia.
Qed.

(** X2.  Whatever the operation does, as long as it does not wait itself:
    the waits of one run of the executor are the first [k] terms of
    [baseDelay], [2 * baseDelay], [4 * baseDelay], ..., for some [k] that
    is at most the budget; so the executor never waits more often than
    the budget says and, for a delay that is not negative, never longer in
    total than [baseDelay * (2 ^ retries - 1)]. *)
Theorem executeWithRetry_backoff_schedule :
  forall (T : Type) (fn : Async T) (retries : nat) (baseDelay : Z) (w : World),
    confined (fun ev => isTimeout ev = false) fn ->
    exists k evs,
      (k <= retries)%nat
      /\ log (worldAfter (executeWithRetry fn retries baseDelay) w) = log w ++ evs
      /\ timeoutsOf evs = backoffDelays baseDelay k
      /\ ((0 <= baseDelay)%Z ->
          (totalDelay (timeoutsOf evs)
           <= baseDelay * (2 ^ Z.of_nat retries - 1))%Z).
Proof.
  intros T fn retries baseDelay w Hfn.
  destruct (executeWithRetry_decomposes fn retries baseDelay w)
    as (k & w' & Hk & Hend).
  pose proof (rateLimitedAttempts_budget Hk) as Hle.
  destruct (rateLimitedAttempts_log Hfn Hk) as (evs1 & Hlog1 & Hwaits).
  destruct (Hfn w') as (_ & _ & evs2 & Hlog2 & Hnone).
  exists k, (evs1 ++ evs2).
  assert (Htimeouts : timeoutsOf (evs1 ++ evs2) = backoffDelays baseDelay k).
  { rewrite timeoutsOf_app, (timeoutsOf_none Hnone), Hwaits. apply app_nil_r. }
  split; [exact Hle|]. split; [|split; [exact Htimeouts|]].
  - unfold worldAfter at 1.
    rewrite (executeWithRetry_skips_rate_limited Hk), executeWithRetry_settled.
    + fold (worldAfter fn w'). rewrite Hlog2, Hlog1. now rewrite <- app_assoc.
    + destruct Hend as [-> | Hend]; [left; lia | now right].
  - intros Hpos. rewrite Htimeouts, totalDelay_backoffDelays.
    apply Z.mul_le_mono_nonneg_l; [exact Hpos|].
    assert (2 ^ Z.of_nat k <= 2 ^ Z.of_nat retries)%Z
      by (apply Z.pow_le_mono_r; lia).
    lia.
Qed.

Lemma executeWithRetry_backoff_schedule_witness :
  exists k evs,
    (k <= 3)%nat
    /\ log (worldAfter (executeWithRetry sampleCall 3 2000)
              (freshWorld sampleKey (rejecting tooManyRequests)))
       = log (freshWorld sampleKey (rejecting tooManyRequests)) ++ evs
    /\ timeoutsOf evs = backoffDelays 2000 k
    /\ ((0 <= 2000)%Z ->
        (totalDelay (timeoutsOf evs) <= 2000 * (2 ^ Z.of_nat 3 - 1))%Z).
Proof.
  apply (@executeWithRetry_backoff_schedule _ sampleCall 3 2000
           (freshWorld sampleKey (rejecting tooManyRequests))).
  apply confined_generateContent. reflexivity.
Defined.

(** ** How many calls a stage can make *)

Lemma countEvents_app (p : Event -> bool) (a b : list Event) :
  countEvents p (a ++ b) = (countEvents p a + countEvents p b)%nat.
Proof. unfold countEvents. now rewrite filter_app, length_app. Qed.

Lemma addsAtMost_weaken {A} (p : Event -> bool) (c c' : nat) (m : Async A) :
  (c <= c')%nat -> addsAtMost p c m -> addsAtMost p c' m.
Proof.
  intros Hle Hm w. destruct (Hm w) as (evs & Hlog & Hc).
  exists evs. split; [exact Hlog | lia].
Qed.

Lemma addsAtMost_still {A} (p : Event -> bool) (m : Async A) :
  (forall w, worldAfter m w = w) -> addsAtMost p 0 m.
Proof.
  intros Hm w. exists []. rewrite Hm, app_nil_r. split; [reflexivity|].
  unfold countEvents. simpl. lia.
Qed.

Lemma addsAtMost_ret {A} (p : Event -> bool) (a : A) : addsAtMost p 0 (ret a).
Proof. now apply addsAtMost_still. Qed.

Lemma addsAtMost_throw {A} (p : Event -> bool) (e : JsError) :
  addsAtMost p 0 (@throw A e).
Proof. now apply addsAtMost_still. Qed.

Lemma addsAtMost_getAiClient (p : Event -> bool) : addsAtMost p 0 getAiClient.
Proof.
  apply addsAtMost_still. intros w.
  unfold worldAfter, getAiClient, bind, readRuntimeApiKey.
  now destruct (isEmpty (runtimeApiKey w)).
Qed.

Lemma addsAtMost_record {A} (p : Event -> bool) (ev : Event) (m : Async A) :
  (forall w, worldAfter m w = record ev w) -> addsAtMost p 1 m.
Proof.
  intros Hm w. exists [ev]. rewrite Hm. split; [reflexivity|].
  unfold countEvents. simpl. destruct (p ev); simpl; lia.
Qed.

Lemma addsAtMost_unseen {A} (p : Event -> bool) (ev : Event) (m : Async A) :
  p ev = false -> (forall w, worldAfter m w = record ev w) -> addsAtMost p 0 m.
Proof.
  intros Hp Hm w. exists [ev]. rewrite Hm. split; [reflexivity|].
  unfold countEvents. simpl. now rewrite Hp.
Qed.

Lemma addsAtMost_bind {A B} (p : Event -> bool) (c1 c2 : nat) (m : Async A)
      (k : A -> Async B) :
  addsAtMost p c1 m -> (forall a, addsAtMost p c2 (k a)) ->
  addsAtMost p (c1 + c2) (bind m k).
Proof.
  intros Hm Hk w. destruct (Hm w) as (evs1 & Hlog1 & Hc1).
  unfold worldAfter, bind in *. destruct (m w) as [[a | e |] w1]; simpl in *.
  - destruct (Hk a w1) as (evs2 & Hlog2 & Hc2). exists (evs1 ++ evs2).
    unfold worldAfter in Hlog2. rewrite Hlog2, Hlog1, countEvents_app. split; [now rewrite app_assoc | lia].
  - exists evs1. split; [exact Hlog1 | lia].
  - exists evs1. split; [exact Hlog1 | lia].
Qed.

Lemma addsAtMost_tryCatch {A} (p : Event -> bool) (c1 c2 : nat) (m : Async A)
      (handler : JsError -> Async A) :
  addsAtMost p c1 m -> (forall e, addsAtMost p c2 (handler e)) ->
  addsAtMost p (c1 + c2) (tryCatch m handler).
Proof.
  intros Hm Hh w. destruct (Hm w) as (evs1 & Hlog1 & Hc1).
  unfold worldAfter, tryCatch in *. destruct (m w) as [[a | e |] w1]; simpl in *.
  - exists evs1. split; [exact Hlog1 | lia].
  - destruct (Hh e w1) as (evs2 & Hlog2 & Hc2). exists (evs1 ++ evs2).
    unfold worldAfter in Hlog2. rewrite Hlog2, Hlog1, countEvents_app. split; [now rewrite app_assoc | lia].
  - exists evs1. split; [exact Hlog1 | lia].
Qed.

(** With a budget of [retries], the executor multiplies what one attempt
    can add by at most [retries + 1]. *)
Lemma addsAtMost_executeWithRetry {T} (p : Event -> bool) (c : nat) (fn : Async T)
      (retries : nat) (baseDelay : Z) :
  (forall ms, p (EvTimeout ms) = false) ->
  (forall msg, p (EvConsoleWarn msg) = false) ->
  addsAtMost p c fn ->
  addsAtMost p (S retries * c) (executeWithRetry fn retries baseDelay).
Proof.
  intros Ht Hw Hfn. revert baseDelay.
  induction retries as [|retries IH]; intros baseDelay; cbn [executeWithRetry].
  - apply (addsAtMost_weaken (c := c + 0)); [lia|].
    apply addsAtMost_tryCatch; [exact Hfn|]. intros e. apply addsAtMost_throw.
  - apply (addsAtMost_weaken (c := c + S retries * c)); [lia|].
    apply addsAtMost_tryCatch; [exact Hfn|]. intros e.
    destruct (isQuotaError e).
    + apply (addsAtMost_weaken (c := 0 + (0 + S retries * c))); [lia|].
      apply addsAtMost_bind;
        [eapply addsAtMost_unseen; [apply Hw | intros w; reflexivity]|].
      intros _. apply addsAtMost_bind;
        [eapply addsAtMost_unseen; [apply Ht | intros w; reflexivity]|].
      intros _. apply IH.
    + apply (addsAtMost_weaken (c := 0)); [lia | apply addsAtMost_throw].
Qed.

(** A stage: the credential check, then the executor with the default
    budget around an operation that depends on the client. *)
Lemma addsAtMost_stage {A} (p : Event -> bool) (c : nat)
      (fn : GoogleGenAI -> Async A) :
  (forall ms, p (EvTimeout ms) = false) ->
  (forall msg, p (EvConsoleWarn msg) = false) ->
  (forall ai, addsAtMost p c (fn ai)) ->
  addsAtMost p (4 * c)
    (ai <- getAiClient ;; executeWithRetry (fn ai) defaultRetries defaultBaseDelay).
Proof.
  intros Ht Hw Hfn. apply (addsAtMost_weaken (c := 0 + 4 * c)); [lia|].
  apply addsAtMost_bind; [apply addsAtMost_getAiClient|].
  intros ai. now apply (addsAtMost_executeWithRetry 3 defaultBaseDelay Ht Hw).
Qed.

Lemma addsAtMost_generateContent (p : Event -> bool) ai params :
  addsAtMost p 1 (ai_generateContent ai params).
Proof. now apply (@addsAtMost_record _ p (EvGenerateContent ai params)). Qed.

(** One content request whose response is interpreted without any
    further event. *)
Lemma addsAtMost_one_request {A} (p : Event -> bool) ai params
      (k : GenerateContentResponse -> Async A) :
  (forall response, addsAtMost p 0 (k response)) ->
  addsAtMost p 1 (bind (ai_generateContent ai params) k).
Proof.
  intros Hk. apply (addsAtMost_weaken (c := 1 + 0)); [lia|].
  apply addsAtMost_bind; [apply addsAtMost_generateContent | exact Hk].
Qed.

Lemma addsAtMost_mapAsync {A B} (p : Event -> bool) (c : nat) (f : A -> B)
      (m : Async A) :
  addsAtMost p c m -> addsAtMost p c (mapAsync f m).
Proof.
  intros Hm. apply (addsAtMost_weaken (c := c + 0)); [lia|].
  apply addsAtMost_bind; [exact Hm|]. intros a. apply addsAtMost_ret.
Qed.

Lemma addsAtMost_decoded (p : Event -> bool) decodeBase64 base64 :
  addsAtMost p 0 (decoded decodeBase64 base64).
Proof.
  unfold decoded. destruct (decodeBase64 base64);
    [apply addsAtMost_throw | apply addsAtMost_ret].
Qed.

Lemma addsAtMost_audio (p : Event -> bool) decodeBase64 (e : JsError) response :
  addsAtMost p 0
    (match firstInlineData response with
     | Some ((_ :: _) as base64Audio) =>
       pcmData <- decoded decodeBase64 base64Audio ;;
       ret (pcmToWav pcmData 24000 1)
     | _ => throw e
     end).
Proof.
  destruct (firstInlineData response) as [[|c base64]|];
    try apply addsAtMost_throw.
  apply (addsAtMost_weaken (c := 0 + 0)); [lia|].
  apply addsAtMost_bind; [apply addsAtMost_decoded|].
  intros pcmData. apply addsAtMost_ret.
Qed.

Lemma isRemoteCall_timeout ms : isRemoteCall (EvTimeout ms) = false.
Proof. reflexivity. Qed.

Lemma isRemoteCall_console_warn msg : isRemoteCall (EvConsoleWarn msg) = false.
Proof. reflexivity. Qed.

Lemma addsAtMost_text_operation {A} (p : Event -> bool) ai params
      (f : GenerateContentResponse -> A) :
  addsAtMost p 1 (response <- ai_generateContent ai params ;; ret (f response)).
Proof. apply addsAtMost_one_request. intros response. apply addsAtMost_ret. Qed.

Lemma addsAtMost_image_operation (p : Event -> bool) ai params :
  addsAtMost p 1
    (tryCatch
       (response <- ai_generateContent ai params ;;
        let imageUrl :=
          scanForImage
            (match firstCandidateParts response with
             | Some ps => ps
             | None => []
             end) [] in
        if isEmpty imageUrl then throw (newError (lit "تصویر تولید نشد."))
        else ret imageUrl)
       (fun error => throw (generateStoryboardImage_rethrown error))).
Proof.
  apply (addsAtMost_weaken (c := 1 + 0)); [lia|].
  apply addsAtMost_tryCatch; [|intros e; apply addsAtMost_throw].
  apply addsAtMost_one_request. intros response. cbv zeta.
  destruct (isEmpty _); [apply addsAtMost_throw | apply addsAtMost_ret].
Qed.

(** X3.  A stage other than the video stage makes at most four remote
    calls per invocation, whatever the remote service answers: one
    attempt and at most three retries of its single content request. *)
Theorem stages_make_at_most_four_calls :
  forall (decodeBase64 : jsstring -> JsError + list N) (call : StageCall),
    isVideoCall call = false ->
    addsAtMost isRemoteCall 4 (invoke decodeBase64 call).
Proof.
  intros decodeBase64 call Hcall.
  destruct call; try discriminate Hcall; cbn [invoke];
    apply addsAtMost_mapAsync;
    apply (addsAtMost_stage (c := 1) _ isRemoteCall_timeout
             isRemoteCall_console_warn);
    intros ai;
    first [ apply addsAtMost_text_operation
          | apply addsAtMost_image_operation
          | apply addsAtMost_one_request; intros response;
            apply addsAtMost_audio ].
Qed.

Lemma stages_make_at_most_four_calls_witness :
  addsAtMost isRemoteCall 4
    (invoke (fun _ => inr []) (CallGenerateStoryboardImage (lit "a red apple"))).
Proof.
  apply (@stages_make_at_most_four_calls (fun _ => inr [])
           (CallGenerateStoryboardImage (lit "a red apple"))).
  reflexivity.
Defined.

Lemma addsAtMost_pollUntilDone (p : Event -> bool) fuel ai operation :
  (forall ms, p (EvTimeout ms) = false) ->
  (forall ai op, p (EvGetVideosOperation ai op) = false) ->
  addsAtMost p 0 (pollUntilDone fuel ai operation).
Proof.
  intros Ht Hs. revert operation.
  induction fuel as [|fuel IH]; intros operation; simpl;
    destruct (isDone operation); try apply addsAtMost_ret.
  - now apply addsAtMost_still.
  - apply (addsAtMost_weaken (c := 0 + (0 + 0))); [lia|].
    apply addsAtMost_bind;
      [eapply addsAtMost_unseen; [apply Ht | intros w; reflexivity]|].
    intros _. apply addsAtMost_bind;
      [eapply addsAtMost_unseen; [apply Hs | intros w; reflexivity]|].
    exact IH.
Qed.

(** One run of the video job: one submission, the polling, and at most
    one fetch of the result. *)
Lemma addsAtMost_generateVideo_job (p : Event -> bool) (cs cf : nat)
      fuel ai englishPrompt imageBase64 resolution :
  (forall ms, p (EvTimeout ms) = false) ->
  (forall ai op, p (EvGetVideosOperation ai op) = false) ->
  (forall ai params, addsAtMost p cs (ai_generateVideos ai params)) ->
  (forall url, addsAtMost p cf (fetch url)) ->
  addsAtMost p (cs + cf)
    (generateVideo_job fuel ai englishPrompt imageBase64 resolution).
Proof.
  intros Ht Hs Hsubmit Hfetch. unfold generateVideo_job.
  apply addsAtMost_bind; [apply Hsubmit|]. intros operation.
  apply (addsAtMost_weaken (c := 0 + cf)); [lia|].
  apply addsAtMost_bind; [now apply addsAtMost_pollUntilDone|].
  intros operation'.
  destruct (videoUriOf operation') as [[|c u]|];
    try (apply (addsAtMost_weaken (c := 0)); [lia | apply addsAtMost_throw]).
  apply (addsAtMost_weaken (c := 0 + (cf + 0))); [lia|].
  apply addsAtMost_bind; [now apply addsAtMost_still|]. intros key.
  apply addsAtMost_bind; [apply Hfetch|]. intros response.
  now apply addsAtMost_still.
Qed.

Lemma addsAtMost_translateToEnglish (p : Event -> bool) (c : nat) text :
  (forall ms, p (EvTimeout ms) = false) ->
  (forall msg, p (EvConsoleWarn msg) = false) ->
  (forall ai params, addsAtMost p c (ai_generateContent ai params)) ->
  addsAtMost p (4 * c) (translateToEnglish text).
Proof.
  intros Ht Hw Hcall. apply (addsAtMost_stage _ Ht Hw). intros ai.
  apply (addsAtMost_weaken (c := c + 0)); [lia|].
  apply addsAtMost_bind; [apply Hcall|]. intros response. apply addsAtMost_ret.
Qed.

Lemma addsAtMost_generateVideo (p : Event -> bool) (cc cs cf : nat)
      fuel userPrompt imageBase64 resolution :
  (forall ms, p (EvTimeout ms) = false) ->
  (forall msg, p (EvConsoleWarn msg) = false) ->
  (forall ai op, p (EvGetVideosOperation ai op) = false) ->
  (forall ai params, addsAtMost p cc (ai_generateContent ai params)) ->
  (forall ai params, addsAtMost p cs (ai_generateVideos ai params)) ->
  (forall url, addsAtMost p cf (fetch url)) ->
  addsAtMost p (4 * cc + 2 * (cs + cf))
    (generateVideo fuel userPrompt imageBase64 resolution).
Proof.
  intros Ht Hw Hs Hcontent Hsubmit Hfetch. unfold generateVideo.
  apply (addsAtMost_weaken (c := 0 + (4 * cc + 2 * (cs + cf)))); [lia|].
  apply addsAtMost_bind; [apply addsAtMost_getAiClient|]. intros ai.
  apply addsAtMost_bind; [now apply addsAtMost_translateToEnglish|].
  intros englishPrompt.
  apply (addsAtMost_executeWithRetry 1 defaultBaseDelay Ht Hw).
  now apply addsAtMost_generateVideo_job.
Qed.

(** X4.  One invocation of the video stage submits at most two video
    jobs and fetches at most two results, whatever the remote service
    answers and however long the polling lasts: the whole job is run once
    and retried at most once.  Its translation step makes at most four
    content requests. *)
Theorem generateVideo_submits_at_most_twice :
  forall (fuel : nat) (userPrompt imageBase64 : jsstring) (resolution : Resolution),
    addsAtMost isVideoSubmission 2
      (generateVideo fuel userPrompt imageBase64 resolution)
    /\ addsAtMost isFetch 2
         (generateVideo fuel userPrompt imageBase64 resolution)
    /\ addsAtMost isContentRequest 4
         (generateVideo fuel userPrompt imageBase64 resolution).
Proof.
  intros fuel userPrompt imageBase64 resolution. split; [|split].
  - apply (@addsAtMost_generateVideo isVideoSubmission 0 1 0);
      try reflexivity; intros.
    + now apply (@addsAtMost_unseen _ _ (EvGenerateContent ai params)).
    + now apply (@addsAtMost_record _ _ (EvGenerateVideos ai params)).
    + now apply (@addsAtMost_unseen _ _ (EvFetch url)).
  - apply (@addsAtMost_generateVideo isFetch 0 0 1);
      try reflexivity; intros.
    + now apply (@addsAtMost_unseen _ _ (EvGenerateContent ai params)).
    + now apply (@addsAtMost_unseen _ _ (EvGenerateVideos ai params)).
    + now apply (@addsAtMost_record _ _ (EvFetch url)).
  - apply (@addsAtMost_generateVideo isContentRequest 1 0 0);
      try reflexivity; intros.
    + now apply (@addsAtMost_record _ _ (EvGenerateContent ai params)).
    + now apply (@addsAtMost_unseen _ _ (EvGenerateVideos ai params)).
    + now apply (@addsAtMost_unseen _ _ (EvFetch url)).
Qed.

(** ** The stored credential *)

Lemma trimStart_unchanged (s : jsstring) :
  (forall c rest, s = c :: rest -> isWhiteSpace c = false) ->
  trimStart s = s.
Proof.
  destruct s as [|c s]; simpl; [reflexivity|].
  intros H. now rewrite (H c s eq_refl).
Qed.

Lemma trim_unchanged (s : jsstring) :
  (forall c rest, s = c :: rest -> isWhiteSpace c = false) ->
  (forall c front, s = front ++ [c] -> isWhiteSpace c = false) ->
  trim s = s.
Proof.
  intros Hhead Hlast. unfold trim, trimEnd.
  rewrite (trimStart_unchanged Hhead), trimStart_unchanged;
    [apply rev_involutive|].
  intros c rest Hrev. apply (Hlast c (rev rest)).
  rewrite <- (rev_involutive s), Hrev. reflexivity.
Qed.

Lemma trim_idempotent (s : jsstring) : trim (trim s) = trim s.
Proof.
  destruct (trim_trimmedOf s) as (leading & trailing & _ & _ & _ & Hhead & Hlast).
  now apply trim_unchanged.
Qed.

Lemma trimStart_all_whitespace (s : jsstring) :
  trimStart s = [] <-> Forall (fun c => isWhiteSpace c = true) s.
Proof.
  induction s as [|c s IH]; simpl.
  - split; [constructor | reflexivity].
  - destruct (isWhiteSpace c) eqn:Hc.
    + rewrite IH. split; [now constructor | now inversion 1].
    + split; [discriminate | inversion 1; congruence].
Qed.

Lemma trim_all_whitespace (s : jsstring) :
  trim s = [] <-> Forall (fun c => isWhiteSpace c = true) s.
Proof.
  split.
  - intros H. destruct (trim_trimmedOf s) as (leading & trailing & Hs & Hl & Ht & _).
    rewrite H in Hs. rewrite Hs. apply Forall_app. now split.
  - intros H. unfold trim, trimEnd.
    apply trimStart_all_whitespace in H. now rewrite H.
Qed.

Lemma trim_keeps (P : N -> Prop) (s : jsstring) :
  Forall P s -> Forall P (trim s).
Proof.
  intros H. destruct (trim_trimmedOf s) as (leading & trailing & Hs & _).
  rewrite Hs in H. apply Forall_app in H. destruct H as [_ H].
  apply Forall_app in H. now destruct H.
Qed.

Lemma removeNonPrintable_printable (s : jsstring) :
  Forall (fun c => isPrintableAscii c = true) (removeNonPrintable s).
Proof.
  unfold removeNonPrintable. apply Forall_forall. intros c Hc.
  apply filter_In in Hc. now destruct Hc.
Qed.

Lemma removeNonPrintable_unchanged (s : jsstring) :
  Forall (fun c => isPrintableAscii c = true) s -> removeNonPrintable s = s.
Proof.
  unfold removeNonPrintable. induction 1 as [|c s Hc _ IH]; simpl;
    [reflexivity|]. now rewrite Hc, IH.
Qed.

(** Among the printable ASCII characters only the space is whitespace. *)
Lemma printable_whitespace (c : N) :
  isPrintableAscii c = true ->
  isWhiteSpace c = negb (isVisibleAscii c).
Proof.
  unfold isPrintableAscii, isWhiteSpace, isVisibleAscii. intros H.
  apply andb_true_iff in H. destruct H as [Hlo Hhi].
  apply N.leb_le in Hlo, Hhi.
  destruct (N.eqb_spec c 32) as [-> | Hne].
  - reflexivity.
  - assert (H33 : (33 <=? c)%N = true) by (apply N.leb_le; lia).
    assert (H126 : (c <=? 126)%N = true) by (now apply N.leb_le).
    rewrite H33, H126. simpl.
    repeat match goal with
           | |- context [N.eqb c ?n] =>
             destruct (N.eqb_spec c n); [lia|]
           end.
    replace (8192 <=? c)%N with false by (symmetry; apply N.leb_gt; lia).
    reflexivity.
Qed.

Lemma visible_is_printable (c : N) :
  isVisibleAscii c = true -> isPrintableAscii c = true.
Proof.
  unfold isVisibleAscii, isPrintableAscii. rewrite !andb_true_iff, !N.leb_le. lia.
Qed.

(** The sanitized key is empty exactly when the key has no visible
    character. *)
Lemma sanitized_empty_iff (key : jsstring) :
  trim (removeNonPrintable key) = []
  <-> Forall (fun c => isVisibleAscii c = false) key.
Proof.
  rewrite trim_all_whitespace. unfold removeNonPrintable.
  rewrite !Forall_forall. split.
  - intros H c Hc. destruct (isVisibleAscii c) eqn:Hv; [|reflexivity].
    pose proof (visible_is_printable c Hv) as Hp.
    assert (Hin : In c (filter isPrintableAscii key)) by (now apply filter_In).
    specialize (H c Hin). rewrite (printable_whitespace c Hp), Hv in H.
    discriminate H.
  - intros H c Hc. apply filter_In in Hc. destruct Hc as [Hc Hp].
    rewrite (printable_whitespace c Hp), (H c Hc). reflexivity.
Qed.

Lemma sanitized_is_fixed (key : jsstring) :
  trim (removeNonPrintable (trim (removeNonPrintable key)))
  = trim (removeNonPrintable key).
Proof.
  rewrite (removeNonPrintable_unchanged
             (trim_keeps (removeNonPrintable_printable key))).
  apply trim_idempotent.
Qed.

Lemma sanitized_not_empty (key : jsstring) :
  Exists (fun c => isVisibleAscii c = true) key ->
  isEmpty (trim (removeNonPrintable key)) = false.
Proof.
  intros Hex. destruct (trim (removeNonPrintable key)) eqn:E; [|reflexivity].
  apply sanitized_empty_iff in E. apply Exists_exists in Hex.
  destruct Hex as (c & Hc & Hv). rewrite Forall_forall in E.
  rewrite (E c Hc) in Hv. discriminate Hv.
Qed.

(** X5.  A key with at least one visible character: after [setApiKey] the
    client that [getAiClient] builds carries exactly the stored key, since
    cleaning the stored key a second time changes nothing; the stored key
    holds printable ASCII characters only and has no whitespace at either
    end; and storing the stored key again leaves the slot as it is. *)
Theorem setApiKey_then_getAiClient :
  forall (key : jsstring) (w : World),
    Exists (fun c => isVisibleAscii c = true) key ->
    let stored := runtimeApiKey (setApiKey key w) in
    getAiClient (setApiKey key w)
    = (Resolved {| apiKey := stored |}, setApiKey key w)
    /\ Forall (fun c => isPrintableAscii c = true) stored
    /\ trim stored = stored
    /\ setApiKey stored (setApiKey key w) = setApiKey key w.
Proof.
  intros key w Hvisible stored.
  split; [|split; [|split]].
  - rewrite getAiClient_configured; [|now apply sanitized_not_empty].
    unfold stored. cbn [setApiKey runtimeApiKey].
    now rewrite sanitized_is_fixed.
  - apply trim_keeps, removeNonPrintable_printable.
  - apply trim_idempotent.
  - unfold stored, setApiKey. cbn [runtimeApiKey remote log].
    now rewrite sanitized_is_fixed.
Qed.

Lemma setApiKey_then_getAiClient_witness :
  getAiClient
    (setApiKey (lit "  کلید AIza key  ") (freshWorld [] (rejecting serverError)))
  = (Resolved
       {| apiKey :=
            runtimeApiKey
              (setApiKey (lit "  کلید AIza key  ")
                 (freshWorld [] (rejecting serverError))) |},
     setApiKey (lit "  کلید AIza key  ") (freshWorld [] (rejecting serverError))).
Proof.
  apply (@setApiKey_then_getAiClient (lit "  کلید AIza key  ")
           (freshWorld [] (rejecting serverError))).
  apply Exists_exists. exists 65%N. split; [vm_compute; tauto | reflexivity].
Defined.

(** X6.  [setApiKey] leaves the slot empty, so that every stage is
    rejected for a missing credential, exactly when the key has no
    character from [0x21] to [0x7E]: characters outside the printable
    range are removed and spaces alone are trimmed away. *)
Theorem setApiKey_empty_slot_iff :
  forall (key : jsstring) (w : World),
    (runtimeApiKey (setApiKey key w) = []
     <-> Forall (fun c => isVisibleAscii c = false) key)
    /\ (getAiClient (setApiKey key w)
        = (Rejected MissingCredential, setApiKey key w)
        <-> Forall (fun c => isVisibleAscii c = false) key).
Proof.
  intros key w. split; [apply sanitized_empty_iff|]. split.
  - intros Hrej. apply sanitized_empty_iff.
    destruct (trim (removeNonPrintable key)) as [|c rest] eqn:E; [reflexivity|].
    rewrite getAiClient_configured in Hrej; [discriminate Hrej|].
    cbn [setApiKey runtimeApiKey]. now rewrite E.
  - intros Hall. apply getAiClient_missing. now apply sanitized_empty_iff.
Qed.

Lemma setApiKey_empty_slot_iff_witness :
  getAiClient (setApiKey (lit "   	 ") (freshWorld sampleKey (rejecting serverError)))
  = (Rejected MissingCredential,
     setApiKey (lit "   	 ") (freshWorld sampleKey (rejecting serverError))).
Proof.
  apply (@setApiKey_empty_slot_iff (lit "   	 ")
           (freshWorld sampleKey (rejecting serverError))).
  repeat constructor.
Defined.

(** ** What no stage does *)

Lemma confined_stage {A} (Q : Event -> Prop) (fn : GoogleGenAI -> Async A)
      retries baseDelay :
  (forall ms, Q (EvTimeout ms)) ->
  (forall msg, Q (EvConsoleWarn msg)) ->
  (forall ai, confined Q (fn ai)) ->
  confined Q (ai <- getAiClient ;; executeWithRetry (fn ai) retries baseDelay).
Proof.
  intros Ht Hw Hfn. apply confined_bind; [auto with confined|].
  intros ai. now apply confined_executeWithRetry.
Qed.

Lemma confined_mapAsync {A B} (Q : Event -> Prop) (f : A -> B) (m : Async A) :
  confined Q m -> confined Q (mapAsync f m).
Proof. intros Hm. apply confined_bind; auto with confined. Qed.

Lemma confined_text_operation {A} (Q : Event -> Prop) ai params
      (f : GenerateContentResponse -> A) :
  Q (EvGenerateContent ai params) ->
  confined Q (response <- ai_generateContent ai params ;; ret (f response)).
Proof. intros HQ. apply confined_bind; auto with confined. Qed.

Lemma confined_image_operation (Q : Event -> Prop) ai params :
  Q (EvGenerateContent ai params) ->
  confined Q
    (tryCatch
       (response <- ai_generateContent ai params ;;
        let imageUrl :=
          scanForImage
            (match firstCandidateParts response with
             | Some ps => ps
             | None => []
             end) [] in
        if isEmpty imageUrl then throw (newError (lit "تصویر تولید نشد."))
        else ret imageUrl)
       (fun error => throw (generateStoryboardImage_rethrown error))).
Proof.
  intros HQ. apply confined_tryCatch; [|auto with confined].
  apply confined_bind; [auto with confined|]. intros response. cbv zeta.
  destruct (isEmpty _); auto with confined.
Qed.

Lemma confined_audio_operation (Q : Event -> Prop) decodeBase64 (e : JsError)
      ai params :
  Q (EvGenerateContent ai params) ->
  confined Q
    (response <- ai_generateContent ai params ;;
     match firstInlineData response with
     | Some ((_ :: _) as base64Audio) =>
       pcmData <- decoded decodeBase64 base64Audio ;;
       ret (pcmToWav pcmData 24000 1)
     | _ => throw e
     end).
Proof.
  intros HQ. apply confined_bind; [auto with confined|]. intros response.
  destruct (firstInlineData response) as [[|c base64]|]; auto with confined.
  apply confined_bind; [apply confined_decoded | auto with confined].
Qed.

Lemma confined_pollUntilDone (Q : Event -> Prop) fuel ai operation :
  (forall ms, Q (EvTimeout ms)) ->
  (forall ai op, Q (EvGetVideosOperation ai op)) ->
  confined Q (pollUntilDone fuel ai operation).
Proof.
  intros Ht Hs. revert operation.
  induction fuel as [|fuel IH]; intros operation; simpl;
    destruct (isDone operation); auto with confined.
  - intros w. apply grows_refl.
  - apply confined_bind; [auto with confined|]. intros _.
    apply confined_bind; [auto with confined | exact IH].
Qed.

Lemma confined_generateVideo_job (Q : Event -> Prop) fuel ai englishPrompt
      imageBase64 resolution :
  (forall ev, Q ev) ->
  confined Q (generateVideo_job fuel ai englishPrompt imageBase64 resolution).
Proof.
  intros HQ. unfold generateVideo_job.
  apply confined_bind; [auto with confined|]. intros operation.
  apply confined_bind; [now apply confined_pollUntilDone|]. intros operation'.
  destruct (videoUriOf operation') as [[|c u]|]; auto with confined.
  apply confined_bind; [auto with confined|]. intros key.
  apply confined_bind; [auto with confined|]. intros response.
  intros w. apply grows_refl.
Qed.

Lemma confined_generateVideo (Q : Event -> Prop) fuel userPrompt imageBase64
      resolution :
  (forall ev, Q ev) ->
  confined Q (generateVideo fuel userPrompt imageBase64 resolution).
Proof.
  intros HQ. unfold generateVideo.
  apply confined_bind; [auto with confined|]. intros ai.
  apply confined_bind; [now apply confined_translateToEnglish|].
  intros englishPrompt. apply confined_executeWithRetry; auto.
  now apply confined_generateVideo_job.
Qed.

(** X7.  No stage changes the credential slot or the collaborators, and
    no stage removes or rewrites an event of the log: whatever the
    outcome, the world after a stage is the world before it with new
    events at the end of the log.  A stage other than the video stage
    never submits a video job, fetches a job status or fetches a result. *)
Theorem stages_only_add_events :
  forall (decodeBase64 : jsstring -> JsError + list N) (call : StageCall),
    confined (allowedFor call) (invoke decodeBase64 call).
Proof.
  intros decodeBase64 call.
  destruct call; cbn [invoke]; apply confined_mapAsync;
    try (apply confined_generateVideo; intros ev Hcall; discriminate Hcall);
    apply confined_stage; try (intros; intros _; reflexivity);
    intros ai;
    first [ apply confined_text_operation
          | apply confined_image_operation
          | apply confined_audio_operation ];
    intros _; reflexivity.
Qed.

(** ** What the text stages resolve with *)

Lemma textStage_resolved {A} request (f : GenerateContentResponse -> A)
      (w : World) response :
  isEmpty (runtimeApiKey w) = false ->
  let ai := {| apiKey := trim (removeNonPrintable (runtimeApiKey w)) |} in
  onGenerateContent (remote w) (log w) ai request = Resolved response ->
  textStage request f w
  = (Resolved (f response), record (EvGenerateContent ai request) w).
Proof.
  intros Hkey ai Hremote. unfold textStage, bind at 1.
  rewrite (getAiClient_configured w Hkey). apply executeWithRetry_resolved.
  unfold bind, ai_generateContent. fold ai. now rewrite Hremote.
Qed.

Lemma textStage_resolved_inv {A} request (f : GenerateContentResponse -> A)
      (w w' : World) (a : A) :
  textStage request f w = (Resolved a, w') ->
  exists response, a = f response.
Proof.
  unfold textStage, bind at 1.
  destruct (getAiClient w) as [[ai | e |] w0]; try discriminate.
  intros H. apply executeWithRetry_resolved_inv in H. destruct H as [w1 H].
  unfold bind in H.
  destruct (ai_generateContent ai request w1) as [[response | e |] w2];
    try discriminate.
  exists response. unfold ret in H. congruence.
Qed.

Lemma orElseOpt_not_empty (a : option jsstring) (b : jsstring) :
  isEmpty b = false -> orElseOpt a b <> [].
Proof.
  intros Hb. destruct a as [[|c a]|]; cbv [orElseOpt orElse isEmpty];
    try discriminate; intros ->; discriminate Hb.
Qed.

Lemma orElseOpt_absent (a : option jsstring) (b : jsstring) :
  a = None \/ a = Some [] -> orElseOpt a b = b.
Proof. now intros [-> | ->]. Qed.

Lemma fallbacks_not_empty :
  isEmpty (lit "تحلیل انجام نشد.") = false
  /\ isEmpty (lit "خطا در تولید متن معلم.") = false
  /\ isEmpty (lit "خطا در تولید پرامپت.") = false.
Proof. repeat split; vm_compute; reflexivity. Qed.

(** X8.  The roadmap, teacher-script and storyboard-prompt stages never
    resolve with the empty string: a response without text is replaced by
    a fixed message of the stage.  The translation step resolves with the
    empty string only for an empty input. *)
Theorem text_stages_never_resolve_empty :
  forall (w w' : World) (r : jsstring),
    (forall context pages,
        analyzeCourseMap context pages w = (Resolved r, w') -> r <> [])
    /\ (forall imageBase64 globalContext pageAnalysis verifiedText
               verifiedDescription,
           generateTeacherScript imageBase64 globalContext pageAnalysis
             verifiedText verifiedDescription w = (Resolved r, w') ->
           r <> [])
    /\ (forall imageBase64 verifiedDescription,
           generateStoryboardPrompt imageBase64 verifiedDescription w
           = (Resolved r, w') ->
           r <> [])
    /\ (forall text,
           translateToEnglish text w = (Resolved r, w') ->
           text <> [] -> r <> []).
Proof.
  intros w w' r. destruct fallbacks_not_empty as (Hmap & Hteacher & Hboard).
  split; [|split; [|split]].
  - intros context pages H. apply textStage_resolved_inv in H.
    destruct H as [response ->]. now apply orElseOpt_not_empty.
  - intros imageBase64 globalContext pageAnalysis verifiedText
           verifiedDescription H.
    apply textStage_resolved_inv in H.
    destruct H as [response ->]. now apply orElseOpt_not_empty.
  - intros imageBase64 verifiedDescription H. apply textStage_resolved_inv in H.
    destruct H as [response ->]. now apply orElseOpt_not_empty.
  - intros text H Htext. apply textStage_resolved_inv in H.
    destruct H as [response ->]. apply orElseOpt_not_empty.
    now destruct text.
Qed.

Lemma text_stages_never_resolve_empty_witness :
  lit "خطا در تولید پرامپت." <> [].
Proof.
  destruct (text_stages_never_resolve_empty
              (freshWorld sampleKey (answering (textResponse []) serverError))
              (record
                 (EvGenerateContent sampleClient
                    (generateStoryboardPrompt_request [] []))
                 (freshWorld sampleKey (answering (textResponse []) serverError)))
              (lit "خطا در تولید پرامپت."))
    as (_ & _ & Hboard & _).
  apply (Hboard [] []). vm_compute. reflexivity.
Defined.

(** X9.  When the remote service resolves every content request with the
    same response, each free-text stage resolves after a single request,
    with the text of the response when it has a text that is not empty,
    and otherwise with its own fallback: the input itself for the
    translation, a fixed message for the roadmap, the teacher script and
    the storyboard prompt, and the empty string for the video prompt and
    the dialogue. *)
Theorem text_stages_resolve_with_text_or_fallback :
  forall (w : World) (response : GenerateContentResponse)
         (text context imageBase64 globalContext pageAnalysis verifiedText
          verifiedDescription teacherScript : jsstring)
         (pages : list CoursePage),
    isEmpty (runtimeApiKey w) = false ->
    (forall h ai params,
        onGenerateContent (remote w) h ai params = Resolved response) ->
    let answer := orElseOpt (response_text response) in
    let once (o : Outcome jsstring * World) (r : jsstring) :=
      exists request,
        o = (Resolved r,
             record
               (EvGenerateContent
                  {| apiKey := trim (removeNonPrintable (runtimeApiKey w)) |}
                  request) w) in
    once (translateToEnglish text w) (answer text)
    /\ once (analyzeCourseMap context pages w)
         (answer (lit "تحلیل انجام نشد."))
    /\ once (generateTeacherScript imageBase64 globalContext pageAnalysis
               verifiedText verifiedDescription w)
         (answer (lit "خطا در تولید متن معلم."))
    /\ once (generateStoryboardPrompt imageBase64 verifiedDescription w)
         (answer (lit "خطا در تولید پرامپت."))
    /\ once (generateVideoPrompt imageBase64 verifiedDescription w) (answer [])
    /\ once (generateDialogue imageBase64 teacherScript verifiedText w)
         (answer []).
Proof.
  intros w response text context imageBase64 globalContext pageAnalysis
         verifiedText verifiedDescription teacherScript pages Hkey Hremote
         answer once.
  unfold once, answer. clear once answer.
  split; [|split; [|split; [|split; [|split]]]]; eexists.
  - apply (@textStage_resolved _ _ (fun r => orElseOpt (response_text r) text)
             w response Hkey); apply Hremote.
  - apply (@textStage_resolved _ _
             (fun r => orElseOpt (response_text r) (lit "تحلیل انجام نشد."))
             w response Hkey); apply Hremote.
  - apply (@textStage_resolved _ _
             (fun r => orElseOpt (response_text r) (lit "خطا در تولید متن معلم."))
             w response Hkey); apply Hremote.
  - apply (@textStage_resolved _ _
             (fun r => orElseOpt (response_text r) (lit "خطا در تولید پرامپت."))
             w response Hkey); apply Hremote.
  - apply (@textStage_resolved _ _ (fun r => orElseOpt (response_text r) [])
             w response Hkey); apply Hremote.
  - apply (@textStage_resolved _ _ (fun r => orElseOpt (response_text r) [])
             w response Hkey); apply Hremote.
Qed.

Lemma text_stages_resolve_with_text_or_fallback_witness :
  exists request,
    translateToEnglish (lit "گربه")
      (freshWorld sampleKey (answering (textResponse []) serverError))
    = (Resolved (lit "گربه"),
       record
         (EvGenerateContent
            {| apiKey :=
                 trim (removeNonPrintable
                         (runtimeApiKey
                            (freshWorld sampleKey
                               (answering (textResponse []) serverError)))) |}
            request)
         (freshWorld sampleKey (answering (textResponse []) serverError))).
Proof.
  apply (@text_stages_resolve_with_text_or_fallback
           (freshWorld sampleKey (answering (textResponse []) serverError))
           (textResponse []) (lit "گربه") [] [] [] [] [] [] [] []).
  - reflexivity.
  - intros h ai params. reflexivity.
Defined.

(** ** Speech *)

Lemma generateSpeech_resolved_inv decodeBase64 text voiceName speed w b w' :
  generateSpeech decodeBase64 text voiceName speed w = (Resolved b, w') ->
  exists pcmData, b = monoContainer pcmData.
Proof.
  unfold generateSpeech, bind at 1.
  destruct (getAiClient w) as [[ai | e |] w0]; try discriminate.
  intros H. apply executeWithRetry_resolved_inv in H. destruct H as [w1 H].
  unfold bind at 1 in H.
  destruct (ai_generateContent ai (generateSpeech_request text voiceName) w1)
    as [[response | e |] w2]; try discriminate.
  destruct (firstInlineData response) as [[|c base64]|]; try discriminate.
  unfold bind, decoded in H.
  destruct (decodeBase64 (c :: base64)) as [e | pcmData];
    cbv beta iota delta [throw ret] in H; [discriminate|].
  exists pcmData. injection H as <- _. reflexivity.
Qed.

(** X10.  Single-speaker synthesis: the [speed] argument has no effect at
    all; whenever the stage resolves, its blob is a container with a
    sample rate of 24000 and 1 channel; and every request it sends
    carries the text, unchanged, as its only part and asks for the one
    voice named by [voiceName]. *)
Theorem generateSpeech_ignores_speed :
  forall (decodeBase64 : jsstring -> JsError + list N)
         (text voiceName : jsstring) (speed : Q) (w : World),
    (forall speed',
        generateSpeech decodeBase64 text voiceName speed'
        = generateSpeech decodeBase64 text voiceName speed)
    /\ (forall b w',
           generateSpeech decodeBase64 text voiceName speed w = (Resolved b, w') ->
           exists pcmData,
             b = WavBlob {| sampleRate := 24000; numChannels := 1;
                            pcm := pcmData |})
    /\ confined
         (requestsSatisfy
            (fun p =>
               requestTexts p = [text]
               /\ speechConfigOf p
                  = Some (SingleVoice {| prebuiltVoiceName := voiceName |})))
         (generateSpeech decodeBase64 text voiceName speed).
Proof.
  intros decodeBase64 text voiceName speed w. split; [reflexivity|]. split.
  - intros b w'. apply generateSpeech_resolved_inv.
  - apply confined_stage; try (intros; exact I). intros ai.
    apply confined_audio_operation. split; reflexivity.
Qed.

Lemma generateSpeech_ignores_speed_witness :
  exists pcmData,
    WavBlob {| sampleRate := 24000; numChannels := 1; pcm := [7]%N |}
    = WavBlob {| sampleRate := 24000; numChannels := 1; pcm := pcmData |}.
Proof.
  destruct (generateSpeech_ignores_speed (fun _ => inr [7]%N)
              (lit "سلام") (lit "Kore") (3 # 2)%Q
              (freshWorld sampleKey
                 (answering
                    (partsResponse [inlinePart (lit "audio/L16") (lit "Bw==")])
                    serverError)))
    as (_ & Hformat & _).
  apply (Hformat _
           (record
              (EvGenerateContent sampleClient
                 (generateSpeech_request (lit "سلام") (lit "Kore")))
              (freshWorld sampleKey
                 (answering
                    (partsResponse [inlinePart (lit "audio/L16") (lit "Bw==")])
                    serverError)))).
  vm_compute. reflexivity.
Defined.

Lemma missing_speech_is_not_quota :
  isQuotaError MissingSpeechPayload = false
  /\ isQuotaError MissingAudioPayload = false.
Proof. split; vm_compute; reflexivity. Qed.

Lemma audio_operation_without_payload decodeBase64 (e : JsError) ai params
      (w : World) response :
  onGenerateContent (remote w) (log w) ai params = Resolved response ->
  firstInlineData response = None \/ firstInlineData response = Some [] ->
  (response <- ai_generateContent ai params ;;
   match firstInlineData response with
   | Some ((_ :: _) as base64Audio) =>
     pcmData <- decoded decodeBase64 base64Audio ;;
     ret (pcmToWav pcmData 24000 1)
   | _ => throw e
   end) w
  = (Rejected e, record (EvGenerateContent ai params) w).
Proof.
  intros Hremote Hnone. unfold bind at 1. unfold ai_generateContent.
  rewrite Hremote. destruct Hnone as [-> | ->]; reflexivity.
Qed.

(** X11.  Both speech stages only look at the first part of the first
    candidate.  When the remote call resolves with a response whose first
    part has no inline payload, or an empty one, the stage is rejected
    with its own missing-audio error after that single request, without
    a retry, whatever the other parts hold. *)
Theorem speech_stages_need_audio_in_first_part :
  forall (decodeBase64 : jsstring -> JsError + list N)
         (text voiceName script : jsstring) (speed : Q) (w : World)
         (response : GenerateContentResponse),
    isEmpty (runtimeApiKey w) = false ->
    (forall h ai params,
        onGenerateContent (remote w) h ai params = Resolved response) ->
    firstInlineData response = None \/ firstInlineData response = Some [] ->
    let ai := {| apiKey := trim (removeNonPrintable (runtimeApiKey w)) |} in
    generateSpeech decodeBase64 text voiceName speed w
    = (Rejected MissingSpeechPayload,
       record (EvGenerateContent ai (generateSpeech_request text voiceName)) w)
    /\ generateMultiSpeakerAudio decodeBase64 script w
       = (Rejected MissingAudioPayload,
          record (EvGenerateContent ai (generateMultiSpeakerAudio_request script))
            w).
Proof.
  intros decodeBase64 text voiceName script speed w response Hkey Hremote
         Hnone ai.
  destruct missing_speech_is_not_quota as [Hspeech Hmulti]. split.
  - unfold generateSpeech, bind at 1. rewrite (getAiClient_configured w Hkey).
    apply executeWithRetry_other_error; [|exact Hspeech].
    now apply (audio_operation_without_payload decodeBase64 _ _ _ w
                 (Hremote _ _ _)).
  - unfold generateMultiSpeakerAudio, bind at 1.
    rewrite (getAiClient_configured w Hkey).
    apply executeWithRetry_other_error; [|exact Hmulti].
    now apply (audio_operation_without_payload decodeBase64 _ _ _ w
                 (Hremote _ _ _)).
Qed.

Lemma speech_stages_need_audio_in_first_part_witness :
  generateMultiSpeakerAudio (fun _ => inr [7]%N) (lit "علی: سلام")
    (freshWorld sampleKey
       (answering
          (partsResponse [textPart (lit "here is the audio");
                          inlinePart (lit "audio/L16") (lit "Bw==")])
          serverError))
  = (Rejected MissingAudioPayload,
     record
       (EvGenerateContent
          {| apiKey :=
               trim (removeNonPrintable
                       (runtimeApiKey
                          (freshWorld sampleKey
                             (answering
                                (partsResponse
                                   [textPart (lit "here is the audio");
                                    inlinePart (lit "audio/L16") (lit "Bw==")])
                                serverError)))) |}
          (generateMultiSpeakerAudio_request (lit "علی: سلام")))
       (freshWorld sampleKey
          (answering
             (partsResponse [textPart (lit "here is the audio");
                             inlinePart (lit "audio/L16") (lit "Bw==")])
             serverError))).
Proof.
  apply (@speech_stages_need_audio_in_first_part (fun _ => inr [7]%N)
           [] [] (lit "علی: سلام") 1%Q
           (freshWorld sampleKey
              (answering
                 (partsResponse [textPart (lit "here is the audio");
                                 inlinePart (lit "audio/L16") (lit "Bw==")])
                 serverError))
           (partsResponse [textPart (lit "here is the audio");
                           inlinePart (lit "audio/L16") (lit "Bw==")])).
  - reflexivity.
  - intros h ai params. reflexivity.
  - left. reflexivity.
Defined.

(** ** Errors of the storyboard image stage *)

Lemma isQuotaError_cases (e : JsError) :
  isQuotaError e
  = hasQuotaMarker (message e)
    || match status e with
       | Some s => (s =? 429)%Z
       | None => false
       end.
Proof.
  unfold isQuotaError, hasQuotaMarker.
  replace (orElse (message e) []) with (message e); [reflexivity|].
  now destruct (message e).
Qed.

Lemma image_fallback_has_no_marker :
  hasQuotaMarker (message (generateStoryboardImage_rethrown (newError []))) = false
  /\ isEmpty (message (generateStoryboardImage_rethrown (newError []))) = false.
Proof. split; vm_compute; reflexivity. Qed.

Lemma rethrown_message (e : JsError) :
  message (generateStoryboardImage_rethrown e)
  = match message e with
    | [] => message (generateStoryboardImage_rethrown (newError []))
    | _ :: _ => message e
    end.
Proof.
  unfold generateStoryboardImage_rethrown, newError. cbn [message].
  now destruct (message e).
Qed.

Lemma rethrown_is_quota (e : JsError) :
  isQuotaError (generateStoryboardImage_rethrown e) = hasQuotaMarker (message e).
Proof.
  rewrite isQuotaError_cases, rethrown_message.
  replace (status (generateStoryboardImage_rethrown e)) with (@None Z)
    by reflexivity.
  rewrite orb_false_r. destruct (message e) eqn:E; [|reflexivity].
  destruct image_fallback_has_no_marker as [Hmarker _]. rewrite Hmarker.
  reflexivity.
Qed.

(** X12.  The storyboard-image stage decides on a retry from the message
    of the remote error alone: when the message holds none of the three
    rate-limit markers, the stage makes a single remote call and is
    rejected, whatever the status of the remote error (429 included),
    with a new error that has no status and carries the message of the
    remote error, or a fixed message when that one is empty. *)
Theorem generateStoryboardImage_ignores_status :
  forall (promptText : jsstring) (w : World) (e : JsError),
    isEmpty (runtimeApiKey w) = false ->
    let ai := {| apiKey := trim (removeNonPrintable (runtimeApiKey w)) |} in
    let request :=
      generateStoryboardImage_request
        (generateStoryboardImage_finalPrompt promptText) in
    onGenerateContent (remote w) (log w) ai request = Rejected e ->
    hasQuotaMarker (message e) = false ->
    generateStoryboardImage promptText w
    = (Rejected
         {| message := orElse (message e) (lit "خطا در سرویس تصویر");
            status := None |},
       record (EvGenerateContent ai request) w).
Proof.
  intros promptText w e Hkey ai request Hremote Hmarker.
  apply (generateStoryboardImage_remote_error promptText w Hkey Hremote).
  now rewrite rethrown_is_quota.
Qed.

Lemma generateStoryboardImage_ignores_status_witness :
  generateStoryboardImage (lit "a red apple")
    (freshWorld sampleKey
       (rejecting {| message := lit "slow down"; status := Some 429%Z |}))
  = (Rejected
       {| message := orElse (lit "slow down") (lit "خطا در سرویس تصویر");
          status := None |},
     record
       (EvGenerateContent
          {| apiKey :=
               trim (removeNonPrintable
                       (runtimeApiKey
                          (freshWorld sampleKey
                             (rejecting {| message := lit "slow down";
                                           status := Some 429%Z |})))) |}
          (generateStoryboardImage_request
             (generateStoryboardImage_finalPrompt (lit "a red apple"))))
       (freshWorld sampleKey
          (rejecting {| message := lit "slow down"; status := Some 429%Z |}))).
Proof.
  apply (@generateStoryboardImage_ignores_status (lit "a red apple")
           (freshWorld sampleKey
              (rejecting {| message := lit "slow down"; status := Some 429%Z |}))
           {| message := lit "slow down"; status := Some 429%Z |}).
  - reflexivity.
  - reflexivity.
  - vm_compute. reflexivity.
Defined.

Lemma executeWithRetry_rejected_inv {T} (fn : Async T) retries baseDelay w e w' :
  executeWithRetry fn retries baseDelay w = (Rejected e, w') ->
  exists w1, fn w1 = (Rejected e, w').
Proof.
  intros H.
  destruct (executeWithRetry_decomposes fn retries baseDelay w)
    as (k & w1 & Hk & Hend).
  rewrite (executeWithRetry_skips_rate_limited Hk), executeWithRetry_settled in H.
  - now exists w1.
  - destruct Hend as [-> | Hend]; [left; lia | now right].
Qed.

Lemma scanForImage_shape (ps : list Part) :
  scanForImage ps [] = []
  \/ exists payload, scanForImage ps [] = lit "data:image/png;base64," ++ payload.
Proof.
  induction ps as [|part ps IH]; simpl; [now left|].
  destruct (inlineData part) as [d|]; [right; now exists (ofOpt (data d)) | exact IH].
Qed.

Lemma rethrown_shape (e : JsError) :
  status (generateStoryboardImage_rethrown e) = None
  /\ message (generateStoryboardImage_rethrown e) <> [].
Proof.
  split; [reflexivity|]. rewrite rethrown_message.
  destruct (message e) eqn:E; [|discriminate].
  destruct image_fallback_has_no_marker as [_ Hne].
  intros H. rewrite H in Hne. discriminate Hne.
Qed.

Lemma MissingCredential_shape :
  status MissingCredential = None /\ message MissingCredential <> [].
Proof. split; [reflexivity|]. intros H. vm_compute in H. discriminate H. Qed.

(** X13.  What the storyboard-image stage can end with.  When it
    resolves, the result is ["data:image/png;base64,"] followed by a
    payload, so it is never empty.  When it is rejected, the error has no
    status and a message that is not empty: it is the missing-credential
    error or an error built by the [catch] block of the stage. *)
Theorem generateStoryboardImage_outcomes :
  forall (promptText : jsstring) (w w' : World),
    (forall r,
        generateStoryboardImage promptText w = (Resolved r, w') ->
        exists payload, r = lit "data:image/png;base64," ++ payload)
    /\ (forall e,
           generateStoryboardImage promptText w = (Rejected e, w') ->
           status e = None /\ message e <> []).
Proof.
  intros promptText w w'. split.
  - intros r. unfold generateStoryboardImage, bind at 1.
    destruct (getAiClient w) as [[ai | e |] w0]; try discriminate.
    intros H. apply executeWithRetry_resolved_inv in H. destruct H as [w1 H].
    unfold tryCatch, bind in H.
    destruct (ai_generateContent ai _ w1) as [[response | e |] w2];
      try discriminate.
    cbv zeta in H.
    destruct (scanForImage_shape
                (match firstCandidateParts response with
                 | Some ps => ps
                 | None => []
                 end)) as [Hnone | [payload Hsome]].
    + rewrite Hnone in H. discriminate H.
    + rewrite Hsome, dataUrl_not_empty in H. exists payload.
      unfold ret in H. congruence.
  - intros e. unfold generateStoryboardImage, bind at 1.
    destruct (getAiClient w) as [[ai | e0 |] w0] eqn:Hclient.
    + intros H. apply executeWithRetry_rejected_inv in H. destruct H as [w1 H].
      unfold tryCatch in H.
      match type of H with
      | context [bind ?m ?k w1] => destruct (bind m k w1) as [[r | e1 |] w2]
      end; try discriminate.
      unfold throw in H. injection H as <- _. apply rethrown_shape.
    + intros H. injection H as <- _.
      unfold getAiClient, bind, readRuntimeApiKey in Hclient.
      destruct (isEmpty (runtimeApiKey w)); [|discriminate].
      unfold throw in Hclient. injection Hclient as <- _.
      apply MissingCredential_shape.
    + discriminate.
Qed.

Lemma generateStoryboardImage_outcomes_witness :
  status (newError (lit "Internal error")) = None
  /\ message (newError (lit "Internal error")) <> [].
Proof.
  destruct (generateStoryboardImage_outcomes (lit "a red apple")
              (freshWorld sampleKey (rejecting serverError))
              (record
                 (EvGenerateContent sampleClient
                    (generateStoryboardImage_request
                       (generateStoryboardImage_finalPrompt (lit "a red apple"))))
                 (freshWorld sampleKey (rejecting serverError))))
    as [_ Hrejected].
  apply Hrejected. vm_compute. reflexivity.
Defined.

(** ** The polling loop and the retry of the video job *)

Lemma pollUntilDone_pendingRounds ai ops op w op' w' fuel :
  pendingRounds ai ops op w op' w' ->
  (List.length ops <= fuel)%nat ->
  pollUntilDone fuel ai op w
  = pollUntilDone (fuel - List.length ops) ai op' w'.
Proof.
  intros H. revert fuel.
  induction H as [op w | ops op w op1 w1 op' w' Hpending Hfetch _ IH];
    intros fuel Hfuel.
  - now rewrite Nat.sub_0_r.
  - cbn [List.length] in *. destruct fuel as [|fuel]; [lia|].
    cbn [pollUntilDone Nat.sub]. rewrite Hpending.
    unfold bind at 1. unfold timeout at 1. cbv beta iota.
    unfold bind at 1. rewrite Hfetch. apply IH. lia.
Qed.

Lemma pendingRounds_log ai ops op w op' w' :
  pendingRounds ai ops op w op' w' ->
  log w' = log w ++ pollingEvents ai ops.
Proof.
  induction 1 as [op w | ops op w op1 w1 op' w' _ Hfetch _ IH].
  - simpl. now rewrite app_nil_r.
  - apply ai_getVideosOperation_world in Hfetch. subst w1.
    rewrite IH. simpl. now rewrite <- !app_assoc.
Qed.

(** X14.  The polling loop, for a job that is pending for any number of
    rounds: each round waits 5000 and then fetches the status of the
    handle that the previous fetch returned, and the loop does nothing
    else.  When the handle returned by the last round is done, the loop
    resolves with it; when the fetch after these rounds is rejected, the
    loop is rejected with that error at once, without another wait. *)
Theorem pollUntilDone_round_by_round :
  forall (ai : GoogleGenAI) (ops : list Operation) (op op' : Operation)
         (w w' : World) (fuel : nat),
    pendingRounds ai ops op w op' w' ->
    (List.length ops < fuel)%nat ->
    log w' = log w ++ pollingEvents ai ops
    /\ (isDone op' = true ->
        pollUntilDone fuel ai op w = (Resolved op', w'))
    /\ (forall e w'',
           isDone op' = false ->
           ai_getVideosOperation ai op' (record (EvTimeout 5000) w')
           = (Rejected e, w'') ->
           pollUntilDone fuel ai op w = (Rejected e, w'')
           /\ log w''
              = log w ++ pollingEvents ai (ops ++ [op'])).
Proof.
  intros ai ops op op' w w' fuel Hrounds Hfuel.
  pose proof (pendingRounds_log Hrounds) as Hlog.
  split; [exact Hlog|]. split.
  - intros Hdone.
    rewrite (pollUntilDone_pendingRounds Hrounds) by lia.
    destruct (fuel - List.length ops)%nat; simpl; now rewrite Hdone.
  - intros e w'' Hpending Hfetch. split.
    + rewrite (pollUntilDone_pendingRounds Hrounds) by lia.
      destruct (fuel - List.length ops)%nat as [|rest] eqn:E; [lia|].
      simpl. rewrite Hpending. unfold bind at 1. unfold timeout at 1.
      cbv beta iota. unfold bind at 1. now rewrite Hfetch.
    + apply ai_getVideosOperation_world in Hfetch. subst w''.
      unfold pollingEvents in *. rewrite flat_map_app. simpl.
      rewrite Hlog. now rewrite <- !app_assoc.
Qed.

Lemma pollUntilDone_round_by_round_witness :
  pollUntilDone 3 sampleClient pendingJob (submitted noResultWorld)
  = (Resolved emptyJob, polled pendingJob (submitted noResultWorld)).
Proof.
  destruct (@pollUntilDone_round_by_round sampleClient [pendingJob]
              pendingJob emptyJob (submitted noResultWorld)
              (polled pendingJob (submitted noResultWorld)) 3)
    as (_ & Hdone & _).
  - eapply pendingRounds_more; [reflexivity | vm_compute; reflexivity|].
    apply pendingRounds_none.
  - simpl. lia.
  - apply Hdone. reflexivity.
Defined.

(** X15.  The video stage retries the job as a whole, once.  When the
    first run of the job is rejected with a rate-limit error, wherever in
    the job that happens (the submission, a status fetch or the fetch of
    the result), the stage warns, waits 2000 and runs the job again from
    its submission; how that second run ends is how the stage ends, even
    when it is rate limited again. *)
Theorem generateVideo_retries_whole_job_once :
  forall (fuel : nat) (userPrompt imageBase64 : jsstring) (resolution : Resolution)
         (w w1 w2 : World) (english : jsstring) (e : JsError),
    isEmpty (runtimeApiKey w) = false ->
    let ai := {| apiKey := trim (removeNonPrintable (runtimeApiKey w)) |} in
    translateToEnglish userPrompt w = (Resolved english, w1) ->
    generateVideo_job fuel ai english imageBase64 resolution w1
    = (Rejected e, w2) ->
    isQuotaError e = true ->
    generateVideo fuel userPrompt imageBase64 resolution w
    = generateVideo_job fuel ai english imageBase64 resolution (pause 2000 1 w2).
Proof.
  intros fuel userPrompt imageBase64 resolution w w1 w2 english e Hkey ai
         Htranslate Hjob Hq.
  rewrite (@generateVideo_translated fuel userPrompt imageBase64 resolution
             w english w1 Hkey Htranslate).
  fold ai. unfold defaultBaseDelay.
  rewrite (executeWithRetry_retry _ 0 2000 w1 Hjob Hq).
  apply executeWithRetry_settled. now left.
Qed.

Lemma generateVideo_retries_whole_job_once_witness :
  generateVideo 3 (lit "گربه می‌دود") [] Res720p hiccupWorld
  = generateVideo_job 3
      {| apiKey := trim (removeNonPrintable (runtimeApiKey hiccupWorld)) |}
      (lit "a cat runs") [] Res720p
      (pause 2000 1 (polled pendingJob (submitted hiccupWorld))).
Proof.
  apply (@generateVideo_retries_whole_job_once 3 (lit "گربه می‌دود") [] Res720p
           hiccupWorld
           (worldAfter (translateToEnglish (lit "گربه می‌دود")) hiccupWorld)
           (polled pendingJob (submitted hiccupWorld))
           (lit "a cat runs") tooManyRequests).
  - reflexivity.
  - vm_compute. reflexivity.
  - vm_compute. reflexivity.
  - vm_compute. reflexivity.
Defined.

Example generateVideo_hiccup_run :
  fst (generateVideo 3 (lit "گربه می‌دود") [] Res720p hiccupWorld)
  = Resolved sampleVideo
  /\ countEvents isVideoSubmission
       (log (worldAfter (generateVideo 3 (lit "گربه می‌دود") [] Res720p)
               hiccupWorld))
     = 2%nat.
Proof. split; vm_compute; reflexivity. Qed.




(** ** The roadmap request and the analysis result *)





Lemma jsOr_truthyOrEmpty (v : JsValue) : truthyOrEmpty (jsOr v (JString [])).
Proof.
  unfold truthyOrEmpty, jsOr. destruct (toBoolean v) eqn:Hv; [now left | now right].
Qed.

Lemma analysisFallback_fields :
  truthyOrEmpty (analysis analysisFallback)
  /\ truthyOrEmpty (text analysisFallback)
  /\ truthyOrEmpty (description analysisFallback).
Proof.
  split; [left; vm_compute; reflexivity|]. split; right; reflexivity.
Qed.

Lemma parseAnalysis_fields (response : GenerateContentResponse) :
  truthyOrEmpty (analysis (parseAnalysis response))
  /\ truthyOrEmpty (text (parseAnalysis response))
  /\ truthyOrEmpty (description (parseAnalysis response)).
Proof.
  unfold parseAnalysis.
  destruct (JSON_parse _) as [json|]; [|exact analysisFallback_fields].
  destruct (getProperty json (lit "analysis")) as [a|];
    [|exact analysisFallback_fields].
  destruct (getProperty json (lit "text")) as [t|];
    [|exact analysisFallback_fields].
  destruct (getProperty json (lit "description")) as [d|];
    [|exact analysisFallback_fields].
  cbn [analysis text description].
  repeat split; apply jsOr_truthyOrEmpty.
Qed.

(** X18.  Whatever the page-analysis stage resolves with, each of its
    three fields holds either a truthy value or the empty string: a field
    is never [null], [undefined], [false] or zero, because a falsy value
    of the parsed response is replaced by the empty string. *)
Theorem analyzeSinglePage_fields_are_truthy_or_empty :
  forall (imageBase64 : jsstring) (w w' : World) (r : PageAnalysis),
    analyzeSinglePage imageBase64 w = (Resolved r, w') ->
    truthyOrEmpty (analysis r)
    /\ truthyOrEmpty (text r)
    /\ truthyOrEmpty (description r).
Proof.
  intros imageBase64 w w' r H. apply textStage_resolved_inv in H.
  destruct H as [response ->]. apply parseAnalysis_fields.
Qed.

Lemma analyzeSinglePage_fields_are_truthy_or_empty_witness :
  truthyOrEmpty (analysis (parseAnalysis (textResponse (lit "{}"))))
  /\ truthyOrEmpty (text (parseAnalysis (textResponse (lit "{}"))))
  /\ truthyOrEmpty (description (parseAnalysis (textResponse (lit "{}")))).
Proof.
  apply (@analyzeSinglePage_fields_are_truthy_or_empty []
           (freshWorld sampleKey (answering (textResponse (lit "{}")) serverError))
           (record (EvGenerateContent sampleClient (analyzeSinglePage_request []))
              (freshWorld sampleKey
                 (answering (textResponse (lit "{}")) serverError)))).
  vm_compute. reflexivity.
Defined.

(** ** The file system helpers *)

Lemma jsstring_eqb_refl (a : jsstring) : JsString.eqb a a = true.
Proof.
  induction a as [|x a IH]; simpl; [reflexivity|].
  now rewrite N.eqb_refl, IH.
Qed.

Lemma jsstring_eqb_eq (a b : jsstring) : JsString.eqb a b = true <-> a = b.
Proof.
  split; [|intros ->; apply jsstring_eqb_refl].
  revert b; induction a as [|x a IH]; intros [|y b]; simpl; try discriminate.
  - reflexivity.
  - rewrite andb_true_iff, N.eqb_eq. intros [-> H]. now rewrite (IH _ H).
Qed.

Lemma sameEntry_other (d n dir name dir' name' : jsstring) :
  dir' <> dir \/ name' <> name ->
  JsString.eqb d dir && JsString.eqb n name = true ->
  JsString.eqb d dir' && JsString.eqb n name' = false.
Proof.
  intros Hne H. apply andb_true_iff in H as [Hd Hn].
  apply jsstring_eqb_eq in Hd, Hn. subst d n.
  apply not_true_is_false. intros H.
  apply andb_true_iff in H as [Hd Hn].
  apply jsstring_eqb_eq in Hd, Hn. destruct Hne; congruence.
Qed.

Lemma lookupEntry_putEntry (es : list (jsstring * jsstring * list Blob))
  (dir name : jsstring) (content : list Blob) :
  lookupEntry (putEntry es dir name content) dir name = Some content.
Proof.
  induction es as [|[[d n] c] es IH]; simpl.
  - now rewrite !jsstring_eqb_refl.
  - destruct (JsString.eqb d dir && JsString.eqb n name) eqn:E; simpl;
      rewrite E; [reflexivity | exact IH].
Qed.

Lemma lookupEntry_putEntry_other (es : list (jsstring * jsstring * list Blob))
  (dir name dir' name' : jsstring) (content : list Blob) :
  dir' <> dir \/ name' <> name ->
  lookupEntry (putEntry es dir name content) dir' name' =
  lookupEntry es dir' name'.
Proof.
  intros Hne. induction es as [|[[d n] c] es IH]; simpl.
  - rewrite (@sameEntry_other dir name dir name dir' name' Hne); [reflexivity|].
    now rewrite !jsstring_eqb_refl.
  - destruct (JsString.eqb d dir && JsString.eqb n name) eqn:E; simpl.
    + now rewrite (@sameEntry_other d n dir name dir' name' Hne E).
    + now rewrite IH.
Qed.

Lemma streamAt_last (ss : list (option (FileSystemFileHandle * list Blob)))
  (s : option (FileSystemFileHandle * list Blob)) :
  streamAt (ss ++ [s]) (List.length ss) = s.
Proof.
  unfold streamAt. rewrite nth_error_app2 by lia.
  now rewrite Nat.sub_diag.
Qed.

Lemma setStream_last (ss : list (option (FileSystemFileHandle * list Blob)))
  (s s' : option (FileSystemFileHandle * list Blob)) :
  setStream (ss ++ [s]) (List.length ss) s' = ss ++ [s'].
Proof.
  induction ss as [|x ss IH]; simpl; [reflexivity | now rewrite IH].
Qed.

Lemma fsBind_resolved_inv {A B} (m : FsAsync A) (k : A -> FsAsync B)
  (d d' : Disk) (b : B) :
  fsBind m k d = (Resolved b, d') ->
  exists a d1, m d = (Resolved a, d1) /\ k a d1 = (Resolved b, d').
Proof.
  unfold fsBind. destruct (m d) as [[a|e|] d1]; try discriminate.
  intros H. now exists a, d1.
Qed.

Ltac fs_case :=
  match goal with
  | |- context [match faults ?d ?l ?ev with _ => _ end] =>
    let Hf := fresh "Hfault" in
    destruct (faults d l ev) eqn:Hf
  end.

(** The runs of [saveFileToFolder], one for each call that can fail. *)
Lemma saveFileToFolder_runs (dirHandle : FileSystemDirectoryHandle)
  (filename : jsstring) (blob : Blob) (d d' : Disk) (o : Outcome unit) :
  saveFileToFolder dirHandle filename blob d = (o, d') ->
  let dir := directory_name dirHandle in
  let created :=
    match lookupEntry (entries d) dir filename with
    | Some _ => entries d
    | None => putEntry (entries d) dir filename []
    end in
  (o = Resolved tt /\ entries d' = putEntry created dir filename [blob]) \/
  (exists e, o = Rejected e /\ (entries d' = entries d \/ entries d' = created)).
Proof.
  unfold saveFileToFolder, fsBind, getFileHandle, createWritable, write, close,
    fsCall.
  cbn beta iota.
  fs_case.
  - intros [= <- <-]. right. eexists. split; [reflexivity|]. now left.
  - cbn [entries streams objectUrls faults fsLog].
    destruct (lookupEntry (entries d) (directory_name dirHandle) filename)
      as [c|] eqn:Hl.
    + cbn [entries streams objectUrls faults fsLog withEntries withStreams
             handle_directory handle_name stream_id].
      rewrite Hl. fs_case.
      * intros [= <- <-]. right. eexists. split; [reflexivity|]. now left.
      * cbn [entries streams objectUrls faults fsLog withEntries withStreams
               handle_directory handle_name stream_id].
        fs_case.
        -- intros [= <- <-]. right. eexists. split; [reflexivity|]. now left.
        -- rewrite streamAt_last.
           cbn [entries streams objectUrls faults fsLog withEntries withStreams
                  handle_directory handle_name stream_id].
           fs_case.
           ++ intros [= <- <-]. right. eexists. split; [reflexivity|]. now left.
           ++ rewrite setStream_last, streamAt_last.
              cbn [entries streams objectUrls faults fsLog withEntries
                     withStreams handle_directory handle_name stream_id app].
              intros [= <- <-]. left. split; reflexivity.
    + cbn [entries streams objectUrls faults fsLog withEntries withStreams
             handle_directory handle_name stream_id].
      rewrite lookupEntry_putEntry. fs_case.
      * intros [= <- <-]. right. eexists. split; [reflexivity|]. now right.
      * cbn [entries streams objectUrls faults fsLog withEntries withStreams
               handle_directory handle_name stream_id].
        fs_case.
        -- intros [= <- <-]. right. eexists. split; [reflexivity|]. now right.
        -- rewrite streamAt_last.
           cbn [entries streams objectUrls faults fsLog withEntries withStreams
                  handle_directory handle_name stream_id].
           fs_case.
           ++ intros [= <- <-]. right. eexists. split; [reflexivity|]. now right.
           ++ rewrite setStream_last, streamAt_last.
              cbn [entries streams objectUrls faults fsLog withEntries
                     withStreams handle_directory handle_name stream_id app].
              intros [= <- <-]. left. split; reflexivity.
Qed.


(** The runs of the two readers. *)
Lemma getFileFromHandle_runs (dirHandle : FileSystemDirectoryHandle)
  (filename : jsstring) (d d' : Disk) (o : Outcome FileObject) :
  getFileFromHandle dirHandle filename d = (o, d') ->
  entries d' = entries d /\ streams d' = streams d /\
  objectUrls d' = objectUrls d /\
  ((exists content,
      lookupEntry (entries d) (directory_name dirHandle) filename = Some content /\
      o = Resolved {| file_name := filename; file_parts := content |}) \/
   (exists e, o = Rejected e)).
Proof.
  unfold getFileFromHandle, fsBind, getFileHandle, getFile, fsCall.
  cbn beta iota.
  fs_case.
  - intros [= <- <-]. cbn. repeat split. right. now eexists.
  - cbn [entries streams objectUrls faults fsLog].
    destruct (lookupEntry (entries d) (directory_name dirHandle) filename)
      as [c|] eqn:Hl.
    + cbn [entries streams objectUrls faults fsLog handle_directory handle_name].
      rewrite Hl. fs_case.
      * intros [= <- <-]. cbn. repeat split. right. now eexists.
      * intros [= <- <-]. cbn. repeat split. left. now exists c.
    + intros [= <- <-]. cbn. repeat split. right. now eexists.
Qed.

Lemma getFileUrl_as_getFileFromHandle (dirHandle : FileSystemDirectoryHandle)
  (filename : jsstring) (d : Disk) :
  getFileUrl dirHandle filename d =
  fsBind (getFileFromHandle dirHandle filename) createObjectURL d.
Proof.
  unfold getFileUrl, getFileFromHandle, fsBind.
  destruct (getFileHandle dirHandle filename false d) as [[h|e|] d1];
    reflexivity.
Qed.

Lemma saveFileToFolder_without_faults (dirHandle : FileSystemDirectoryHandle)
  (filename : jsstring) (blob : Blob) (d : Disk) :
  (forall history ev, faults d history ev = None) ->
  exists d1,
    saveFileToFolder dirHandle filename blob d = (Resolved tt, d1) /\
    (forall history ev, faults d1 history ev = None).
Proof.
  intros Hfaults.
  unfold saveFileToFolder, fsBind, getFileHandle, createWritable, write,
    close, fsCall.
  rewrite Hfaults. cbn [entries streams objectUrls faults fsLog].
  destruct (lookupEntry (entries d) (directory_name dirHandle) filename)
    as [c|] eqn:Hl;
    cbn [entries streams objectUrls faults fsLog withEntries withStreams
           handle_directory handle_name stream_id];
    rewrite ?Hl, ?lookupEntry_putEntry, !Hfaults;
    cbn [entries streams objectUrls faults fsLog withEntries withStreams
           handle_directory handle_name stream_id];
    rewrite Hfaults, streamAt_last;
    cbn [entries streams objectUrls faults fsLog withEntries withStreams
           handle_directory handle_name stream_id];
    rewrite Hfaults, setStream_last, streamAt_last;
    (eexists; split; [reflexivity | exact Hfaults]).
Qed.

(** X19. [saveFileToFolder] settles, and it replaces the file or leaves
    its content as it was: when it resolves, the file holds the blob and
    nothing else, whatever it held before; when it rejects, the file
    holds what it held before, or it is the empty file that the first
    call created. *)
Theorem saveFileToFolder_all_or_nothing :
  forall (dirHandle : FileSystemDirectoryHandle) (filename : jsstring)
    (blob : Blob) (d d' : Disk) (o : Outcome unit),
    saveFileToFolder dirHandle filename blob d = (o, d') ->
    let before := lookupEntry (entries d) (directory_name dirHandle) filename in
    let after := lookupEntry (entries d') (directory_name dirHandle) filename in
    (o = Resolved tt /\ after = Some [blob]) \/
    (exists e, o = Rejected e /\
       (after = before \/ (before = None /\ after = Some []))).
Proof.
  intros dirHandle filename blob d d' o Hrun. cbn zeta.
  destruct (saveFileToFolder_runs _ _ _ _ Hrun) as [[-> He] | [e [-> He]]].
  - left. split; [reflexivity|]. rewrite He. apply lookupEntry_putEntry.
  - right. exists e. split; [reflexivity|].
    destruct He as [He | He]; rewrite He; [now left|].
    destruct (lookupEntry (entries d) (directory_name dirHandle) filename)
      as [c|] eqn:Hl.
    + left. exact Hl.
    + right. split; [reflexivity | apply lookupEntry_putEntry].
Qed.

Lemma saveFileToFolder_all_or_nothing_witness :
  (fst interruptedSave = Resolved tt /\
   lookupEntry (entries (snd interruptedSave)) (directory_name courseFolder)
     (lit "page-1.png") = Some [samplePage]) \/
  (exists e, fst interruptedSave = Rejected e /\
     (lookupEntry (entries (snd interruptedSave)) (directory_name courseFolder)
        (lit "page-1.png") =
      lookupEntry (entries (fullDisk [] quotaExceeded))
        (directory_name courseFolder) (lit "page-1.png") \/
      (lookupEntry (entries (fullDisk [] quotaExceeded))
         (directory_name courseFolder) (lit "page-1.png") = None /\
       lookupEntry (entries (snd interruptedSave)) (directory_name courseFolder)
         (lit "page-1.png") = Some []))).
Proof.
  exact (@saveFileToFolder_all_or_nothing courseFolder (lit "page-1.png")
           samplePage (fullDisk [] quotaExceeded) (snd interruptedSave)
           (fst interruptedSave) (surjective_pairing interruptedSave)).
Defined.

(** X20. [saveFileToFolder] touches one file: whatever its outcome, every
    other file of the directory, and every file of another directory,
    holds what it held before. *)
Theorem saveFileToFolder_keeps_other_files :
  forall (dirHandle : FileSystemDirectoryHandle) (filename : jsstring)
    (blob : Blob) (d d' : Disk) (o : Outcome unit)
    (dir' name' : jsstring),
    saveFileToFolder dirHandle filename blob d = (o, d') ->
    dir' <> directory_name dirHandle \/ name' <> filename ->
    lookupEntry (entries d') dir' name' = lookupEntry (entries d) dir' name'.
Proof.
  intros dirHandle filename blob d d' o dir' name' Hrun Hne.
  assert (Hcreated :
    lookupEntry
      match lookupEntry (entries d) (directory_name dirHandle) filename with
      | Some _ => entries d
      | None => putEntry (entries d) (directory_name dirHandle) filename []
      end dir' name' = lookupEntry (entries d) dir' name').
  { destruct (lookupEntry (entries d) (directory_name dirHandle) filename);
      [reflexivity | now apply lookupEntry_putEntry_other]. }
  destruct (saveFileToFolder_runs _ _ _ _ Hrun) as [[_ He] | [e [_ [He | He]]]];
    rewrite He.
  - rewrite lookupEntry_putEntry_other by exact Hne. exact Hcreated.
  - reflexivity.
  - exact Hcreated.
Qed.

Lemma saveFileToFolder_keeps_other_files_witness :
  lookupEntry
    (entries
       (snd (saveFileToFolder courseFolder (lit "page-1.png")
               samplePage
               (plainDisk [(lit "course-1", lit "page-2.png", [])]))))
    (lit "course-1") (lit "page-2.png") =
  lookupEntry (entries (plainDisk [(lit "course-1", lit "page-2.png", [])]))
    (lit "course-1") (lit "page-2.png").
Proof.
  apply (@saveFileToFolder_keeps_other_files courseFolder (lit "page-1.png")
           samplePage
           (plainDisk [(lit "course-1", lit "page-2.png", [])])
           (snd (saveFileToFolder courseFolder (lit "page-1.png")
                   samplePage
                   (plainDisk [(lit "course-1", lit "page-2.png", [])])))
           (fst (saveFileToFolder courseFolder (lit "page-1.png")
                   samplePage
                   (plainDisk [(lit "course-1", lit "page-2.png", [])])))).
  - apply surjective_pairing.
  - right. vm_compute. discriminate.
Defined.

(** X21. What [saveFileToFolder] wrote, [readFileFromFolder] reads: in a
    directory whose calls do not fail, saving a blob resolves, and reading
    the same name afterwards resolves with a file of that name made of
    that blob alone. *)
Theorem saveFileToFolder_then_readFileFromFolder :
  forall (dirHandle : FileSystemDirectoryHandle) (filename : jsstring)
    (blob : Blob) (d : Disk),
    (forall history ev, faults d history ev = None) ->
    exists d1 d2,
      saveFileToFolder dirHandle filename blob d = (Resolved tt, d1) /\
      readFileFromFolder dirHandle filename d1 =
      (Resolved {| file_name := filename; file_parts := [blob] |}, d2).
Proof.
  intros dirHandle filename blob d Hfaults.
  destruct (@saveFileToFolder_without_faults dirHandle filename blob d Hfaults)
    as [d1 [Hrun Hfaults1]].
  assert (Hl1 : lookupEntry (entries d1) (directory_name dirHandle) filename =
                Some [blob]).
  { destruct (saveFileToFolder_runs _ _ _ _ Hrun) as [[_ He] | [e [He _]]];
      [|discriminate].
    rewrite He. apply lookupEntry_putEntry. }
  exists d1. eexists. split; [exact Hrun|].
  unfold readFileFromFolder, getFileFromHandle, fsBind, getFileHandle, getFile,
    fsCall.
  rewrite Hfaults1. cbn [entries streams objectUrls faults fsLog].
  rewrite Hl1.
  cbn [entries streams objectUrls faults fsLog handle_directory handle_name].
  rewrite Hfaults1, Hl1. reflexivity.
Qed.

Lemma saveFileToFolder_then_readFileFromFolder_witness :
  exists d1 d2,
    saveFileToFolder courseFolder (lit "page-1.png")
      samplePage
      (plainDisk [(lit "course-1", lit "page-1.png", [earlierPage])]) =
    (Resolved tt, d1) /\
    readFileFromFolder courseFolder (lit "page-1.png") d1 =
    (Resolved {| file_name := lit "page-1.png";
                 file_parts := [samplePage] |},
     d2).
Proof.
  apply (@saveFileToFolder_then_readFileFromFolder courseFolder
           (lit "page-1.png") samplePage
           (plainDisk [(lit "course-1", lit "page-1.png", [earlierPage])])).
  intros history ev. reflexivity.
Defined.

(** X22. Reading a file that is not there fails and creates nothing:
    [getFileFromHandle] and [getFileUrl] reject with the same error after
    the one call that asks for the handle, no file and no object URL is
    added, and the error is the one for a missing file unless that call
    failed for another reason. *)
Theorem reading_a_missing_file_fails :
  forall (dirHandle : FileSystemDirectoryHandle) (filename : jsstring)
    (d : Disk),
    lookupEntry (entries d) (directory_name dirHandle) filename = None ->
    exists e d',
      getFileFromHandle dirHandle filename d = (Rejected e, d') /\
      getFileUrl dirHandle filename d = (Rejected e, d') /\
      entries d' = entries d /\
      objectUrls d' = objectUrls d /\
      fsLog d' = fsLog d ++ [FsGetFileHandle dirHandle filename false] /\
      (faults d (fsLog d) (FsGetFileHandle dirHandle filename false) = None ->
       e = NotFoundError).
Proof.
  intros dirHandle filename d Hl.
  unfold getFileFromHandle, getFileUrl, fsBind, getFileHandle, fsCall.
  cbn [entries streams objectUrls faults fsLog]. rewrite Hl.
  destruct (faults d (fsLog d) (FsGetFileHandle dirHandle filename false))
    as [e|] eqn:Hfault.
  - exists e. eexists. repeat split. discriminate.
  - exists NotFoundError. eexists. repeat split.
Qed.

Lemma reading_a_missing_file_fails_witness :
  exists e d',
    getFileFromHandle courseFolder (lit "page-1.png") (plainDisk []) =
    (Rejected e, d') /\
    getFileUrl courseFolder (lit "page-1.png") (plainDisk []) =
    (Rejected e, d') /\
    entries d' = entries (plainDisk []) /\
    objectUrls d' = objectUrls (plainDisk []) /\
    fsLog d' =
    fsLog (plainDisk []) ++
    [FsGetFileHandle courseFolder (lit "page-1.png") false] /\
    (faults (plainDisk []) (fsLog (plainDisk []))
       (FsGetFileHandle courseFolder (lit "page-1.png") false) = None ->
     e = NotFoundError).
Proof.
  apply (@reading_a_missing_file_fails courseFolder (lit "page-1.png")
           (plainDisk [])).
  reflexivity.
Defined.

(** X23. When [getFileUrl] resolves, the file exists, [getFileFromHandle]
    resolves with it, and the URL is a new object URL for that file, added
    after the ones created before; no file is changed. *)
Theorem getFileUrl_registers_the_file :
  forall (dirHandle : FileSystemDirectoryHandle) (filename url : jsstring)
    (d d' : Disk),
    getFileUrl dirHandle filename d = (Resolved url, d') ->
    exists content d1,
      lookupEntry (entries d) (directory_name dirHandle) filename =
      Some content /\
      getFileFromHandle dirHandle filename d =
      (Resolved {| file_name := filename; file_parts := content |}, d1) /\
      objectUrls d' =
      objectUrls d ++
      [(url, {| file_name := filename; file_parts := content |})] /\
      entries d' = entries d.
Proof.
  intros dirHandle filename url d d'.
  rewrite getFileUrl_as_getFileFromHandle. intros Hrun.
  apply fsBind_resolved_inv in Hrun as [file [d1 [Hread Hurl]]].
  destruct (getFileFromHandle_runs _ _ _ Hread)
    as [He [_ [Hu [[content [Hl [= ->]]] | [e [=]]]]]].
  exists content, d1. split; [exact Hl|]. split; [exact Hread|].
  unfold createObjectURL in Hurl. injection Hurl as <- <-.
  cbn [entries objectUrls]. rewrite Hu, He. split; reflexivity.
Qed.

Lemma getFileUrl_registers_the_file_witness :
  exists content d1,
    lookupEntry
      (entries (plainDisk [(lit "course-1", lit "page-1.png", [samplePage])]))
      (directory_name courseFolder) (lit "page-1.png") = Some content /\
    getFileFromHandle courseFolder (lit "page-1.png")
      (plainDisk [(lit "course-1", lit "page-1.png", [samplePage])]) =
    (Resolved {| file_name := lit "page-1.png"; file_parts := content |}, d1) /\
    objectUrls
      (snd (getFileUrl courseFolder (lit "page-1.png")
              (plainDisk [(lit "course-1", lit "page-1.png", [samplePage])]))) =
    objectUrls (plainDisk [(lit "course-1", lit "page-1.png", [samplePage])]) ++
    [(lit "blob:0",
      {| file_name := lit "page-1.png"; file_parts := content |})] /\
    entries
      (snd (getFileUrl courseFolder (lit "page-1.png")
              (plainDisk [(lit "course-1", lit "page-1.png", [samplePage])]))) =
    entries (plainDisk [(lit "course-1", lit "page-1.png", [samplePage])]).
Proof.
  apply (@getFileUrl_registers_the_file courseFolder (lit "page-1.png")
           (lit "blob:0")
           (plainDisk [(lit "course-1", lit "page-1.png", [samplePage])])).
  vm_compute. reflexivity.
Defined.

(** X24. The readers change no file and open no stream: after
    [getFileFromHandle] and after [getFileUrl], whatever the outcome, the
    files and the streams are those of before, and [getFileFromHandle]
    creates no object URL. *)
Theorem readers_change_no_file :
  forall (dirHandle : FileSystemDirectoryHandle) (filename : jsstring)
    (d : Disk),
    entries (snd (getFileFromHandle dirHandle filename d)) = entries d /\
    streams (snd (getFileFromHandle dirHandle filename d)) = streams d /\
    objectUrls (snd (getFileFromHandle dirHandle filename d)) = objectUrls d /\
    entries (snd (getFileUrl dirHandle filename d)) = entries d /\
    streams (snd (getFileUrl dirHandle filename d)) = streams d.
Proof.
  intros dirHandle filename d.
  rewrite getFileUrl_as_getFileFromHandle. unfold fsBind.
  destruct (getFileFromHandle dirHandle filename d) as [o d1] eqn:Hread.
  destruct (getFileFromHandle_runs _ _ _ Hread) as [He [Hs [Hu _]]].
  cbn [snd]. repeat split; try assumption;
    destruct o as [file|e|]; cbn; assumption.
Qed.
